(** * The scripting bridge of the game server: luascript.cpp

    A shallow embedding of the per-call script environment
    ([ScriptEnvironment]), of the class registration and the type test of
    [LuaScriptInterface], and of the timer events of [LuaEnvironment],
    together with the properties the specification states about them.

    Conventions.  A [uint32_t] is a [Z] in [0, 2^32) and its increment is
    written with the wrap-around.  A [shared_ptr] to an engine object is an
    optional address ([None] is [nullptr]); two pointers are equal when the
    addresses are.  A [std::map] or [std::unordered_map] is a [gmap].  The
    engine ([g_game]), the scheduler and the Lua virtual machine are
    collaborators of the bridge: the engine is a record of its lookups, the
    Lua C API is modelled on a small value stack with a heap of tables. *)

From stdpp Require Import gmap strings list fin_maps pretty.
Local Open Scope Z_scope.

(** ** Machine integers *)

Definition wrap (bits : Z) (z : Z) : Z := z mod 2 ^ bits.
Definition wrap32 : Z → Z := wrap 32.

Definition UINT16_MAX : Z := 65535.
Definition CREATURE_ID_MIN : Z := 0x10000000.

(** ** The engine, as the bridge sees it *)

Module Engine.

Definition addr := N.

Inductive ItemKind := PlainItem | ContainerItem | TeleportItem.
Inductive CreatureKind := PlayerKind | MonsterKind | NpcKind.

Inductive Cylinder :=
| virtualCylinder
| cylinderAt (a : addr).

Record Item := {
  item_removed : bool;
  (* the attribute ITEM_ATTRIBUTE_UNIQUEID, when the item has it *)
  item_uniqueIdAttr : option Z;
  item_parent : option Cylinder;
  item_kind : ItemKind
}.

Record Creature := {
  creature_removed : bool;
  creature_id : Z;
  creature_kind : CreatureKind
}.

(** A [Thing] is an item, a creature or a tile. *)
Inductive Thing :=
| ItemThing (i : Item)
| CreatureThing (c : Creature)
| TileThing (removed : bool).

#[export] Instance ItemKind_eq_dec : EqDecision ItemKind.
Proof. solve_decision. Defined.
#[export] Instance CreatureKind_eq_dec : EqDecision CreatureKind.
Proof. solve_decision. Defined.
#[export] Instance Cylinder_eq_dec : EqDecision Cylinder.
Proof. solve_decision. Defined.

Definition isRemoved (t : Thing) : bool :=
  match t with
  | ItemThing i => item_removed i
  | CreatureThing c => creature_removed c
  | TileThing r => r
  end.

Definition hasUniqueIdAttr (i : Item) : bool :=
  bool_decide (is_Some (item_uniqueIdAttr i)).

(** [Item::getUniqueId]: the attribute, or 0 without it. *)
Definition getUniqueId (i : Item) : Z := default 0 (item_uniqueIdAttr i).

(** [g_game]: the objects behind the pointers and the two server-wide
    lookups the bridge uses. *)
Record Game := {
  thingAt : addr → Thing;
  getCreatureByID : Z → option addr;
  getUniqueItem : Z → option addr
}.

(** [thing->getItem()] and [thing->getCreature()]: the same pointer at the
    narrower type, or [nullptr]. *)
Definition getItem (g : Game) (p : addr) : option addr :=
  match thingAt g p with ItemThing _ => Some p | _ => None end.

Definition getCreature (g : Game) (p : addr) : option addr :=
  match thingAt g p with CreatureThing _ => Some p | _ => None end.

Definition itemAt (g : Game) (p : addr) : option Item :=
  match thingAt g p with ItemThing i => Some i | _ => None end.

Definition creatureAt (g : Game) (p : addr) : option Creature :=
  match thingAt g p with CreatureThing c => Some c | _ => None end.

(** Calls the bridge makes on the engine that change it. *)
Inductive EngineCall :=
| ReleaseItem (item : addr)
| removeUniqueItem (uid : Z).

#[export] Instance EngineCall_eq_dec : EqDecision EngineCall.
Proof. solve_decision. Defined.

End Engine.
Export Engine.

(** ** ScriptEnvironment: the members of one environment *)

Record ScriptEnvironment := {
  scriptId : Z;
  callbackId : Z;
  timerEvent : bool;
  interface : option nat;
  localMap : gmap Z (option addr);
  lastUID : Z
}.

Definition set_localMap (m : gmap Z (option addr)) (env : ScriptEnvironment) :=
  {| scriptId := scriptId env; callbackId := callbackId env;
     timerEvent := timerEvent env; interface := interface env;
     localMap := m; lastUID := lastUID env |}.

Definition set_lastUID (u : Z) (env : ScriptEnvironment) :=
  {| scriptId := scriptId env; callbackId := callbackId env;
     timerEvent := timerEvent env; interface := interface env;
     localMap := localMap env; lastUID := u |}.

(** The members [resetEnv] assigns; [lastUID] is not among them. *)
Definition resetMembers (env : ScriptEnvironment) : ScriptEnvironment :=
  {| scriptId := 0; callbackId := 0; timerEvent := false; interface := None;
     localMap := ∅; lastUID := lastUID env |}.

(** Modelled from the spec: the initial value of [lastUID] is given in
    luascript.h, which is not under src/; local uids are "assigned
    sequentially per context from a configurable base".  The constructor
    runs [resetEnv] on the new environment. *)
Definition newScriptEnvironment (base : Z) : ScriptEnvironment :=
  {| scriptId := 0; callbackId := 0; timerEvent := false; interface := None;
     localMap := ∅; lastUID := base |}.

(** [setCallbackId]: the result, the environment afterwards and what was
    reported. *)
Definition setCallbackId (newCallbackId : Z) (scriptInterface : option nat)
    (env : ScriptEnvironment) : bool * ScriptEnvironment * list string :=
  if bool_decide (callbackId env ≠ 0) then
    (false, env,
     if interface env is Some _ then ["Nested callbacks!"%string] else [])
  else
    (true,
     {| scriptId := scriptId env; callbackId := newCallbackId;
        timerEvent := timerEvent env; interface := scriptInterface;
        localMap := localMap env; lastUID := lastUID env |},
     []).

(** The loop of [addThing] over [localMap]: the key of the first entry, in
    the iteration order of the map, whose pointer is [item].  The container
    is declared in luascript.h, which is not under src/: its iteration
    order is represented by the order of the map of the model, so for an
    item bound under several uids the uid found here need not be the one
    the C++ loop meets first. *)
Definition findUid (item : option addr) (m : gmap Z (option addr)) : option Z :=
  (λ r : nat * (Z * option addr), r.2.1) <$>
    list_find (λ kv : Z * option addr, kv.2 = item) (map_to_list m).

(** The test [item && item->hasAttribute(ITEM_ATTRIBUTE_UNIQUEID)] of
    [addThing], with the value of [item->getUniqueId()] when it holds. *)
Definition uniqueIdOf (g : Game) (t : addr) : option Z :=
  match itemAt g t with
  | Some i => if hasUniqueIdAttr i then Some (getUniqueId i) else None
  | None => None
  end.

Definition addThing (g : Game) (thing : option addr) (env : ScriptEnvironment)
    : Z * ScriptEnvironment :=
  match thing with
  | None => (0, env)
  | Some t =>
    if isRemoved (thingAt g t) then (0, env)
    else match creatureAt g t with
    | Some creature => (creature_id creature, env)
    | None =>
      let item := getItem g t in
      match uniqueIdOf g t with
      | Some uid => (uid, env)
      | None =>
        match findUid item (localMap env) with
        | Some uid => (uid, env)
        | None =>
          let uid := wrap32 (lastUID env + 1) in
          (uid, set_localMap (<[uid := item]> (localMap env))
                  (set_lastUID uid env))
        end
      end
    end
  end.

(** [insertItem]: [emplace] keeps an existing binding; the environment
    afterwards and what was printed. *)
Definition insertItem (uid : Z) (item : option addr) (env : ScriptEnvironment)
    : ScriptEnvironment * list string :=
  match localMap env !! uid with
  | Some _ => (env, ["Lua Script Error: Thing uid already taken."%string])
  | None => (set_localMap (<[uid := item]> (localMap env)) env, [])
  end.

(** The three lookups of [getThingByUID].  In [localLookup] the outer
    [None] is the undefined behaviour of [item->isRemoved()] on a null
    pointer stored in [localMap]. *)
Definition creatureLookup (g : Game) (uid : Z) : option (option addr) :=
  Some (getCreatureByID g uid).

Definition uniqueItemLookup (g : Game) (uid : Z) : option (option addr) :=
  match getUniqueItem g uid with
  | Some item =>
    if negb (isRemoved (thingAt g item)) then Some (Some item) else Some None
  | None => Some None
  end.

Definition localLookup (g : Game) (m : gmap Z (option addr)) (uid : Z)
    : option (option addr) :=
  match m !! uid with
  | Some (Some item) =>
    if negb (isRemoved (thingAt g item)) then Some (Some item) else Some None
  | Some None => None
  | None => Some None
  end.

Definition getThingByUID (g : Game) (env : ScriptEnvironment) (uid : Z)
    : option (option addr) :=
  if bool_decide (CREATURE_ID_MIN ≤ uid) then creatureLookup g uid
  else if bool_decide (uid ≤ UINT16_MAX) then uniqueItemLookup g uid
  else localLookup g (localMap env) uid.

(** [removeItemByUID]: the environment afterwards and the engine calls. *)
Definition removeItemByUID (uid : Z) (env : ScriptEnvironment)
    : ScriptEnvironment * list EngineCall :=
  if bool_decide (uid ≤ UINT16_MAX) then (env, [removeUniqueItem uid])
  else (set_localMap (delete uid (localMap env)) env, []).

(** ** The static members of ScriptEnvironment and the array of environments

    [tempResults], [lastResultId] and [tempItems] are static: one instance
    serves every environment.  An environment is named by its position in
    [LuaScriptInterface::scriptEnv]. *)

Record Bridge := {
  scriptEnv : list ScriptEnvironment;
  scriptEnvIndex : Z;
  tempResults : gmap Z (option N);
  lastResultId : Z;
  tempItems : list (nat * option addr);
  engineCalls : list EngineCall
}.

Definition set_scriptEnv (envs : list ScriptEnvironment) (b : Bridge) :=
  {| scriptEnv := envs; scriptEnvIndex := scriptEnvIndex b;
     tempResults := tempResults b; lastResultId := lastResultId b;
     tempItems := tempItems b; engineCalls := engineCalls b |}.

Definition set_scriptEnvIndex (i : Z) (b : Bridge) :=
  {| scriptEnv := scriptEnv b; scriptEnvIndex := i;
     tempResults := tempResults b; lastResultId := lastResultId b;
     tempItems := tempItems b; engineCalls := engineCalls b |}.

Definition set_tempItems (l : list (nat * option addr)) (b : Bridge) :=
  {| scriptEnv := scriptEnv b; scriptEnvIndex := scriptEnvIndex b;
     tempResults := tempResults b; lastResultId := lastResultId b;
     tempItems := l; engineCalls := engineCalls b |}.

(** [tempItems.equal_range(this)] *)
Definition equal_range (this : nat) (l : list (nat * option addr))
    : list (option addr) :=
  snd <$> filter (λ e : nat * option addr, e.1 = this) l.

(** The body of the loop of [resetEnv] before the [erase]: the engine calls
    made for one entry.  The call of [g_game.ReleaseItem] is commented out
    in the source, so the test guards nothing. *)
Definition resetEnv_visit (g : Game) (item : option addr) : list EngineCall :=
  match item with
  | Some i =>
    if bool_decide (item_parent <$> itemAt g i = Some (Some virtualCylinder))
    then [] (* // g_game.ReleaseItem(item); *)
    else []
  | None => []
  end.

Definition resetEnv (g : Game) (this : nat) (b : Bridge) : Bridge :=
  {| scriptEnv := alter resetMembers this (scriptEnv b);
     scriptEnvIndex := scriptEnvIndex b;
     tempResults := ∅;
     lastResultId := lastResultId b;
     tempItems := filter (λ e : nat * option addr, e.1 ≠ this) (tempItems b);
     engineCalls :=
       engineCalls b ++
       concat (resetEnv_visit g <$> equal_range this (tempItems b)) |}.

(** [tempItems.emplace(this, item)]: a multimap keeps its entries ordered by
    key, and a new entry goes after the entries of the same key. *)
Fixpoint multimap_emplace (k : nat) (v : option addr)
    (l : list (nat * option addr)) : list (nat * option addr) :=
  match l with
  | [] => [(k, v)]
  | e :: rest =>
    if bool_decide (k < e.1)%nat then (k, v) :: l
    else e :: multimap_emplace k v rest
  end.

Definition addTempItem (this : nat) (item : option addr) (b : Bridge) : Bridge :=
  set_tempItems (multimap_emplace this item (tempItems b)) b.

(** [removeTempItem]: the first entry, of any environment, that holds
    [item]. *)
Fixpoint erase_first (item : option addr) (l : list (nat * option addr))
    : list (nat * option addr) :=
  match l with
  | [] => []
  | e :: rest =>
    if bool_decide (e.2 = item) then rest else e :: erase_first item rest
  end.

Definition removeTempItem (item : option addr) (b : Bridge) : Bridge :=
  set_tempItems (erase_first item (tempItems b)) b.

Definition addResult (res : option N) (b : Bridge) : Z * Bridge :=
  let id := wrap32 (lastResultId b + 1) in
  (id,
   {| scriptEnv := scriptEnv b; scriptEnvIndex := scriptEnvIndex b;
      tempResults := <[id := res]> (tempResults b); lastResultId := id;
      tempItems := tempItems b; engineCalls := engineCalls b |}).

Definition removeResult (id : Z) (b : Bridge) : bool * Bridge :=
  match tempResults b !! id with
  | None => (false, b)
  | Some _ =>
    (true,
     {| scriptEnv := scriptEnv b; scriptEnvIndex := scriptEnvIndex b;
        tempResults := delete id (tempResults b);
        lastResultId := lastResultId b;
        tempItems := tempItems b; engineCalls := engineCalls b |})
  end.

Definition getResultByID (id : Z) (b : Bridge) : option N :=
  match tempResults b !! id with
  | None => None
  | Some res => res
  end.

(** The temp-object entries and the result cache as one environment sees
    them. *)
Definition tempItemsOf (this : nat) (b : Bridge) : list (option addr) :=
  equal_range this (tempItems b).

Definition tempResultsOf (this : nat) (b : Bridge) : gmap Z (option N) :=
  tempResults b.

(** ** A state monad with failure

    [None] stands for what the embedding does not define: a misuse of the
    Lua C API that is undefined behaviour in C, an error raised by Lua, or a
    call into script code the embedding does not cover. *)

Definition M (S A : Type) : Type := S → option (A * S).

#[export] Instance M_ret {S} : MRet (M S) := λ A a s, Some (a, s).
#[export] Instance M_bind {S} : MBind (M S) :=
  λ A B f m s, match m s with Some (a, s') => f a s' | None => None end.

Definition get {S} : M S S := λ s, Some (s, s).
Definition put {S} (s : S) : M S unit := λ _, Some (tt, s).
Definition fail {S A} : M S A := λ _, None.
Definition gets {S A} (f : S → A) : M S A := λ s, Some (f s, s).
Definition modify {S} (f : S → S) : M S unit := λ s, Some (tt, f s).
Definition orFail {S A} (o : option A) : M S A :=
  match o with Some a => mret a | None => fail end.

(** [for (i = 0; i < n; ++i) body] *)
Fixpoint repeatM {S} (n : nat) (body : M S unit) : M S unit :=
  match n with
  | O => mret tt
  | S n' => body;; repeatM n' body
  end.

(** [for (x : l) body(x)] *)
Fixpoint forM {S A} (l : list A) (body : A → M S unit) : M S unit :=
  match l with
  | [] => mret tt
  | x :: rest => body x;; forM rest body
  end.

(** ** The Lua C API on a value stack

    Numbers are integers: the bridge stores identifiers, depths and hashes,
    and the embedding does not follow the rounding of a [lua_Number]. *)

Module Lua.

(** The C functions of luascript.cpp that the embedding can call back;
    any other bound function is known by its name only. *)
Inductive CFunction :=
| luaItemGetUniqueId_f
| luaCreatureGetId_f
| boundFunction (name : string).

Inductive Key := KInt (n : Z) | KStr (s : string).

Inductive Value :=
| Nil
| Boolean (b : bool)
| Number (n : Z)
| String (s : string)
| CFunc (f : CFunction)
| Closure (id : N)
| Table (r : N)
| Userdata (r : N).

#[export] Instance CFunction_eq_dec : EqDecision CFunction.
Proof. solve_decision. Defined.
#[export] Instance Key_eq_dec : EqDecision Key.
Proof. solve_decision. Defined.
#[export] Instance Value_eq_dec : EqDecision Value.
Proof. solve_decision. Defined.

#[export] Instance Key_countable : Countable Key.
Proof.
  refine (inj_countable'
            (λ k, match k with KInt n => inl n | KStr s => inr s end)
            (λ x : Z + string, match x with inl n => KInt n | inr s => KStr s end) _).
  by intros [].
Defined.

(** A table or a userdata.  A userdata made by the bridge holds a shared
    pointer to an engine object. *)
Record Object := {
  fields : gmap Key Value;
  metatable : option N;
  payload : option addr
}.

Record lua_State := {
  stack : list Value;
  heap : gmap N Object;
  nextObject : N;
  globals : gmap string Value;
  registry : gmap Key Value;
  nextRef : Z;
  stringMetatable : option N;
  (* the arguments of the calls of luaL_unref, in order *)
  unrefCalls : list Z
}.

Definition set_stack (s : list Value) (L : lua_State) : lua_State :=
  {| stack := s; heap := heap L; nextObject := nextObject L;
     globals := globals L; registry := registry L; nextRef := nextRef L;
     stringMetatable := stringMetatable L; unrefCalls := unrefCalls L |}.

Definition set_heap (h : gmap N Object) (L : lua_State) : lua_State :=
  {| stack := stack L; heap := h; nextObject := nextObject L;
     globals := globals L; registry := registry L; nextRef := nextRef L;
     stringMetatable := stringMetatable L; unrefCalls := unrefCalls L |}.

Definition set_globals (gl : gmap string Value) (L : lua_State) : lua_State :=
  {| stack := stack L; heap := heap L; nextObject := nextObject L;
     globals := gl; registry := registry L; nextRef := nextRef L;
     stringMetatable := stringMetatable L; unrefCalls := unrefCalls L |}.

Definition set_registry (rg : gmap Key Value) (L : lua_State) : lua_State :=
  {| stack := stack L; heap := heap L; nextObject := nextObject L;
     globals := globals L; registry := rg; nextRef := nextRef L;
     stringMetatable := stringMetatable L; unrefCalls := unrefCalls L |}.

Definition emptyState : lua_State :=
  {| stack := []; heap := ∅; nextObject := 0%N; globals := ∅; registry := ∅;
     nextRef := 1; stringMetatable := None; unrefCalls := [] |}.

(** *** Indices *)

(** The value at an index of a stack.  A positive index above the top
    reads as nil; zero and a negative index below the bottom are not
    defined. *)
Definition indexValue (s : list Value) (idx : Z) : option Value :=
  if bool_decide (0 < idx) then
    Some (default Nil (s !! Z.to_nat (idx - 1)))
  else if bool_decide (idx < 0) then
    let n := Z.of_nat (length s) + idx in
    if bool_decide (0 ≤ n) then s !! Z.to_nat n else None
  else None.

Definition index2adr (L : lua_State) (idx : Z) : option Value :=
  indexValue (stack L) idx.

(** The position in the stack an index names, for a write. *)
Definition indexSlot (s : list Value) (idx : Z) : option nat :=
  let n := if bool_decide (0 < idx) then idx - 1
           else Z.of_nat (length s) + idx in
  if bool_decide (idx ≠ 0 ∧ 0 ≤ n < Z.of_nat (length s))
  then Some (Z.to_nat n) else None.

Definition slot (L : lua_State) (idx : Z) : option nat :=
  indexSlot (stack L) idx.

Definition valueAt (idx : Z) : M lua_State Value :=
  L ← get; orFail (index2adr L idx).

Definition push (v : Value) : M lua_State unit :=
  modify (λ L, set_stack (stack L ++ [v]) L).

Definition lua_gettop : M lua_State Z :=
  gets (λ L, Z.of_nat (length (stack L))).

Definition lua_pop (n : Z) : M lua_State unit :=
  L ← get;
  if bool_decide (0 ≤ n ≤ Z.of_nat (length (stack L))) then
    put (set_stack (take (length (stack L) - Z.to_nat n) (stack L)) L)
  else fail.

(** The top value, removed from the stack. *)
Definition pop1 : M lua_State Value :=
  v ← valueAt (-1); lua_pop 1;; mret v.

Definition lua_pushvalue (idx : Z) : M lua_State unit :=
  v ← valueAt idx; push v.

Definition lua_pushnil : M lua_State unit := push Nil.
Definition lua_pushboolean (b : bool) : M lua_State unit := push (Boolean b).
Definition lua_pushinteger (n : Z) : M lua_State unit := push (Number n).
Definition lua_pushcfunction (f : CFunction) : M lua_State unit := push (CFunc f).

Definition lua_replace (idx : Z) : M lua_State unit :=
  L ← get;
  p ← orFail (slot L idx);
  v ← valueAt (-1);
  put (set_stack (take (length (stack L) - 1) (<[p := v]> (stack L))) L).

(** *** Objects *)

Definition alloc (o : Object) : M lua_State N :=
  L ← get;
  let r := nextObject L in
  put {| stack := stack L; heap := <[r := o]> (heap L);
         nextObject := N.succ r; globals := globals L;
         registry := registry L; nextRef := nextRef L;
         stringMetatable := stringMetatable L;
         unrefCalls := unrefCalls L |};;
  mret r.

Definition lua_newtable : M lua_State unit :=
  r ← alloc {| fields := ∅; metatable := None; payload := None |};
  push (Table r).

(** [lua_newuserdata] followed by the construction of the shared pointer in
    it. *)
Definition newUserdata (p : option addr) : M lua_State unit :=
  r ← alloc {| fields := ∅; metatable := None; payload := p |};
  push (Userdata r).

Definition tableAt (idx : Z) : M lua_State N :=
  v ← valueAt idx;
  match v with Table r => mret r | _ => fail end.

Definition rawget (L : lua_State) (r : N) (k : Key) : option Value :=
  o ← heap L !! r; Some (default Nil (fields o !! k)).

Definition rawset (r : N) (k : Key) (v : Value) : M lua_State unit :=
  L ← get;
  o ← orFail (heap L !! r);
  let fs := if bool_decide (v = Nil) then delete k (fields o)
            else <[k := v]> (fields o) in
  put (set_heap (<[r := {| fields := fs; metatable := metatable o;
                           payload := payload o |}]> (heap L)) L).

Definition metatableOf (L : lua_State) (v : Value) : option N :=
  match v with
  | Table r | Userdata r => o ← heap L !! r; metatable o
  | String _ => stringMetatable L
  | _ => None
  end.

(** The metamethod [event] of a metatable, when it is set. *)
Definition metamethod (L : lua_State) (mt : option N) (event : string)
    : option Value :=
  m ← mt;
  v ← rawget L m (KStr event);
  if bool_decide (v = Nil) then None else Some v.

Definition isfunction (v : Value) : bool :=
  match v with CFunc _ | Closure _ => true | _ => false end.

Definition MAXTAGLOOP : nat := 100.

(** [luaV_gettable]: an indexing that follows [__index] through at most
    [MAXTAGLOOP] tables.  An [__index] that is a function is a call the
    embedding does not follow. *)
Fixpoint gettable (fuel : nat) (L : lua_State) (t : Value) (k : Key)
    : option Value :=
  match fuel with
  | O => None
  | S fuel' =>
    match t with
    | Table r =>
      v ← rawget L r k;
      if bool_decide (v ≠ Nil) then Some v
      else match metamethod L (metatableOf L t) "__index" with
           | None => Some Nil
           | Some tm => if isfunction tm then None else gettable fuel' L tm k
           end
    | _ =>
      match metamethod L (metatableOf L t) "__index" with
      | None => None
      | Some tm => if isfunction tm then None else gettable fuel' L tm k
      end
    end
  end.

(** [luaV_settable] for a table without [__newindex]; with it, and on a
    value that is not a table, the assignment is a call the embedding does
    not follow. *)
Definition settable (t : Value) (k : Key) (v : Value) : M lua_State unit :=
  L ← get;
  match t with
  | Table r =>
    old ← orFail (rawget L r k);
    if bool_decide (old ≠ Nil) then rawset r k v
    else match metamethod L (metatableOf L t) "__newindex" with
         | None => rawset r k v
         | Some _ => fail
         end
  | _ => fail
  end.

Definition lua_rawgeti (idx : Z) (n : Z) : M lua_State unit :=
  r ← tableAt idx;
  L ← get;
  v ← orFail (rawget L r (KInt n));
  push v.

Definition lua_rawseti (idx : Z) (n : Z) : M lua_State unit :=
  r ← tableAt idx;
  v ← pop1;
  rawset r (KInt n) v.

Definition lua_getfield (idx : Z) (k : string) : M lua_State unit :=
  t ← valueAt idx;
  L ← get;
  v ← orFail (gettable MAXTAGLOOP L t (KStr k));
  push v.

Definition lua_setfield (idx : Z) (k : string) : M lua_State unit :=
  t ← valueAt idx;
  v ← pop1;
  settable t (KStr k) v.

Definition lua_getglobal (name : string) : M lua_State unit :=
  L ← get; push (default Nil (globals L !! name)).

Definition lua_setglobal (name : string) : M lua_State unit :=
  v ← pop1;
  modify (λ L, set_globals (if bool_decide (v = Nil) then delete name (globals L)
                            else <[name := v]> (globals L)) L).

(** [lua_getmetatable]: pushes the metatable and returns 1, or pushes
    nothing and returns 0. *)
Definition lua_getmetatable (idx : Z) : M lua_State Z :=
  v ← valueAt idx;
  L ← get;
  match metatableOf L v with
  | Some m => push (Table m);; mret 1
  | None => mret 0
  end.

(** [lua_setmetatable], for a table or a userdata. *)
Definition lua_setmetatable (idx : Z) : M lua_State unit :=
  t ← valueAt idx;
  m ← pop1;
  mt ← match m with
       | Nil => mret None
       | Table r => mret (Some r)
       | _ => fail
       end;
  match t with
  | Table r | Userdata r =>
    L ← get;
    o ← orFail (heap L !! r);
    put (set_heap (<[r := {| fields := fields o; metatable := mt;
                             payload := payload o |}]> (heap L)) L)
  | _ => fail
  end.

Definition luaL_getmetatable (name : string) : M lua_State unit :=
  L ← get; push (default Nil (registry L !! KStr name)).

Definition luaL_newmetatable (name : string) : M lua_State Z :=
  L ← get;
  match registry L !! KStr name with
  | Some v => push v;; mret 0
  | None =>
    lua_newtable;;
    v ← valueAt (-1);
    modify (λ L, set_registry (<[KStr name := v]> (registry L)) L);;
    mret 1
  end.

(** *** Conversions and tests *)

Section Conversions.

(** [luaO_str2d]: the number a string spells, if it spells one. *)
Variable str2d : string → option Z.

Definition tonumber (v : Value) : Z :=
  match v with
  | Number n => n
  | String s => default 0 (str2d s)
  | _ => 0
  end.

Definition lua_tonumber (idx : Z) : M lua_State Z :=
  L ← get; mret (tonumber (default Nil (index2adr L idx))).

End Conversions.

(** [isFunction] and [isNumber] of luascript.h are the tests of the type
    of the value, [lua_isfunction] and [lua_type(L, arg) == LUA_TNUMBER]. *)
Definition lua_isfunction (idx : Z) : M lua_State bool :=
  L ← get; mret (isfunction (default Nil (index2adr L idx))).

Definition lua_isnumber_type (idx : Z) : M lua_State bool :=
  L ← get;
  mret (match default Nil (index2adr L idx) with Number _ => true | _ => false end).

Definition lua_toboolean (idx : Z) : M lua_State bool :=
  L ← get;
  mret (match default Nil (index2adr L idx) with
        | Nil | Boolean false => false
        | _ => true
        end).

(** *** References in the registry

    [luaL_ref] hands out a key that is not in use; the reuse of released
    keys through the free list is not followed. *)

Definition LUA_REFNIL : Z := -1.

Definition luaL_ref : M lua_State Z :=
  v ← pop1;
  if bool_decide (v = Nil) then mret LUA_REFNIL
  else
    L ← get;
    let ref := nextRef L in
    put {| stack := stack L; heap := heap L; nextObject := nextObject L;
           globals := globals L;
           registry := <[KInt ref := v]> (registry L);
           nextRef := ref + 1;
           stringMetatable := stringMetatable L;
           unrefCalls := unrefCalls L |};;
    mret ref.

Definition luaL_unref (ref : Z) : M lua_State unit :=
  modify (λ L,
    {| stack := stack L; heap := heap L; nextObject := nextObject L;
       globals := globals L;
       registry := if bool_decide (0 ≤ ref) then delete (KInt ref) (registry L)
                   else registry L;
       nextRef := nextRef L;
       stringMetatable := stringMetatable L;
       unrefCalls := unrefCalls L ++ [ref] |}).

(** [lua_rawgeti(L, LUA_REGISTRYINDEX, ref)] *)
Definition lua_rawgeti_registry (ref : Z) : M lua_State unit :=
  L ← get; push (default Nil (registry L !! KInt ref)).

(** [lua_insert] and [lua_remove] *)
Definition lua_insert (idx : Z) : M lua_State unit :=
  L ← get;
  p ← orFail (slot L idx);
  v ← valueAt (-1);
  let below := take (length (stack L) - 1) (stack L) in
  put (set_stack (take p below ++ v :: drop p below) L).

Definition lua_remove (idx : Z) : M lua_State unit :=
  L ← get;
  p ← orFail (slot L idx);
  put (set_stack (delete p (stack L)) L).

End Lua.
Export Lua.

(** ** LuaScriptInterface: classes and the type test *)

(** Modelled from the spec: the enumeration [LuaDataType] is declared in
    luascript.h, which is not under src/; its members are numbered in the
    order luascript.cpp names them, [LuaData_Unknown] first, so that a
    metatable without the field ['t'] reads as unknown. *)
Definition LuaData_Unknown : Z := 0.
Definition LuaData_Item : Z := 1.
Definition LuaData_Container : Z := 2.
Definition LuaData_Teleport : Z := 3.
Definition LuaData_Player : Z := 4.
Definition LuaData_Monster : Z := 5.
Definition LuaData_Npc : Z := 6.
Definition LuaData_Tile : Z := 7.

(** The integer keys ['h'], ['p'] and ['t'] of a metatable. *)
Definition key_h : Z := 104.
Definition key_p : Z := 112.
Definition key_t : Z := 116.

Section Interface.

(** [std::hash<std::string>] and [luaO_str2d] *)
Variable hash : string → Z.
Variable str2d : string → option Z.

(** Modelled from the spec: the template [getNumber<T>(L, arg)] is defined
    in luascript.h, which is not under src/.  Every call in luascript.cpp
    passes a stack index as [arg] (the delay of [addEvent] is read with
    [getNumber<uint32_t>(L, 2)]) and pops the value itself afterwards: it is
    [lua_tonumber(L, arg)] converted to [T], here to an unsigned type of
    [bits] bits. *)
Definition getNumber (bits : Z) (arg : Z) : M lua_State Z :=
  n ← lua_tonumber str2d arg; mret (wrap bits n).

(** [getNumber<LuaDataType>] *)
Definition getNumber_enum (arg : Z) : M lua_State Z := lua_tonumber str2d arg.

Definition pushBoolean (value : bool) : M lua_State unit :=
  lua_pushboolean value.

Definition typeTagOf (className : string) : Z :=
  if bool_decide (className = "Item") then LuaData_Item
  else if bool_decide (className = "Container") then LuaData_Container
  else if bool_decide (className = "Teleport") then LuaData_Teleport
  else if bool_decide (className = "Player") then LuaData_Player
  else if bool_decide (className = "Monster") then LuaData_Monster
  else if bool_decide (className = "Npc") then LuaData_Npc
  else if bool_decide (className = "Tile") then LuaData_Tile
  else LuaData_Unknown.

Definition registerClass (className baseClass : string)
    (newFunction : option CFunction) : M lua_State unit :=
  (* className = {} *)
  lua_newtable;;
  lua_pushvalue (-1);;
  lua_setglobal className;;
  methods ← lua_gettop;
  (* methodsTable = {} *)
  lua_newtable;;
  methodsTable ← lua_gettop;
  match newFunction with
  | Some f =>
    (* className.__call = newFunction *)
    lua_pushcfunction f;;
    lua_setfield methodsTable "__call"
  | None => mret tt
  end;;
  parents ←
    (if bool_decide (baseClass ≠ "") then
       lua_getglobal baseClass;;
       lua_rawgeti (-1) key_p;;
       p ← getNumber 32 (-1);
       lua_pop 1;;
       lua_setfield methodsTable "__index";;
       mret (wrap32 (p + 1))
     else mret 0);
  (* setmetatable(className, methodsTable) *)
  lua_setmetatable methods;;
  (* className.metatable = {} *)
  luaL_newmetatable className;;
  metatable ← lua_gettop;
  (* className.metatable.__metatable = className *)
  lua_pushvalue methods;;
  lua_setfield metatable "__metatable";;
  (* className.metatable.__index = className *)
  lua_pushvalue methods;;
  lua_setfield metatable "__index";;
  (* className.metatable['h'] = hash *)
  lua_pushinteger (hash className);;
  lua_rawseti metatable key_h;;
  (* className.metatable['p'] = parents *)
  lua_pushinteger parents;;
  lua_rawseti metatable key_p;;
  (* className.metatable['t'] = type *)
  lua_pushinteger (typeTagOf className);;
  lua_rawseti metatable key_t;;
  (* pop className, className.metatable *)
  lua_pop 2.

Definition registerMethod (globalName methodName : string) (func : CFunction)
    : M lua_State unit :=
  (* globalName.methodName = func *)
  lua_getglobal globalName;;
  lua_pushcfunction func;;
  lua_setfield (-2) methodName;;
  (* pop globalName *)
  lua_pop 1.

Definition setMetatable (index : Z) (name : string) : M lua_State unit :=
  luaL_getmetatable name;;
  lua_setmetatable (index - 1).

Definition setItemMetatable (index : Z) (item : Item) : M lua_State unit :=
  match item_kind item with
  | ContainerItem => luaL_getmetatable "Container"
  | TeleportItem => luaL_getmetatable "Teleport"
  | PlainItem => luaL_getmetatable "Item"
  end;;
  lua_setmetatable (index - 1).

Definition setCreatureMetatable (index : Z) (creature : Creature)
    : M lua_State unit :=
  match creature_kind creature with
  | PlayerKind => luaL_getmetatable "Player"
  | MonsterKind => luaL_getmetatable "Monster"
  | NpcKind => luaL_getmetatable "Npc"
  end;;
  lua_setmetatable (index - 1).

(** Modelled from the spec: the template [pushSharedPtr] is defined in
    luascript.h, which is not under src/; it makes the userdata that holds
    the pointer, which the caller then tags with the metatable of the
    class. *)
Definition pushSharedPtr (p : addr) : M lua_State unit :=
  newUserdata (Some p).

(** An instance of a registered class on top of the stack. *)
Definition pushInstance (p : addr) (className : string) : M lua_State unit :=
  pushSharedPtr p;;
  setMetatable (-1) className.

Definition luaIsType : M lua_State Z :=
  (* isType(derived, base) *)
  lua_getmetatable (-2);;
  lua_getmetatable (-2);;
  lua_rawgeti (-2) key_p;;
  parentsB ← getNumber 8 1;
  lua_rawgeti (-3) key_h;;
  hashB ← getNumber 64 1;
  lua_rawgeti (-3) key_p;;
  parentsA ← getNumber 8 1;
  repeatM (Z.to_nat (parentsB - parentsA))
    (lua_getfield (-3) "__index";;
     lua_replace (-4));;
  lua_rawgeti (-4) key_h;;
  hashA ← getNumber 64 1;
  pushBoolean (bool_decide (hashA = hashB));;
  mret 1.

End Interface.

(** ** LuaEnvironment: the timer events *)

Record LuaTimerEventDesc := {
  desc_scriptId : Z;
  desc_function : Z;
  desc_parameters : list Z;
  desc_eventId : Z
}.

(** Modelled from the spec: the tick scheduler (scheduler.cpp, not under
    src/) is an opaque service that runs a task after a delay and hands out
    a token per task, by which the task can be stopped.  A task of the
    bridge is the delay with the timer event it will execute. *)
Record SchedulerTask := {
  task_delay : Z;
  task_timerEvent : Z
}.

Record Scheduler := {
  pending : gmap Z SchedulerTask;
  lastEventId : Z
}.

Definition Scheduler_addEvent (task : SchedulerTask) (s : Scheduler)
    : Z * Scheduler :=
  let id := wrap32 (lastEventId s + 1) in
  (id, {| pending := <[id := task]> (pending s); lastEventId := id |}).

Definition Scheduler_stopEvent (eventId : Z) (s : Scheduler) : Scheduler :=
  {| pending := delete eventId (pending s); lastEventId := lastEventId s |}.

(** The two switches of [g_config] that [addEvent] reads. *)
Record Config := {
  WARN_UNSAFE_SCRIPTS : bool;
  CONVERT_UNSAFE_SCRIPTS : bool
}.

(** Everything the script-facing functions read and write. *)
Record World := {
  L : lua_State;
  bridge : Bridge;
  timerEvents : gmap Z LuaTimerEventDesc;
  lastEventTimerId : Z;
  scheduler : Scheduler;
  (* what reportError and std::cout were given, in order *)
  output : list string
}.

Definition set_L (l : lua_State) (w : World) : World :=
  {| L := l; bridge := bridge w; timerEvents := timerEvents w;
     lastEventTimerId := lastEventTimerId w; scheduler := scheduler w;
     output := output w |}.

Definition set_bridge (b : Bridge) (w : World) : World :=
  {| L := L w; bridge := b; timerEvents := timerEvents w;
     lastEventTimerId := lastEventTimerId w; scheduler := scheduler w;
     output := output w |}.

Definition set_timerEvents (t : gmap Z LuaTimerEventDesc) (w : World) : World :=
  {| L := L w; bridge := bridge w; timerEvents := t;
     lastEventTimerId := lastEventTimerId w; scheduler := scheduler w;
     output := output w |}.

Definition set_lastEventTimerId (i : Z) (w : World) : World :=
  {| L := L w; bridge := bridge w; timerEvents := timerEvents w;
     lastEventTimerId := i; scheduler := scheduler w;
     output := output w |}.

Definition set_scheduler (s : Scheduler) (w : World) : World :=
  {| L := L w; bridge := bridge w; timerEvents := timerEvents w;
     lastEventTimerId := lastEventTimerId w; scheduler := s;
     output := output w |}.

Definition set_output (o : list string) (w : World) : World :=
  {| L := L w; bridge := bridge w; timerEvents := timerEvents w;
     lastEventTimerId := lastEventTimerId w; scheduler := scheduler w;
     output := o |}.

(** A function of the C API run on the Lua state of the world. *)
Definition liftL {A} (m : M lua_State A) : M World A :=
  λ w, match m (L w) with
       | Some (a, l) => Some (a, set_L l w)
       | None => None
       end.

Definition reportError (message : string) : M World unit :=
  modify (λ w, set_output (output w ++ [message]) w).

(** Modelled from the spec: [getScriptEnv], [reserveScriptEnv] and
    [resetScriptEnv] are defined in luascript.h, which is not under src/.
    The pool has the fixed capacity of the array [scriptEnv]; a reservation
    beyond it fails; the environment in use is the one at
    [scriptEnvIndex], and it is reset when it is given back. *)
Definition getScriptEnv : M World nat :=
  w ← get;
  let i := scriptEnvIndex (bridge w) in
  if bool_decide (0 ≤ i < Z.of_nat (length (scriptEnv (bridge w))))
  then mret (Z.to_nat i) else fail.

Definition reserveScriptEnv : M World bool :=
  w ← get;
  let i := scriptEnvIndex (bridge w) + 1 in
  put (set_bridge (set_scriptEnvIndex i (bridge w)) w);;
  mret (bool_decide (i < Z.of_nat (length (scriptEnv (bridge w))))).

(** A member function of the environment in use. *)
Definition onScriptEnv {A} (f : ScriptEnvironment → A * ScriptEnvironment)
    : M World A :=
  this ← getScriptEnv;
  w ← get;
  env ← orFail (scriptEnv (bridge w) !! this);
  let '(a, env') := f env in
  put (set_bridge (set_scriptEnv (<[this := env']> (scriptEnv (bridge w)))
                     (bridge w)) w);;
  mret a.

(** Modelled from the spec: the setters [setScriptId] and [setTimerEvent]
    and the getter [getScriptId] of an environment are defined in
    luascript.h, which is not under src/; each assigns or reads the member
    it names, [setScriptId] with the owning interface. *)
Definition setScriptId (newScriptId : Z) (scriptInterface : option nat)
    (env : ScriptEnvironment) : unit * ScriptEnvironment :=
  (tt, {| scriptId := newScriptId; callbackId := callbackId env;
          timerEvent := timerEvent env; interface := scriptInterface;
          localMap := localMap env; lastUID := lastUID env |}).

Definition setTimerEvent (env : ScriptEnvironment) : unit * ScriptEnvironment :=
  (tt, {| scriptId := scriptId env; callbackId := callbackId env;
          timerEvent := true; interface := interface env;
          localMap := localMap env; lastUID := lastUID env |}).

Definition getScriptId (env : ScriptEnvironment) : Z * ScriptEnvironment :=
  (scriptId env, env).

Section Runtime.

Variable g : Game.
Variable config : Config.
Variable str2d : string → option Z.

(** The virtual machine: a function value run on its arguments gives a
    status (0 when no error was raised), the results or the error message,
    and the world afterwards, in which the script may have called any
    function of the bridge.  The stack of the caller is not the callee's to
    change. *)
Variable vm : Value → list Value → World → Z * list Value * World.

Definition resetScriptEnv : M World unit :=
  this ← getScriptEnv;
  modify (λ w, set_bridge
                 (set_scriptEnvIndex (scriptEnvIndex (bridge w) - 1)
                    (resetEnv g this (bridge w))) w).

(** Modelled from the spec: the template [getSharedPtr<T>(L, arg)] is
    defined in luascript.h, which is not under src/; it gives the pointer
    held by the userdata at [arg], and a null pointer for a value that is
    not a userdata. *)
Definition getSharedPtr (arg : Z) : M lua_State (option addr) :=
  l ← get;
  match default Nil (index2adr l arg) with
  | Userdata r => o ← orFail (heap l !! r); mret (payload o)
  | _ => mret None
  end.

Definition luaItemGetUniqueId : M World Z :=
  (* item:getUniqueId() *)
  item ← liftL (getSharedPtr 1);
  match item with
  | Some p =>
    i ← orFail (itemAt g p);
    let uniqueId := getUniqueId i in
    uniqueId ← (if bool_decide (uniqueId = 0)
                then onScriptEnv (addThing g (Some p))
                else mret uniqueId);
    liftL (lua_pushinteger uniqueId)
  | None => liftL lua_pushnil
  end;;
  mret 1.

Definition luaCreatureGetId : M World Z :=
  (* creature:getId() *)
  creature ← liftL (getSharedPtr 1);
  match creature with
  | Some p =>
    c ← orFail (creatureAt g p);
    liftL (lua_pushinteger (creature_id c))
  | None => liftL lua_pushnil
  end;;
  mret 1.

Definition runCFunction (f : CFunction) : M World Z :=
  match f with
  | luaItemGetUniqueId_f => luaItemGetUniqueId
  | luaCreatureGetId_f => luaCreatureGetId
  | boundFunction _ => fail
  end.

(** The results of a call adjusted to the number the caller asked for. *)
Definition adjustResults (nresults : Z) (results : list Value) : list Value :=
  take (Z.to_nat nresults) (results ++ replicate (Z.to_nat nresults) Nil).

(** [lua_call] of one of the C functions above: the function runs on a
    stack of its own that holds the arguments, and its last values are the
    results. *)
Definition lua_call (nargs nresults : Z) : M World unit :=
  w ← get;
  let st := stack (L w) in
  if bool_decide (0 ≤ nargs ∧ nargs + 1 ≤ Z.of_nat (length st)) then
    let below := take (length st - Z.to_nat nargs - 1) st in
    f ← orFail (st !! (length st - Z.to_nat nargs - 1)%nat);
    match f with
    | CFunc cf =>
      liftL (modify (set_stack (drop (length st - Z.to_nat nargs) st)));;
      nret ← runCFunction cf;
      w' ← get;
      let st' := stack (L w') in
      liftL (modify (set_stack
        (below ++ adjustResults nresults
                    (drop (length st' - Z.to_nat nret) st'))))
    | _ => fail
    end
  else fail.

(** [lua_pcall]: the function and its arguments are replaced by the results
    or by the error message. *)
Definition lua_pcall (nargs nresults : Z) : M World Z :=
  w ← get;
  let st := stack (L w) in
  if bool_decide (0 ≤ nargs ∧ nargs + 1 ≤ Z.of_nat (length st)) then
    let below := take (length st - Z.to_nat nargs - 1) st in
    f ← orFail (st !! (length st - Z.to_nat nargs - 1)%nat);
    let '(status, results, w') :=
      vm f (drop (length st - Z.to_nat nargs) st) w in
    put (set_L (set_stack
                  (below ++ (if bool_decide (status = 0)
                             then adjustResults nresults results
                             else adjustResults 1 results))
                  (L w')) w');;
    mret status
  else fail.

(** Same as lua_pcall, but adds stack trace to error strings in called
    function. *)
Definition protectedCall (nargs nresults : Z) : M World Z :=
  top ← liftL lua_gettop;
  let error_index := top - nargs in
  liftL (lua_pushcfunction (boundFunction "luaErrorHandler"));;
  liftL (lua_insert error_index);;
  ret ← lua_pcall nargs nresults;
  liftL (lua_remove error_index);;
  mret ret.

Definition getString (arg : Z) : M lua_State string :=
  l ← get;
  mret (match default Nil (index2adr l arg) with
        | String s => s
        | Number n => pretty n
        | _ => ""
        end).

Definition callFunction (params : Z) : M World bool :=
  size ← liftL lua_gettop;
  ret ← protectedCall params 1;
  result ←
    (if bool_decide (ret ≠ 0) then
       message ← liftL (getString (-1));
       reportError message;;
       mret false
     else liftL (lua_toboolean (-1)));
  liftL (lua_pop 1);;
  top ← liftL lua_gettop;
  (if bool_decide (top + params + 1 ≠ size)
   then reportError "Stack size changed!" else mret tt);;
  resetScriptEnv;;
  mret result.

(** *** addEvent, stopEvent and the execution of a timer event *)

Definition isUnsafeType (type : Z) : bool :=
  bool_decide (type ≠ LuaData_Unknown ∧ type ≠ LuaData_Tile).

(** The first loop of [luaAddEvent], over the indices of the arguments:
    the arguments whose metatable carries a type other than unknown and
    tile, each with its type. *)
Fixpoint scanParameters (indices : list Z) : M lua_State (list (Z * Z)) :=
  match indices with
  | [] => mret []
  | i :: rest =>
    has ← lua_getmetatable i;
    if bool_decide (has = 0) then scanParameters rest
    else
      lua_rawgeti (-1) key_t;;
      type ← getNumber_enum str2d (-1);
      lua_pop 2;;
      indexes ← scanParameters rest;
      mret (if isUnsafeType type then (i, type) :: indexes else indexes)
  end.

Definition warningString (indexes : list (Z * Z)) : string :=
  let plural := bool_decide (1 < length indexes)%nat in
  let start := String.append "Argument" (if plural then "s" else "") in
  let listed :=
    foldl (λ (acc : string) (entry : Z * Z),
             String.append
               (String.append
                  (String.append acc
                     (if bool_decide (Some entry = head indexes) then " "
                      else if bool_decide (Some entry = last indexes)
                           then " and " else ", "))
                  "#")
               (pretty entry.1))
          start indexes in
  String.append listed (if plural then " are unsafe" else " is unsafe").

(** The body of the second loop: the argument at [entry.1] is replaced by
    the result of the getter for its type. *)
Definition convertEntry (entry : Z * Z) : M World unit :=
  (if bool_decide (entry.2 = LuaData_Item ∨ entry.2 = LuaData_Container
                   ∨ entry.2 = LuaData_Teleport) then
     liftL (lua_getglobal "Item");;
     liftL (lua_getfield (-1) "getUniqueId")
   else if bool_decide (entry.2 = LuaData_Player ∨ entry.2 = LuaData_Monster
                        ∨ entry.2 = LuaData_Npc) then
     liftL (lua_getglobal "Creature");;
     liftL (lua_getfield (-1) "getId")
   else mret tt);;
  liftL (lua_replace (-2));;
  liftL (lua_pushvalue entry.1);;
  lua_call 1 1;;
  liftL (lua_replace entry.1).

(** The loop that captures the arguments, last argument first. *)
Fixpoint refParameters (n : nat) : M lua_State (list Z) :=
  match n with
  | O => mret []
  | S n' =>
    ref ← luaL_ref;
    rest ← refParameters n';
    mret (ref :: rest)
  end.

Definition luaAddEvent : M World Z :=
  (* addEvent(callback, delay, ...) *)
  parameters ← liftL lua_gettop;
  if bool_decide (parameters < 2) then
    reportError (String.append "Not enough parameters: "
                   (String.append (pretty parameters) "."));;
    liftL (pushBoolean false);;
    mret 1
  else
  isFunction ← liftL (lua_isfunction 1);
  if negb isFunction then
    reportError "callback parameter should be a function.";;
    liftL (pushBoolean false);;
    mret 1
  else
  isNumber ← liftL (lua_isnumber_type 2);
  if negb isNumber then
    reportError "delay parameter should be a number.";;
    liftL (pushBoolean false);;
    mret 1
  else
  (if WARN_UNSAFE_SCRIPTS config || CONVERT_UNSAFE_SCRIPTS config then
     indexes ← liftL (scanParameters (seqZ 3 (parameters - 2)));
     if bool_decide (indexes ≠ []) then
       (if WARN_UNSAFE_SCRIPTS config
        then reportError (warningString indexes) else mret tt);;
       (if CONVERT_UNSAFE_SCRIPTS config
        then forM indexes convertEntry else mret tt)
     else mret tt
   else mret tt);;
  refs ← liftL (refParameters (Z.to_nat (parameters - 2)));
  number ← liftL (getNumber str2d 32 2);
  let delay := Z.max 100 number in
  liftL (lua_pop 1);;
  function ← liftL luaL_ref;
  scriptId ← onScriptEnv getScriptId;
  w ← get;
  let lastTimerEventId := lastEventTimerId w in
  let '(eventId, sched) :=
    Scheduler_addEvent {| task_delay := delay;
                          task_timerEvent := lastTimerEventId |}
                       (scheduler w) in
  let eventDesc := {| desc_scriptId := scriptId; desc_function := function;
                      desc_parameters := refs; desc_eventId := eventId |} in
  put (set_scheduler sched
         (set_timerEvents
            (match timerEvents w !! lastTimerEventId with
             | Some _ => timerEvents w
             | None => <[lastTimerEventId := eventDesc]> (timerEvents w)
             end) w));;
  liftL (lua_pushinteger lastTimerEventId);;
  modify (λ w, set_lastEventTimerId (wrap32 (lastEventTimerId w + 1)) w);;
  mret 1.

Definition luaStopEvent : M World Z :=
  (* stopEvent(eventid) *)
  eventId ← liftL (getNumber str2d 32 1);
  w ← get;
  match timerEvents w !! eventId with
  | None =>
    liftL (pushBoolean false);;
    mret 1
  | Some timerEventDesc =>
    put (set_timerEvents (delete eventId (timerEvents w)) w);;
    modify (λ w, set_scheduler
                   (Scheduler_stopEvent (desc_eventId timerEventDesc)
                      (scheduler w)) w);;
    liftL (luaL_unref (desc_function timerEventDesc));;
    forM (desc_parameters timerEventDesc) (λ parameter,
      liftL (luaL_unref parameter));;
    liftL (pushBoolean true);;
    mret 1
  end.

(** [LuaEnvironment::executeTimerEvent], the function a timer runs; [this]
    is the interface of the environment. *)
Definition executeTimerEvent (this : nat) (eventIndex : Z) : M World unit :=
  w ← get;
  match timerEvents w !! eventIndex with
  | None => mret tt
  | Some timerEventDesc =>
    put (set_timerEvents (delete eventIndex (timerEvents w)) w);;
    (* push function *)
    liftL (lua_rawgeti_registry (desc_function timerEventDesc));;
    (* push parameters *)
    forM (reverse (desc_parameters timerEventDesc)) (λ parameter,
      liftL (lua_rawgeti_registry parameter));;
    (* call the function *)
    reserved ← reserveScriptEnv;
    (if reserved : bool then
       onScriptEnv setTimerEvent;;
       onScriptEnv (setScriptId (desc_scriptId timerEventDesc) (Some this));;
       callFunction (Z.of_nat (length (desc_parameters timerEventDesc)));;
       mret tt
     else
       reportError
         "[Error - LuaScriptInterface::executeTimerEvent] Call stack overflow");;
    (* free resources *)
    liftL (luaL_unref (desc_function timerEventDesc));;
    forM (desc_parameters timerEventDesc) (λ parameter,
      liftL (luaL_unref parameter))
  end.

End Runtime.

(** ** Definitions used to state the properties *)

(** The Lua state after the references [refs] were given to [luaL_unref],
    in that order. *)
Definition released (refs : list Z) (l : lua_State) : lua_State :=
  {| stack := stack l; heap := heap l; nextObject := nextObject l;
     globals := globals l;
     registry := foldl (λ rg ref, if bool_decide (0 ≤ ref)
                                  then delete (KInt ref) rg else rg)
                       (registry l) refs;
     nextRef := nextRef l;
     stringMetatable := stringMetatable l;
     unrefCalls := unrefCalls l ++ refs |}.

(** The token [stopEvent] reads from its first argument. *)
Definition tokenOf (str2d : string → option Z) (w : World) : Z :=
  wrap 32 (tonumber str2d (default Nil (indexValue (stack (L w)) 1))).

(** What is assumed of the script a timer runs: it gives back the pool of
    environments as it found it (each reservation it made was released). *)
Definition keepsPool (vm : Value → list Value → World → Z * list Value * World)
    : Prop :=
  ∀ f args w,
    scriptEnvIndex (bridge (vm f args w).2) = scriptEnvIndex (bridge w)
    ∧ length (scriptEnv (bridge (vm f args w).2))
      = length (scriptEnv (bridge w)).

(** The script does not schedule under the token [eventIndex] again. *)
Definition keepsFree (vm : Value → list Value → World → Z * list Value * World)
    (eventIndex : Z) : Prop :=
  ∀ f args w,
    timerEvents w !! eventIndex = None →
    timerEvents (vm f args w).2 !! eventIndex = None.

(** The type [luaAddEvent] reads for an argument: the field ['t'] of its
    metatable, and unknown for a value without metatable. *)
Definition dataTypeOf (str2d : string → option Z) (l : lua_State) (v : Value)
    : Z :=
  match metatableOf l v with
  | Some m =>
    match heap l !! m with
    | Some o => tonumber str2d (default Nil (fields o !! KInt key_t))
    | None => LuaData_Unknown
    end
  | None => LuaData_Unknown
  end.

(** The arguments [luaAddEvent] finds unsafe, with their types, when the
    first of [args] is at index [i]. *)
Fixpoint scanFrom (str2d : string → option Z) (l : lua_State) (i : Z)
    (args : list Value) : list (Z * Z) :=
  match args with
  | [] => []
  | a :: rest =>
    if isUnsafeType (dataTypeOf str2d l a)
    then (i, dataTypeOf str2d l a) :: scanFrom str2d l (i + 1) rest
    else scanFrom str2d l (i + 1) rest
  end.

(** The specification's reduction of an object to its stable id: an item
    becomes its uid (its unique id, or the uid [addThing] gives it in the
    environment in use), a creature becomes its id; a value that holds no
    object becomes nil. *)
Definition itemUid (g : Game) (l : lua_State) (v : Value)
    (env : ScriptEnvironment) : option (Value * ScriptEnvironment) :=
  match v with
  | Userdata r =>
    o ← heap l !! r;
    match payload o with
    | Some p =>
      i ← itemAt g p;
      if bool_decide (getUniqueId i = 0)
      then Some (Number (addThing g (Some p) env).1, (addThing g (Some p) env).2)
      else Some (Number (getUniqueId i), env)
    | None => Some (Nil, env)
    end
  | _ => Some (Nil, env)
  end.

Definition creatureId (g : Game) (l : lua_State) (v : Value)
    (env : ScriptEnvironment) : option (Value * ScriptEnvironment) :=
  match v with
  | Userdata r =>
    o ← heap l !! r;
    match payload o with
    | Some p => c ← creatureAt g p; Some (Number (creature_id c), env)
    | None => Some (Nil, env)
    end
  | _ => Some (Nil, env)
  end.

Definition isItemType (type : Z) : bool :=
  bool_decide (type = LuaData_Item ∨ type = LuaData_Container
               ∨ type = LuaData_Teleport).

Definition isCreatureType (type : Z) : bool :=
  bool_decide (type = LuaData_Player ∨ type = LuaData_Monster
               ∨ type = LuaData_Npc).

Definition stableIdOf (g : Game) (l : lua_State) (type : Z) (v : Value)
    (env : ScriptEnvironment) : option (Value * ScriptEnvironment) :=
  if isItemType type then itemUid g l v env
  else if isCreatureType type then creatureId g l v env
  else None.

(** The arguments of [addEvent] with every unsafe one reduced to its stable
    id, from the first to the last. *)
Fixpoint reduceArguments (g : Game) (str2d : string → option Z)
    (l : lua_State) (args : list Value) (env : ScriptEnvironment)
    : option (list Value * ScriptEnvironment) :=
  match args with
  | [] => Some ([], env)
  | a :: rest =>
    r ← (if isUnsafeType (dataTypeOf str2d l a)
         then stableIdOf g l (dataTypeOf str2d l a) a env
         else Some (a, env));
    rs ← reduceArguments g str2d l rest r.2;
    Some (r.1 :: rs.1, rs.2)
  end.

(** The getters [luaAddEvent] looks up are the ones luascript.cpp
    registers. *)
Definition gettersRegistered (l : lua_State) : Prop :=
  gettable MAXTAGLOOP l (default Nil (globals l !! "Item"))
           (KStr "getUniqueId") = Some (CFunc luaItemGetUniqueId_f)
  ∧ gettable MAXTAGLOOP l (default Nil (globals l !! "Creature"))
             (KStr "getId") = Some (CFunc luaCreatureGetId_f).

(** Every metatable of the values is in the heap. *)
Definition metatableInHeap (l : lua_State) (v : Value) : bool :=
  match metatableOf l v with
  | Some m => bool_decide (is_Some (heap l !! m))
  | None => true
  end.

Definition metatablesIn (l : lua_State) (vs : list Value) : bool :=
  forallb (metatableInHeap l) vs.

(** An argument that [luaAddEvent] finds unsafe is an object of the bridge:
    its type is one of the six kinds of item and creature, and when it is
    a userdata, the userdata is in the heap and its pointer, unless null,
    is to an item or to a creature as the type says. *)
Definition objectArgument (g : Game) (str2d : string → option Z)
    (l : lua_State) (a : Value) : bool :=
  let type := dataTypeOf str2d l a in
  if isUnsafeType type then
    (isItemType type || isCreatureType type)
    && match a with
       | Userdata r =>
         match heap l !! r with
         | Some o =>
           match payload o with
           | Some p =>
             if isItemType type then bool_decide (is_Some (itemAt g p))
             else bool_decide (is_Some (creatureAt g p))
           | None => true
           end
         | None => false
         end
       | _ => true
       end
  else true.

Definition objectArguments (g : Game) (str2d : string → option Z)
    (l : lua_State) (args : list Value) : bool :=
  forallb (objectArgument g str2d l) args.

(** The environment in use is [env]. *)
Definition inUse (env : ScriptEnvironment) (w : World) : Prop :=
  0 ≤ scriptEnvIndex (bridge w)
  ∧ scriptEnv (bridge w) !! Z.to_nat (scriptEnvIndex (bridge w)) = Some env.

(** The world with [env] as the environment in use. *)
Definition withScriptEnv (env : ScriptEnvironment) (w : World) : World :=
  set_bridge (set_scriptEnv
                (<[Z.to_nat (scriptEnvIndex (bridge w)) := env]>
                   (scriptEnv (bridge w))) (bridge w)) w.

(** The reference [ref] holds the captured value [v]: a nil is captured as
    [LUA_REFNIL], any other value under its reference in the registry. *)
Definition captures (l : lua_State) (ref : Z) (v : Value) : Prop :=
  if bool_decide (v = Nil) then ref = LUA_REFNIL
  else registry l !! KInt ref = Some v.

(** ** Example data *)

Definition plainItem : Item :=
  {| item_removed := false; item_uniqueIdAttr := None;
     item_parent := Some (cylinderAt 0%N); item_kind := PlainItem |}.

(** A game of plain items that are in the world: no creature, no item with
    a unique id. *)
Definition gameOfItems : Game :=
  {| thingAt := λ _, ItemThing plainItem;
     getCreatureByID := λ _, None;
     getUniqueItem := λ _, None |}.

(** An item made by a script and not placed in the world: its parent is the
    placeholder cylinder. *)
Definition heldItem : Item :=
  {| item_removed := false; item_uniqueIdAttr := None;
     item_parent := Some virtualCylinder; item_kind := PlainItem |}.

Definition gameOfHeldItems : Game :=
  {| thingAt := λ _, ItemThing heldItem;
     getCreatureByID := λ _, None;
     getUniqueItem := λ _, None |}.

(** The sixteen environments of [LuaScriptInterface::scriptEnv] and the
    static members as they are when the server starts. *)
Definition newBridge : Bridge :=
  {| scriptEnv := replicate 16 (newScriptEnvironment UINT16_MAX);
     scriptEnvIndex := -1;
     tempResults := ∅; lastResultId := 0; tempItems := [];
     engineCalls := [] |}.

(** The classes [Item] and [Tile], neither derived from the other, with an
    instance of each as the arguments of [isType]. *)
Definition isType_Item_Tile (hash : string → Z) (str2d : string → option Z)
    : M lua_State Z :=
  registerClass hash str2d "Item" "" None;;
  registerClass hash str2d "Tile" "" None;;
  pushInstance 1%N "Item";;
  pushInstance 2%N "Tile";;
  luaIsType str2d.

(** A game with the player 0x10000005 at address 2, the item with unique id
    1234 at address 3, and plain items elsewhere. *)
Definition exampleGame : Game :=
  {| thingAt := λ p,
       if bool_decide (p = 2%N) then
         CreatureThing {| creature_removed := false; creature_id := 0x10000005;
                          creature_kind := PlayerKind |}
       else if bool_decide (p = 3%N) then
         ItemThing {| item_removed := false; item_uniqueIdAttr := Some 1234;
                      item_parent := Some (cylinderAt 0%N);
                      item_kind := PlainItem |}
       else ItemThing plainItem;
     getCreatureByID := λ id,
       if bool_decide (id = 0x10000005) then Some 2%N else None;
     getUniqueItem := λ uid,
       if bool_decide (uid = 1234) then Some 3%N else None |}.

Definition exampleHash (s : string) : Z := Z.of_nat (String.length s).
Definition noNumber (s : string) : option Z := None.

(** The classes and getters registered, then the call
    [addEvent(callback, 10, item, player, 42, uniqueItem)]. *)
Definition exampleCall : M lua_State unit :=
  registerClass exampleHash noNumber "Item" "" None;;
  registerClass exampleHash noNumber "Creature" "" None;;
  registerClass exampleHash noNumber "Player" "Creature" None;;
  registerMethod "Item" "getUniqueId" luaItemGetUniqueId_f;;
  registerMethod "Creature" "getId" luaCreatureGetId_f;;
  push (Closure 0);;
  lua_pushinteger 10;;
  pushInstance 1%N "Item";;
  pushInstance 2%N "Player";;
  lua_pushinteger 42;;
  pushInstance 3%N "Item".

Definition exampleLua : lua_State :=
  match exampleCall emptyState with
  | Some (_, l) => l
  | None => emptyState
  end.

Definition exampleWorld : World :=
  {| L := exampleLua;
     bridge := set_scriptEnvIndex 0 newBridge;
     timerEvents := ∅;
     lastEventTimerId := 1;
     scheduler := {| pending := ∅; lastEventId := 0 |};
     output := [] |}.

Definition exampleConfig : Config :=
  {| WARN_UNSAFE_SCRIPTS := true; CONVERT_UNSAFE_SCRIPTS := true |}.

(** A script that returns [true] and changes nothing. *)
Definition idleScript (f : Value) (args : list Value) (w : World)
    : Z * list Value * World :=
  (0, [Boolean true], w).

(** A world with one pending timer, token 1, whose callback and argument
    are held under the references 1 and 2, and [stopEvent(1)] called. *)
Definition timerWorld : World :=
  {| L := {| stack := [Number 1]; heap := ∅; nextObject := 0%N; globals := ∅;
             registry := <[KInt 2 := Number 5]> {[KInt 1 := Closure 0]};
             nextRef := 3; stringMetatable := None; unrefCalls := [] |};
     bridge := newBridge;
     timerEvents := {[1 := {| desc_scriptId := 0; desc_function := 1;
                               desc_parameters := [2]; desc_eventId := 1 |}]};
     lastEventTimerId := 2;
     scheduler := {| pending := {[1 := {| task_delay := 100;
                                          task_timerEvent := 1 |}]};
                     lastEventId := 1 |};
     output := [] |}.

(** A reference holds its value and was handed out before the next
    reference of the state. *)
Definition holds (l : lua_State) (ref : Z) (v : Value) : Prop :=
  captures l ref v ∧ (v ≠ Nil → ref < nextRef l).

(** ** ScriptEnvironment: items and containers by uid *)

(** [item->getContainer()]: the same pointer when the item is a container,
    [nullptr] for any other item. *)
Definition getContainer (g : Game) (p : addr) : option addr :=
  match itemAt g p with
  | Some i => if item_kind i is ContainerItem then Some p else None
  | None => None
  end.

Definition getItemByUID (g : Game) (env : ScriptEnvironment) (uid : Z)
    : option (option addr) :=
  thing ← getThingByUID g env uid;
  match thing with
  | None => Some None
  | Some t => Some (getItem g t)
  end.

Definition getContainerByUID (g : Game) (env : ScriptEnvironment) (uid : Z)
    : option (option addr) :=
  item ← getItemByUID g env uid;
  match item with
  | None => Some None
  | Some i => Some (getContainer g i)
  end.

(** Every uid bound in the local table was handed out by [addThing]: it is
    not above [lastUID]. *)
Definition uidsBelow (env : ScriptEnvironment) : Prop :=
  ∀ uid, is_Some (localMap env !! uid) → 0 ≤ uid ≤ lastUID env.

(** Every id in the result cache was handed out by [addResult]. *)
Definition resultsBelow (b : Bridge) : Prop :=
  ∀ id, is_Some (tempResults b !! id) → 0 ≤ id ≤ lastResultId b.

(** The entries of a multimap are in the order of their keys. *)
Fixpoint sortedByKey (l : list (nat * option addr)) : bool :=
  match l with
  | [] => true
  | e :: rest =>
    forallb (λ e' : nat * option addr, bool_decide (e.1 ≤ e'.1)%nat) rest
    && sortedByKey rest
  end.

(** A game of containers that are in the world. *)
Definition gameOfContainers : Game :=
  {| thingAt := λ _, ItemThing {| item_removed := false;
                                  item_uniqueIdAttr := None;
                                  item_parent := Some (cylinderAt 0%N);
                                  item_kind := ContainerItem |};
     getCreatureByID := λ _, None;
     getUniqueItem := λ _, None |}.

(** ** Damage modifiers: damagemodifier.h and damagemodifier.cpp *)

(** The enumerations of damagemodifier.h, with the numbers their order
    gives them. *)
Definition ATTACK_MODIFIER_NONE : Z := 0.
Definition ATTACK_MODIFIER_LIFESTEAL : Z := 1.
Definition ATTACK_MODIFIER_MANASTEAL : Z := 2.
Definition ATTACK_MODIFIER_STAMINASTEAL : Z := 3.
Definition ATTACK_MODIFIER_SOULSTEAL : Z := 4.
Definition ATTACK_MODIFIER_CRITICAL : Z := 5.
Definition ATTACK_MODIFIER_PIERCING : Z := 6.
Definition ATTACK_MODIFIER_CONVERSION : Z := 7.
Definition ATTACK_MODIFIER_BUTCHER : Z := 8.
Definition ATTACK_MODIFIER_HUNTER : Z := 9.
Definition ATTACK_MODIFIER_SLAYER : Z := 10.
Definition ATTACK_MODIFIER_CULL : Z := 11.
Definition ATTACK_MODIFIER_LAST : Z := 12.

Definition DEFENSE_MODIFIER_NONE : Z := 0.
Definition DEFENSE_MODIFIER_ABSORB : Z := 1.
Definition DEFENSE_MODIFIER_RESTORE : Z := 2.
Definition DEFENSE_MODIFIER_REPLENISH : Z := 3.
Definition DEFENSE_MODIFIER_REVIVE : Z := 4.
Definition DEFENSE_MODIFIER_REFLECT : Z := 5.
Definition DEFENSE_MODIFIER_DEFLECT : Z := 6.
Definition DEFENSE_MODIFIER_RICOCHET : Z := 7.
Definition DEFENSE_MODIFIER_RESIST : Z := 8.
Definition DEFENSE_MODIFIER_REFORM : Z := 9.
Definition DEFENSE_MODIFIER_BEASTARMOR : Z := 10.
Definition DEFENSE_MODIFIER_AEGIS : Z := 11.
Definition DEFENSE_MODIFIER_IMMORTAL : Z := 12.
Definition DEFENSE_MODIFIER_SLAYER : Z := 13.
Definition DEFENSE_MODIFIER_LAST : Z := 14.

Definition NO_MOD : Z := 0.
Definition ATTACK_MOD : Z := 1.
Definition DEFENSE_MOD : Z := 2.

(** Modelled from the spec: the enumerations [CombatType_t] and
    [CombatOrigin] are declared in const.h, which is not under src/.  Their
    members are the ones the sources under src/ name; their numbers are not
    used. *)
Inductive CombatType_t :=
| COMBAT_NONE
| COMBAT_PHYSICALDAMAGE
| COMBAT_ENERGYDAMAGE
| COMBAT_EARTHDAMAGE
| COMBAT_FIREDAMAGE
| COMBAT_UNDEFINEDDAMAGE
| COMBAT_LIFEDRAIN
| COMBAT_MANADRAIN
| COMBAT_HEALING
| COMBAT_DROWNDAMAGE
| COMBAT_ICEDAMAGE
| COMBAT_HOLYDAMAGE
| COMBAT_DEATHDAMAGE.

Inductive CombatOrigin :=
| ORIGIN_NONE
| ORIGIN_CONDITION
| ORIGIN_SPELL
| ORIGIN_MELEE
| ORIGIN_RANGED
| ORIGIN_REFLECT
| ORIGIN_DEFLECT
| ORIGIN_RICOCHET
| ORIGIN_DMGMOD
| ORIGIN_AUGMENT
| ORIGIN_IMBUEMENT.

#[export] Instance CombatType_t_eq_dec : EqDecision CombatType_t.
Proof. solve_decision. Defined.
#[export] Instance CombatOrigin_eq_dec : EqDecision CombatOrigin.
Proof. solve_decision. Defined.

(** What the [std::any] of a modifier holds. *)
Inductive AuxAttribute :=
| AuxString (s : string)
| AuxU8 (n : Z)
| AuxCombat (c : CombatType_t).

(** The members of a [DamageModifier], the pointer to itself apart. *)
Record DamageModifier := {
  m_mod_stance : Z;
  m_mod_type : Z;
  m_value : Z;
  m_chance : Z;
  m_damage_type : CombatType_t;
  m_origin_type : CombatOrigin;
  m_flat_value : bool;
  m_use_on_any : bool;
  m_use_with_origin : bool;
  m_aux_attribute : option AuxAttribute
}.

Definition set_m_value (v : Z) (m : DamageModifier) : DamageModifier :=
  {| m_mod_stance := m_mod_stance m; m_mod_type := m_mod_type m;
     m_value := v; m_chance := m_chance m;
     m_damage_type := m_damage_type m; m_origin_type := m_origin_type m;
     m_flat_value := m_flat_value m; m_use_on_any := m_use_on_any m;
     m_use_with_origin := m_use_with_origin m;
     m_aux_attribute := m_aux_attribute m |}.

Definition set_m_aux_attribute (a : option AuxAttribute) (m : DamageModifier)
    : DamageModifier :=
  {| m_mod_stance := m_mod_stance m; m_mod_type := m_mod_type m;
     m_value := m_value m; m_chance := m_chance m;
     m_damage_type := m_damage_type m; m_origin_type := m_origin_type m;
     m_flat_value := m_flat_value m; m_use_on_any := m_use_on_any m;
     m_use_with_origin := m_use_with_origin m;
     m_aux_attribute := a |}.

(** The constructor [makeModifier] calls; the arguments are of the types
    [uint8_t], [uint8_t], [uint16_t] and [uint8_t]. *)
Definition makeModifier (stance modType amount chance : Z)
    (combatType : CombatType_t) (source : CombatOrigin)
    (flatRate onAnyDmg origin : bool) : DamageModifier :=
  {| m_mod_stance := stance; m_mod_type := modType; m_value := amount;
     m_chance := chance; m_damage_type := combatType;
     m_origin_type := source; m_flat_value := flatRate;
     m_use_on_any := onAnyDmg; m_use_with_origin := origin;
     m_aux_attribute := None |}.

Definition getStance (m : DamageModifier) : Z := m_mod_stance m.
Definition getType (m : DamageModifier) : Z := m_mod_type m.

(** [getValue] returns [const uint8_t]: the 16 bits of [m_value] are cut to
    8. *)
Definition getValue (m : DamageModifier) : Z := wrap 8 (m_value m).

Definition isAttackStance (m : DamageModifier) : bool :=
  bool_decide (m_mod_stance m = ATTACK_MOD).

Definition isDefenseStance (m : DamageModifier) : bool :=
  bool_decide (m_mod_stance m = DEFENSE_MOD).

Definition isMonsterBased (m : DamageModifier) : bool :=
  if isAttackStance m then
    bool_decide (m_mod_type m = ATTACK_MODIFIER_BUTCHER)
  else if isDefenseStance m then
    bool_decide (m_mod_type m = DEFENSE_MODIFIER_BEASTARMOR)
  else false.

Definition isRaceBased (m : DamageModifier) : bool :=
  if isAttackStance m then
    bool_decide (m_mod_type m = ATTACK_MODIFIER_HUNTER)
  else if isDefenseStance m then
    bool_decide (m_mod_type m = DEFENSE_MODIFIER_AEGIS)
  else false.

Definition isBossBased (m : DamageModifier) : bool :=
  if isAttackStance m then
    bool_decide (m_mod_type m = ATTACK_MODIFIER_SLAYER)
    || bool_decide (m_mod_type m = ATTACK_MODIFIER_CULL)
  else if isDefenseStance m then
    bool_decide (m_mod_type m = DEFENSE_MODIFIER_IMMORTAL)
    || bool_decide (m_mod_type m = DEFENSE_MODIFIER_SLAYER)
  else false.

(** [conversionType]: the value and what was printed. *)
Definition conversionType (m : DamageModifier) : CombatType_t * list string :=
  if (isAttackStance m
      && bool_decide (m_mod_type m = ATTACK_MODIFIER_CONVERSION))
     || (isDefenseStance m
         && bool_decide (m_mod_type m = DEFENSE_MODIFIER_REFORM))
  then
    match m_aux_attribute m with
    | Some (AuxCombat value) => (value, [])
    | _ =>
      (COMBAT_NONE,
       ["[Error] Damage Modifier has invalid auxillary value for Conversion Type. Must be uint8_t ranged numerical value! Returning 0"%string])
    end
  else (COMBAT_NONE, []).

Definition setTransformDamageType (damageType : CombatType_t)
    (m : DamageModifier) : DamageModifier :=
  set_m_aux_attribute (Some (AuxCombat damageType)) m.

(** [increaseValue] and [decreaseValue]: the modifier afterwards and what
    was printed.  The sum is taken in [int]. *)
Definition increaseValue (amount : Z) (m : DamageModifier)
    : DamageModifier * list string :=
  if bool_decide (m_value m + amount ≤ UINT16_MAX) then
    (set_m_value (wrap 16 (m_value m + amount)) m, [])
  else
    (set_m_value UINT16_MAX m,
     ["[WARNING] Amount exceded numeric limits for uint16_t. m_value set to limit."%string]).

Definition decreaseValue (amount : Z) (m : DamageModifier)
    : DamageModifier * list string :=
  if bool_decide (amount ≤ m_value m) then
    (set_m_value (wrap 16 (m_value m - amount)) m, [])
  else
    (set_m_value 0 m,
     ["[WARNING] Amount is greater than m_value. m_value set to zero. "%string]).

(** *** ModifierList

    A [shared_ptr<DamageModifier>] is the address of the modifier, or
    [None] for a null pointer; [store] gives the modifier at an address. *)

Record ModifierList := {
  m_attack_modifiers : list N;
  m_defense_modifiers : list N
}.

(** [ModifierList::addModifier]: the list afterwards and the pointer of the
    caller, which is passed by reference and moved from when the modifier
    is taken.  The stance is read through the pointer. *)
Definition addModifier (store : N → DamageModifier) (modifier : option N)
    (l : ModifierList) : option (ModifierList * option N) :=
  p ← modifier;
  if bool_decide (getStance (store p) = ATTACK_MOD) then
    Some ({| m_attack_modifiers := m_attack_modifiers l ++ [p];
             m_defense_modifiers := m_defense_modifiers l |}, None)
  else if bool_decide (getStance (store p) = DEFENSE_MOD) then
    Some ({| m_attack_modifiers := m_attack_modifiers l;
             m_defense_modifiers := m_defense_modifiers l ++ [p] |}, None)
  else Some (l, modifier).

(** [ModifierList::removeModifier]: [erase] of [std::remove]. *)
Definition removeModifier (store : N → DamageModifier) (modifier : option N)
    (l : ModifierList) : option ModifierList :=
  p ← modifier;
  if bool_decide (getStance (store p) = ATTACK_MOD) then
    Some {| m_attack_modifiers := filter (λ q, q ≠ p) (m_attack_modifiers l);
            m_defense_modifiers := m_defense_modifiers l |}
  else if bool_decide (getStance (store p) = DEFENSE_MOD) then
    Some {| m_attack_modifiers := m_attack_modifiers l;
            m_defense_modifiers := filter (λ q, q ≠ p) (m_defense_modifiers l) |}
  else Some l.

(** [getAttackModifiers] and [getDefenseModifiers]: what the static vector
    of the function holds when it returns. *)
Definition getAttackModifiers (store : N → DamageModifier) (modType : Z)
    (l : ModifierList) : list N :=
  filter (λ p, getType (store p) = modType) (m_attack_modifiers l).

Definition getDefenseModifiers (store : N → DamageModifier) (modType : Z)
    (l : ModifierList) : list N :=
  filter (λ p, getType (store p) = modType) (m_defense_modifiers l).

(** ** Augments: the names of augments.cpp *)

Definition GetStance (stanceName : string) : Z :=
  if bool_decide (stanceName = "attack") then ATTACK_MOD
  else if bool_decide (stanceName = "defense") then DEFENSE_MOD
  else NO_MOD.

(** The loop over a [static_map]: the value of the first entry with the
    key, or the default. *)
Fixpoint static_map_find {A} (static_map : list (string * A)) (name : string)
    (otherwise : A) : A :=
  match static_map with
  | [] => otherwise
  | (key, value) :: rest =>
    if bool_decide (key = name) then value
    else static_map_find rest name otherwise
  end.

Definition GetDamage (damageName : string) : CombatType_t :=
  static_map_find
    [("none", COMBAT_NONE);
     ("physical", COMBAT_PHYSICALDAMAGE);
     ("energy", COMBAT_ENERGYDAMAGE);
     ("earth", COMBAT_EARTHDAMAGE);
     ("fire", COMBAT_FIREDAMAGE);
     ("lifedrain", COMBAT_LIFEDRAIN);
     ("manadrain", COMBAT_MANADRAIN);
     ("healing", COMBAT_HEALING);
     ("drown", COMBAT_DROWNDAMAGE);
     ("ice", COMBAT_ICEDAMAGE);
     ("holy", COMBAT_HOLYDAMAGE);
     ("death", COMBAT_DEATHDAMAGE)]%string
    damageName COMBAT_NONE.

Definition GetOrigin (originName : string) : CombatOrigin :=
  static_map_find
    [("none", ORIGIN_NONE);
     ("condition", ORIGIN_CONDITION);
     ("spell", ORIGIN_SPELL);
     ("melee", ORIGIN_MELEE);
     ("ranged", ORIGIN_RANGED);
     ("reflect", ORIGIN_REFLECT);
     ("deflect", ORIGIN_DEFLECT);
     ("ricochet", ORIGIN_RICOCHET);
     ("modifier", ORIGIN_DMGMOD);
     ("augment", ORIGIN_AUGMENT);
     ("imbuement", ORIGIN_IMBUEMENT)]%string
    originName ORIGIN_NONE.

Definition GetAttackModifier (modName : string) : Z :=
  static_map_find
    [("none", ATTACK_MODIFIER_NONE);
     ("lifesteal", ATTACK_MODIFIER_LIFESTEAL);
     ("manasteal", ATTACK_MODIFIER_MANASTEAL);
     ("staminasteal", ATTACK_MODIFIER_STAMINASTEAL);
     ("soulsteal", ATTACK_MODIFIER_SOULSTEAL);
     ("critical", ATTACK_MODIFIER_CRITICAL);
     ("piercing", ATTACK_MODIFIER_PIERCING);
     ("conversion", ATTACK_MODIFIER_CONVERSION)]%string
    modName ATTACK_MODIFIER_NONE.

Definition GetDefenseModifier (modName : string) : Z :=
  static_map_find
    [("none", DEFENSE_MODIFIER_NONE);
     ("absorb", DEFENSE_MODIFIER_ABSORB);
     ("restore", DEFENSE_MODIFIER_RESTORE);
     ("replenish", DEFENSE_MODIFIER_REPLENISH);
     ("revive", DEFENSE_MODIFIER_REVIVE);
     ("reflect", DEFENSE_MODIFIER_REFLECT);
     ("deflect", DEFENSE_MODIFIER_DEFLECT);
     ("ricochet", DEFENSE_MODIFIER_RICOCHET);
     ("resist", DEFENSE_MODIFIER_RESIST);
     ("reform", DEFENSE_MODIFIER_REFORM)]%string
    modName DEFENSE_MODIFIER_NONE.

(** The modifier [Augments::loadAll] makes from the values it has read from
    one table of a file: the names of the stance, of the type, of the
    damage and of the origin, the amount, the chance and the three flags;
    [toDamageType] is the target of a conversion, already cast.  [None]
    when the stance is unknown, for which the loader prints a message and
    adds nothing. *)
Definition modifierOfTable (stance modType : string) (chance amount : Z)
    (damageType originType : string) (useOnAll flatRate useOnOrigin : bool)
    (toDamageType : CombatType_t) : option DamageModifier :=
  if bool_decide (GetStance stance = ATTACK_MOD) then
    let damage_modifier :=
      makeModifier (GetStance stance) (GetAttackModifier modType) amount
        chance (GetDamage damageType) (GetOrigin originType)
        flatRate useOnAll useOnOrigin in
    Some (if bool_decide (modType = "conversion")
          then setTransformDamageType toDamageType damage_modifier
          else damage_modifier)
  else if bool_decide (GetStance stance = DEFENSE_MOD) then
    let damage_modifier :=
      makeModifier (GetStance stance) (GetDefenseModifier modType) amount
        chance (GetDamage damageType) (GetOrigin originType)
        flatRate useOnAll useOnOrigin in
    Some (if bool_decide (modType = "reform")
          then setTransformDamageType toDamageType damage_modifier
          else damage_modifier)
  else None.

(** A modifier that steals life with 30 percent of the damage. *)
Definition lifesteal30 : DamageModifier :=
  makeModifier ATTACK_MOD ATTACK_MODIFIER_LIFESTEAL 30 100
    COMBAT_PHYSICALDAMAGE ORIGIN_NONE false false false.

(** ** Augment and the collection of augments.cpp

    An augment holds a shared pointer to its [ModifierList].  The objects
    behind the shared pointers are kept by their addresses, so that two
    augments can hold the same list; [global_augments] is the static map of
    augments.cpp. *)

Record Augment := {
  m_mod_list : N;
  m_name : string
}.

Record AugmentStore := {
  modifierLists : gmap N ModifierList;
  augmentObjects : gmap N Augment;
  nextModifierList : N;
  nextAugment : N;
  global_augments : gmap string N;
  (* what was printed, in order *)
  printed : list string
}.

Definition set_modifierLists (ls : gmap N ModifierList) (s : AugmentStore) :=
  {| modifierLists := ls; augmentObjects := augmentObjects s;
     nextModifierList := nextModifierList s; nextAugment := nextAugment s;
     global_augments := global_augments s; printed := printed s |}.

Definition set_global_augments (ga : gmap string N) (s : AugmentStore) :=
  {| modifierLists := modifierLists s; augmentObjects := augmentObjects s;
     nextModifierList := nextModifierList s; nextAugment := nextAugment s;
     global_augments := ga; printed := printed s |}.

Definition cout (text : string) : M AugmentStore unit :=
  modify (λ s, {| modifierLists := modifierLists s;
                  augmentObjects := augmentObjects s;
                  nextModifierList := nextModifierList s;
                  nextAugment := nextAugment s;
                  global_augments := global_augments s;
                  printed := printed s ++ [text] |}).

(** [std::make_shared<Augment>(...)] *)
Definition newAugment (a : Augment) : M AugmentStore N :=
  s ← get;
  let p := nextAugment s in
  put {| modifierLists := modifierLists s;
         augmentObjects := <[p := a]> (augmentObjects s);
         nextModifierList := nextModifierList s;
         nextAugment := N.succ p;
         global_augments := global_augments s; printed := printed s |};;
  mret p.

(** [std::make_shared<ModifierList>()] *)
Definition newModifierList : M AugmentStore N :=
  s ← get;
  let r := nextModifierList s in
  put {| modifierLists :=
           <[r := {| m_attack_modifiers := []; m_defense_modifiers := [] |}]>
             (modifierLists s);
         augmentObjects := augmentObjects s;
         nextModifierList := N.succ r;
         nextAugment := nextAugment s;
         global_augments := global_augments s; printed := printed s |};;
  mret r.

(** [Augment::MakeAugment(augmentName)]: an augment with a list of its
    own. *)
Definition Augment_MakeAugment (augmentName : string) : M AugmentStore N :=
  r ← newModifierList;
  newAugment {| m_mod_list := r; m_name := augmentName |}.

(** [Augment::MakeAugment(originalRef)]: the constructor copies the name and
    the pointer to the list of the original. *)
Definition Augment_MakeAugment_of (originalRef : N) : M AugmentStore N :=
  s ← get;
  original ← orFail (augmentObjects s !! originalRef);
  newAugment {| m_mod_list := m_mod_list original;
                m_name := m_name original |}.

Definition Augment_getName (augment : N) : M AugmentStore string :=
  s ← get;
  a ← orFail (augmentObjects s !! augment);
  mret (m_name a).

Definition Augment_addModifier (store : N → DamageModifier) (augment : N)
    (modifier : option N) : M AugmentStore unit :=
  s ← get;
  a ← orFail (augmentObjects s !! augment);
  l ← orFail (modifierLists s !! m_mod_list a);
  r ← orFail (addModifier store modifier l);
  put (set_modifierLists (<[m_mod_list a := r.1]> (modifierLists s)) s).

Definition Augment_getAttackModifiers (store : N → DamageModifier)
    (augment : N) (modType : Z) : M AugmentStore (list N) :=
  s ← get;
  a ← orFail (augmentObjects s !! augment);
  l ← orFail (modifierLists s !! m_mod_list a);
  mret (getAttackModifiers store modType l).

Definition Augment_getDefenseModifiers (store : N → DamageModifier)
    (augment : N) (modType : Z) : M AugmentStore (list N) :=
  s ← get;
  a ← orFail (augmentObjects s !! augment);
  l ← orFail (modifierLists s !! m_mod_list a);
  mret (getDefenseModifiers store modType l).

(** [Augments::MakeAugment]: a copy of the augment of that name in the
    collection, or a null pointer and a message. *)
Definition Augments_MakeAugment (augmentName : string)
    : M AugmentStore (option N) :=
  s ← get;
  match global_augments s !! augmentName with
  | Some original =>
    augmentClone ← Augment_MakeAugment_of original;
    mret (Some augmentClone)
  | None =>
    cout (String.append "Failed to find augment named : " augmentName);;
    mret None
  end.

(** [Augments::AddAugment]: [try_emplace] keeps the augment that has the
    name. *)
Definition AddAugment (augment : N) : M AugmentStore unit :=
  name ← Augment_getName augment;
  s ← get;
  match global_augments s !! name with
  | None => put (set_global_augments (<[name := augment]> (global_augments s)) s)
  | Some _ =>
    cout (String.append "[Warning][Augments] "
             (String.append name " already exists! "))
  end.

(** [Augments::RemoveAugment], by the augment and by the name. *)
Definition RemoveAugment (augment : N) : M AugmentStore unit :=
  name ← Augment_getName augment;
  modify (λ s, set_global_augments (delete name (global_augments s)) s).

Definition RemoveAugment_named (augName : string) : M AugmentStore unit :=
  modify (λ s, set_global_augments (delete augName (global_augments s)) s).

Definition emptyAugmentStore : AugmentStore :=
  {| modifierLists := ∅; augmentObjects := ∅; nextModifierList := 0%N;
     nextAugment := 0%N; global_augments := ∅; printed := [] |}.

(** The augment [name] made and added to the collection. *)
Definition registeredAugment (name : string) : AugmentStore :=
  match (a ← Augment_MakeAugment name; AddAugment a) emptyAugmentStore with
  | Some (_, s) => s
  | None => emptyAugmentStore
  end.

(** The collection with the augment [name], and a second augment of the
    same name that is not in the collection. *)
Definition secondAugment (name : string) : AugmentStore :=
  match Augment_MakeAugment name (registeredAugment name) with
  | Some (_, s) => s
  | None => emptyAugmentStore
  end.

(** ** LuaScriptInterface: the table of the events *)

(** [isTable] of luascript.h is the test of the type of the value,
    [lua_istable]. *)
Definition lua_istable (idx : Z) : M lua_State bool :=
  l ← get;
  mret (match default Nil (index2adr l idx) with Table _ => true | _ => false end).

(** The members of an interface that the functions of the events use.  All
    interfaces run on the Lua state of [g_luaEnvironment]: [luaState] tells
    whether the pointer of the interface is set. *)
Record LuaScriptInterface := {
  luaState : bool;
  eventTableRef : Z;
  runningEventId : Z;
  cacheFiles : gmap Z string;
  loadingFile : string
}.

Definition INT32_MAX : Z := 2 ^ 31 - 1.

(** A call of the C API through a null [luaState] is not defined. *)
Definition attached (i : LuaScriptInterface) : M lua_State unit :=
  if luaState i then mret tt else fail.

(** [cacheFiles[runningEventId] = file; return runningEventId++;], which is
    not defined at the end of [int32_t]. *)
Definition cacheEvent (file : string) (i : LuaScriptInterface)
    : M lua_State (Z * LuaScriptInterface) :=
  if bool_decide (runningEventId i < INT32_MAX) then
    mret (runningEventId i,
          {| luaState := luaState i; eventTableRef := eventTableRef i;
             runningEventId := runningEventId i + 1;
             cacheFiles := <[runningEventId i := file]> (cacheFiles i);
             loadingFile := loadingFile i |})
  else fail.

(** [getEvent(eventName)] *)
Definition getEvent (eventName : string) (i : LuaScriptInterface)
    : M lua_State (Z * LuaScriptInterface) :=
  attached i;;
  (* get our events table *)
  lua_rawgeti_registry (eventTableRef i);;
  isTable ← lua_istable (-1);
  if negb isTable then
    lua_pop 1;;
    mret (-1, i)
  else
  (* get current event function pointer *)
  lua_getglobal eventName;;
  isFunction ← lua_isfunction (-1);
  if negb isFunction then
    lua_pop 2;;
    mret (-1, i)
  else
  (* save in our events table *)
  lua_pushvalue (-1);;
  lua_rawseti (-3) (runningEventId i);;
  lua_pop 2;;
  (* reset global value of this event *)
  lua_pushnil;;
  lua_setglobal eventName;;
  cacheEvent (String.append (loadingFile i) (String.append ":" eventName)) i.

(** [getEvent()], for the function on the top of the stack *)
Definition getEvent_top (i : LuaScriptInterface)
    : M lua_State (Z * LuaScriptInterface) :=
  attached i;;
  (* check if function is on the stack *)
  isFunction ← lua_isfunction (-1);
  if negb isFunction then mret (-1, i)
  else
  (* get our events table *)
  lua_rawgeti_registry (eventTableRef i);;
  isTable ← lua_istable (-1);
  if negb isTable then
    lua_pop 1;;
    mret (-1, i)
  else
  (* save in our events table *)
  lua_pushvalue (-2);;
  lua_rawseti (-2) (runningEventId i);;
  lua_pop 2;;
  cacheEvent (String.append (loadingFile i) ":callback") i.

Definition pushFunction (functionId : Z) (i : LuaScriptInterface)
    : M lua_State bool :=
  attached i;;
  lua_rawgeti_registry (eventTableRef i);;
  isTable ← lua_istable (-1);
  if negb isTable then mret false
  else
  lua_rawgeti (-1) functionId;;
  lua_replace (-2);;
  lua_isfunction (-1).

Section Events.

(** The ids [EVENT_ID_LOADING] and [EVENT_ID_USER] of luascript.h, which is
    not under src/. *)
Variable EVENT_ID_LOADING : Z.
Variable EVENT_ID_USER : Z.

Definition getFileById (scriptId : Z) (i : LuaScriptInterface) : string :=
  if bool_decide (scriptId = EVENT_ID_LOADING) then loadingFile i
  else default "(Unknown scriptfile)"%string (cacheFiles i !! scriptId).

(** [initState] and [closeState]; [global] is the Lua state of
    [g_luaEnvironment], if it has one. *)
Definition initState (i : LuaScriptInterface) (global : option lua_State)
    : option (bool * LuaScriptInterface * option lua_State) :=
  match global with
  | None =>
    Some (false,
          {| luaState := false; eventTableRef := eventTableRef i;
             runningEventId := runningEventId i;
             cacheFiles := cacheFiles i; loadingFile := loadingFile i |},
          None)
  | Some l =>
    r ← (lua_newtable;; luaL_ref) l;
    Some (true,
          {| luaState := true; eventTableRef := r.1;
             runningEventId := EVENT_ID_USER;
             cacheFiles := cacheFiles i; loadingFile := loadingFile i |},
          Some r.2)
  end.

Definition closeState (i : LuaScriptInterface) (global : option lua_State)
    : option (bool * LuaScriptInterface * option lua_State) :=
  match global with
  | Some l =>
    if luaState i then
      l' ← (if bool_decide (eventTableRef i ≠ -1)
            then r ← luaL_unref (eventTableRef i) l; Some r.2
            else Some l);
      Some (true,
            {| luaState := false; eventTableRef := -1;
               runningEventId := runningEventId i;
               cacheFiles := ∅; loadingFile := loadingFile i |},
            Some l')
    else Some (false, i, global)
  | None => Some (false, i, global)
  end.

End Events.

(** An interface that has not been initialised. *)
Definition newInterface : LuaScriptInterface :=
  {| luaState := false; eventTableRef := -1; runningEventId := 0;
     cacheFiles := ∅; loadingFile := "" |}.

(** An interface initialised on a new Lua state, with 1000 as the first id
    of its events. *)
Definition exampleInterface : LuaScriptInterface * lua_State :=
  match initState 1000 newInterface (Some emptyState) with
  | Some (_, i, Some l) => (i, l)
  | _ => (newInterface, emptyState)
  end.

Definition emptyTable : Object :=
  {| fields := ∅; metatable := None; payload := None |}.

(** The state after [f] was stored under [id] in the table [t] of the
    events and the stack was left as [s]. *)
Definition withEvent (t : N) (o : Object) (id : Z) (f : Value)
    (s : list Value) (l : lua_State) : lua_State :=
  set_heap (<[t := {| fields := <[KInt id := f]> (fields o);
                      metatable := metatable o;
                      payload := payload o |}]> (heap l))
    (set_stack s l).

(** *** What a registration leaves in the Lua state *)

(** The three tables [registerClass] makes: the table of the class, whose
    metatable is the second table; that table, with the constructor and the
    table of the base class; and the metatable of the instances. *)
Definition classObject (methodsTable : N) : Object :=
  {| fields := ∅; metatable := Some methodsTable; payload := None |}.

Definition methodsTableObject (newFunction : option CFunction)
    (base : option N) : Object :=
  {| fields :=
       (if base is Some b then <[KStr "__index" := Table b]> else id)
         (if newFunction is Some f then {[KStr "__call" := CFunc f]} else ∅);
     metatable := None; payload := None |}.

Definition metatableObject (hash : string → Z) (className : string) (c : N)
    (parents : Z) : Object :=
  {| fields :=
       <[KInt key_t := Number (typeTagOf className)]>
         (<[KInt key_p := Number parents]>
            (<[KInt key_h := Number (hash className)]>
               (<[KStr "__index" := Table c]>
                  {[KStr "__metatable" := Table c]})));
     metatable := None; payload := None |}.

(** The state after a class was registered with the tables at the next
    three addresses of the heap. *)
Definition withClass (hash : string → Z) (className : string)
    (newFunction : option CFunction) (base : option N) (parents : Z)
    (l : lua_State) : lua_State :=
  let c := nextObject l in
  {| stack := stack l;
     heap := <[N.succ (N.succ c) := metatableObject hash className c parents]>
               (<[N.succ c := methodsTableObject newFunction base]>
                  (<[c := classObject (N.succ c)]> (heap l)));
     nextObject := N.succ (N.succ (N.succ c));
     globals := <[className := Table c]> (globals l);
     registry := <[KStr className := Table (N.succ (N.succ c))]> (registry l);
     nextRef := nextRef l;
     stringMetatable := stringMetatable l;
     unrefCalls := unrefCalls l |}.

(** The depth [registerClass] stores for a class: 0 without a base class,
    and otherwise one more than the number it reads under ['p'] in the table
    of the base class, which is given with its address. *)
Definition parentsOf (str2d : string → option Z) (base : option (N * Object))
    : Z :=
  match base with
  | Some (_, ob) =>
    wrap32 (wrap 32 (tonumber str2d (default Nil (fields ob !! KInt key_p))) + 1)
  | None => 0
  end.

(** The addresses from [nextObject] on are free. *)
Definition heapBelow (l : lua_State) : Prop :=
  ∀ r, is_Some (heap l !! r) → (r < nextObject l)%N.

(** A base class, a class derived from it, a method of each, and an
    instance of the derived class on the top of the stack. *)
Definition derivedInstance (hash : string → Z) (str2d : string → option Z)
    (baseClass derivedClass : string)
    (baseMethod : string) (baseFunc : CFunction)
    (derivedMethod : string) (derivedFunc : CFunction) (p : addr)
    : M lua_State unit :=
  registerClass hash str2d baseClass "" None;;
  registerClass hash str2d derivedClass baseClass None;;
  registerMethod baseClass baseMethod baseFunc;;
  registerMethod derivedClass derivedMethod derivedFunc;;
  pushInstance p derivedClass.

(** ** Definitions used to state the properties of the calls *)

(** What [getString] and [lua_toboolean] read from a value. *)
Definition stringOf (v : Value) : string :=
  match v with
  | String s => s
  | Number n => pretty n
  | _ => ""
  end.

Definition truthOf (v : Value) : bool :=
  match v with
  | Nil | Boolean false => false
  | _ => true
  end.

(** The world in which [protectedCall] runs the function [fv] on the
    arguments [pvs], when the stack holds [s] below them: the error handler
    sits under the function. *)
Definition callWorld (s : list Value) (fv : Value) (pvs : list Value)
    (w : World) : World :=
  set_L (set_stack (s ++ CFunc (boundFunction "luaErrorHandler") :: fv :: pvs)
           (L w)) w.

(** A world in which an environment is in use and the stack holds a
    function and one argument. *)
Definition scriptCall : World :=
  {| L := set_stack [Closure 0; Number 5] emptyState;
     bridge := set_scriptEnvIndex 0 newBridge;
     timerEvents := ∅;
     lastEventTimerId := 1;
     scheduler := {| pending := ∅; lastEventId := 0 |};
     output := [] |}.


(** ** LuaScriptInterface: things on the stack *)

(** [lua_createtable]: a new table; the two sizes only reserve room. *)
Definition lua_createtable (narr nrec : Z) : M lua_State unit := lua_newtable.

(** Modelled from the spec: the template [setField] is defined in
    luascript.h, which is not under src/; it sets a field of the table on
    the top of the stack to a number, as [registerVariable] and [pushThing]
    use it. *)
Definition setField (index : string) (value : Z) : M lua_State unit :=
  lua_pushinteger value;;
  lua_setfield (-2) index.

Section Things.

Variable g : Game.
Variable str2d : string → option Z.

Definition pushThing (thing : option addr) : M lua_State unit :=
  match thing with
  | None =>
    lua_createtable 0 4;;
    setField "uid" 0;;
    setField "itemid" 0;;
    setField "actionid" 0;;
    setField "type" 0
  | Some t =>
    match itemAt g t with
    | Some item =>
      pushSharedPtr t;;
      setItemMetatable (-1) item
    | None =>
      match creatureAt g t with
      | Some creature =>
        pushSharedPtr t;;
        setCreatureMetatable (-1) creature
      | None => lua_pushnil
      end
    end
  end.

(** The types for which [getThing] reads the pointer of the userdata. *)
Definition isThingType (type : Z) : bool :=
  bool_decide (type = LuaData_Item ∨ type = LuaData_Container
               ∨ type = LuaData_Teleport ∨ type = LuaData_Player
               ∨ type = LuaData_Monster ∨ type = LuaData_Npc).

Definition getThing (arg : Z) : M World (option addr) :=
  has ← liftL (lua_getmetatable arg);
  if bool_decide (has ≠ 0) then
    liftL (lua_rawgeti (-1) key_t);;
    type ← liftL (getNumber str2d 32 (-1));
    thing ← (if isThingType type then liftL (getSharedPtr arg)
             else mret None);
    liftL (lua_pop 2);;
    mret thing
  else
    uid ← liftL (getNumber str2d 32 arg);
    this ← getScriptEnv;
    w ← get;
    env ← orFail (scriptEnv (bridge w) !! this);
    orFail (getThingByUID g env uid).

Definition getUserdataType (arg : Z) : M lua_State Z :=
  has ← lua_getmetatable arg;
  if bool_decide (has = 0) then mret LuaData_Unknown
  else
    lua_rawgeti (-1) key_t;;
    type ← getNumber_enum str2d (-1);
    lua_pop 2;;
    mret type.

End Things.

(** The name of the class [setItemMetatable] and [setCreatureMetatable]
    choose for a thing. *)
Definition classOfThing (t : Thing) : string :=
  match t with
  | ItemThing i =>
    match item_kind i with
    | ContainerItem => "Container"
    | TeleportItem => "Teleport"
    | PlainItem => "Item"
    end
  | CreatureThing c =>
    match creature_kind c with
    | PlayerKind => "Player"
    | MonsterKind => "Monster"
    | NpcKind => "Npc"
    end
  | TileThing _ => "Tile"
  end.

(** The class [name] is registered: the registry holds its metatable, whose
    field ['t'] is the type of the name. *)
Definition classTagged (l : lua_State) (name : string) : bool :=
  match registry l !! KStr name with
  | Some (Table m) =>
    match heap l !! m with
    | Some om =>
      bool_decide (fields om !! KInt key_t = Some (Number (typeTagOf name)))
    | None => false
    end
  | _ => false
  end.

Definition thingClasses : list string :=
  ["Item"; "Container"; "Teleport"; "Player"; "Monster"; "Npc"]%string.

(** The six classes of things, registered on a new Lua state as
    luascript.cpp derives them. *)
Definition thingClassesState : lua_State :=
  match (registerClass exampleHash noNumber "Item" "" None;;
         registerClass exampleHash noNumber "Container" "Item" None;;
         registerClass exampleHash noNumber "Teleport" "Item" None;;
         registerClass exampleHash noNumber "Creature" "" None;;
         registerClass exampleHash noNumber "Player" "Creature" None;;
         registerClass exampleHash noNumber "Monster" "Creature" None;;
         registerClass exampleHash noNumber "Npc" "Creature" None) emptyState
  with
  | Some (_, l) => l
  | None => emptyState
  end.

(** ** The bit library

    The functions of [luaBitReg], compiled when the interpreter is not
    LuaJIT.  Every operand is read with [getNumber<uint32_t>]. *)

Definition lua_pushnumber (n : Z) : M lua_State unit := push (Number n).

(** A loop that carries a local variable. *)
Fixpoint foldlM {S A B} (f : B → A → M S B) (l : list A) (b : B) : M S B :=
  match l with
  | [] => mret b
  | a :: l => b' ← f b a; foldlM f l b'
  end.

Section BitLibrary.

Variable str2d : string → option Z.

(** [MULTIOP(name, op)]: the last argument, then the arguments 1 to
    [n - 1]. *)
Definition MULTIOP (op : Z → Z → Z) : M lua_State Z :=
  n ← lua_gettop;
  w ← getNumber str2d 32 (-1);
  w ← foldlM (λ w i, x ← getNumber str2d 32 i; mret (op w x))
             (seqZ 1 (n - 1)) w;
  lua_pushnumber w;;
  mret 1.

Definition luaBitAnd : M lua_State Z := MULTIOP Z.land.
Definition luaBitOr : M lua_State Z := MULTIOP Z.lor.
Definition luaBitXor : M lua_State Z := MULTIOP Z.lxor.

(** [SHIFTOP(name, op)]: both operands are [uint32_t], and so is the
    result.  A shift by 32 or more has no defined result in C++: the model
    fails there. *)
Definition SHIFTOP (op : Z → Z → Z) : M lua_State Z :=
  n1 ← getNumber str2d 32 1;
  n2 ← getNumber str2d 32 2;
  if bool_decide (n2 < 32) then
    lua_pushnumber (wrap 32 (op n1 n2));;
    mret 1
  else fail.

Definition luaBitLeftShift : M lua_State Z := SHIFTOP Z.shiftl.
Definition luaBitRightShift : M lua_State Z := SHIFTOP Z.shiftr.

End BitLibrary.

(** The operand [getNumber<uint32_t>] reads from a value. *)
Definition operand (str2d : string → option Z) (v : Value) : Z :=
  wrap 32 (tonumber str2d v).

Definition UINT32_MAX : Z := 0xFFFFFFFF.

(** * Properties

    First the monad and the C API, one call at a time. *)

Lemma M_bind_Some {S A B} (m : M S A) (f : A → M S B) s a s' :
  m s = Some (a, s') → (m ≫= f) s = f a s'.
Proof. intros H. unfold mbind, M_bind. by rewrite H. Qed.

Lemma M_bind_None {S A B} (m : M S A) (f : A → M S B) s :
  m s = None → (m ≫= f) s = None.
Proof. intros H. unfold mbind, M_bind. by rewrite H. Qed.

Lemma liftL_Some {A} (m : M lua_State A) w a l :
  m (L w) = Some (a, l) → liftL m w = Some (a, set_L l w).
Proof. intros H. unfold liftL. by rewrite H. Qed.

(** Run the first call of a sequence, given its result. *)
Ltac step := erewrite M_bind_Some; last first.

(** ** Indices *)

Lemma indexValue_top (s t : list Value) (idx : Z) :
  - Z.of_nat (length t) ≤ idx < 0 →
  indexValue (s ++ t) idx = t !! (length t - Z.to_nat (- idx))%nat.
Proof.
  intros Hk. unfold indexValue. cbv zeta.
  rewrite bool_decide_eq_false_2 by lia.
  rewrite bool_decide_eq_true_2 by lia.
  rewrite length_app. rewrite bool_decide_eq_true_2 by lia.
  rewrite lookup_app_r by lia. f_equal. lia.
Qed.

Lemma indexValue_bottom (s t : list Value) (i : Z) :
  0 < i ≤ Z.of_nat (length s) →
  indexValue (s ++ t) i = Some (default Nil (s !! Z.to_nat (i - 1))).
Proof.
  intros Hi. unfold indexValue. rewrite bool_decide_eq_true_2 by lia.
  rewrite lookup_app_l by lia. done.
Qed.

Lemma indexValue_positive (s : list Value) (i : Z) :
  0 < i → indexValue s i = Some (default Nil (s !! Z.to_nat (i - 1))).
Proof. intros Hi. unfold indexValue. by rewrite bool_decide_eq_true_2. Qed.

Lemma indexSlot_top (s t : list Value) (idx : Z) :
  - Z.of_nat (length t) ≤ idx < 0 →
  indexSlot (s ++ t) idx = Some (length s + (length t - Z.to_nat (- idx)))%nat.
Proof.
  intros Hk. unfold indexSlot. cbv zeta.
  rewrite (bool_decide_eq_false_2 (0 < idx)) by lia. rewrite length_app.
  rewrite bool_decide_eq_true_2 by lia. f_equal. lia.
Qed.

Lemma indexSlot_bottom (s t : list Value) (i : Z) :
  0 < i ≤ Z.of_nat (length s) →
  indexSlot (s ++ t) i = Some (Z.to_nat (i - 1)).
Proof.
  intros Hi. unfold indexSlot. cbv zeta.
  rewrite (bool_decide_eq_true_2 (0 < i)) by lia.
  rewrite length_app. rewrite bool_decide_eq_true_2 by lia. done.
Qed.

(** ** What a change of the stack leaves alone *)

Lemma set_stack_set_stack s s' l : set_stack s (set_stack s' l) = set_stack s l.
Proof. done. Qed.

Lemma set_stack_stack l : set_stack (stack l) l = l.
Proof. by destruct l. Qed.

Lemma metatableOf_set_stack s l v :
  metatableOf (set_stack s l) v = metatableOf l v.
Proof. by destruct v. Qed.

Lemma gettable_set_stack fuel s l t k :
  gettable fuel (set_stack s l) t k = gettable fuel l t k.
Proof.
  revert t. induction fuel as [|fuel IH]; intros t; [done |].
  simpl. destruct t; simpl; try done.
  - unfold metamethod, rawget; simpl.
    destruct (stringMetatable l) as [m|]; simpl; [| done].
    destruct (heap l !! m); simpl; [| done].
    case_bool_decide; [done |]. destruct (isfunction _); [done | apply IH].
  - unfold metamethod, rawget; simpl.
    destruct (heap l !! r) as [o|]; simpl; [| done].
    case_bool_decide; [done |].
    destruct (metatable o) as [m|]; simpl; [| done].
    destruct (heap l !! m); simpl; [| done].
    case_bool_decide; [done |]. destruct (isfunction _); [done | apply IH].
  - unfold metamethod, rawget; simpl.
    destruct (heap l !! r) as [o|]; simpl; [| done].
    destruct (metatable o) as [m|]; simpl; [| done].
    destruct (heap l !! m); simpl; [| done].
    case_bool_decide; [done |]. destruct (isfunction _); [done | apply IH].
Qed.

(** ** The calls *)

Lemma push_eq v l : push v l = Some (tt, set_stack (stack l ++ [v]) l).
Proof. done. Qed.

Lemma lua_gettop_eq l : lua_gettop l = Some (Z.of_nat (length (stack l)), l).
Proof. done. Qed.

Lemma valueAt_eq idx l v :
  indexValue (stack l) idx = Some v → valueAt idx l = Some (v, l).
Proof.
  intros H. unfold valueAt. step; [reflexivity |].
  unfold index2adr. by rewrite H.
Qed.

Lemma lua_pop_eq n l s t :
  stack l = s ++ t → Z.of_nat (length t) = n →
  lua_pop n l = Some (tt, set_stack s l).
Proof.
  intros Hs Hn. unfold lua_pop. step; [reflexivity |].
  rewrite Hs, length_app. rewrite bool_decide_eq_true_2 by lia.
  unfold put. do 3 f_equal.
  replace (length s + length t - Z.to_nat n)%nat with (length s) by lia.
  by rewrite take_app_length.
Qed.

Lemma pop1_eq l s v :
  stack l = s ++ [v] → pop1 l = Some (v, set_stack s l).
Proof.
  intros Hs. unfold pop1.
  step. { apply valueAt_eq. rewrite Hs. by rewrite (indexValue_top s [v] (-1)). }
  step. { by apply (lua_pop_eq 1 l s [v]). }
  done.
Qed.

Lemma lua_pushvalue_eq idx l v :
  indexValue (stack l) idx = Some v →
  lua_pushvalue idx l = Some (tt, set_stack (stack l ++ [v]) l).
Proof.
  intros H. unfold lua_pushvalue. step; [by apply valueAt_eq |]. done.
Qed.

Lemma lua_getmetatable_Some idx l v m :
  indexValue (stack l) idx = Some v → metatableOf l v = Some m →
  lua_getmetatable idx l = Some (1, set_stack (stack l ++ [Table m]) l).
Proof.
  intros Hv Hm. unfold lua_getmetatable.
  step; [by apply valueAt_eq |]. step; [reflexivity |]. by rewrite Hm.
Qed.

Lemma lua_getmetatable_None idx l v :
  indexValue (stack l) idx = Some v → metatableOf l v = None →
  lua_getmetatable idx l = Some (0, l).
Proof.
  intros Hv Hm. unfold lua_getmetatable.
  step; [by apply valueAt_eq |]. step; [reflexivity |]. by rewrite Hm.
Qed.

Lemma lua_rawgeti_eq idx n l r o :
  indexValue (stack l) idx = Some (Table r) → heap l !! r = Some o →
  lua_rawgeti idx n l
    = Some (tt, set_stack (stack l ++ [default Nil (fields o !! KInt n)]) l).
Proof.
  intros Hv Ho. unfold lua_rawgeti, tableAt.
  step. { step; [by apply valueAt_eq |]. reflexivity. }
  step; [reflexivity |]. unfold rawget. rewrite Ho. done.
Qed.

Lemma lua_tonumber_eq str2d idx l :
  lua_tonumber str2d idx l
    = Some (tonumber str2d (default Nil (indexValue (stack l) idx)), l).
Proof. done. Qed.

Lemma getNumber_eq str2d bits idx l :
  getNumber str2d bits idx l
    = Some (wrap bits (tonumber str2d (default Nil (indexValue (stack l) idx))), l).
Proof. done. Qed.

Lemma lua_replace_eq idx l s v p :
  stack l = s ++ [v] → indexSlot (stack l) idx = Some p →
  lua_replace idx l = Some (tt, set_stack (take (length s) (<[p := v]> (s ++ [v]))) l).
Proof.
  intros Hs Hp. unfold lua_replace. step; [reflexivity |].
  unfold slot. rewrite Hp. step; [reflexivity |].
  step. { apply valueAt_eq. rewrite Hs. by rewrite (indexValue_top s [v] (-1)). }
  unfold put. rewrite Hs, length_app. simpl.
  by replace (length s + 1 - 1)%nat with (length s) by lia.
Qed.

Lemma lua_getglobal_eq name l :
  lua_getglobal name l
    = Some (tt, set_stack (stack l ++ [default Nil (globals l !! name)]) l).
Proof. done. Qed.

Lemma lua_getfield_eq idx k l t v :
  indexValue (stack l) idx = Some t →
  gettable MAXTAGLOOP l t (KStr k) = Some v →
  lua_getfield idx k l = Some (tt, set_stack (stack l ++ [v]) l).
Proof.
  intros Ht Hv. unfold lua_getfield. step; [by apply valueAt_eq |].
  step; [reflexivity |]. by rewrite Hv.
Qed.

Lemma lua_insert_eq idx l s v p :
  stack l = s ++ [v] → indexSlot (stack l) idx = Some p →
  lua_insert idx l = Some (tt, set_stack (take p s ++ v :: drop p s) l).
Proof.
  intros Hs Hp. unfold lua_insert. step; [reflexivity |].
  unfold slot. rewrite Hp. step; [reflexivity |].
  step. { apply valueAt_eq. rewrite Hs. by rewrite (indexValue_top s [v] (-1)). }
  unfold put. rewrite Hs, length_app. simpl.
  replace (length s + 1 - 1)%nat with (length s) by lia.
  by rewrite take_app_length.
Qed.

Lemma lua_remove_eq idx l p :
  indexSlot (stack l) idx = Some p →
  lua_remove idx l = Some (tt, set_stack (delete p (stack l)) l).
Proof.
  intros Hp. unfold lua_remove. step; [reflexivity |].
  unfold slot. by rewrite Hp.
Qed.

Lemma lua_toboolean_eq idx l :
  ∃ b, lua_toboolean idx l = Some (b, l).
Proof. eexists. reflexivity. Qed.

(** ** Worlds *)

Lemma set_L_set_L l l' w : set_L l (set_L l' w) = set_L l w.
Proof. done. Qed.

Lemma set_L_L w : set_L (L w) w = w.
Proof. by destruct w. Qed.

Lemma set_bridge_set_bridge b b' w :
  set_bridge b (set_bridge b' w) = set_bridge b w.
Proof. done. Qed.

Lemma set_L_set_bridge l b w :
  set_L l (set_bridge b w) = set_bridge b (set_L l w).
Proof. done. Qed.

(** Projections of updated states, and repeated updates of the stack. *)
Ltac norm :=
  cbn [L bridge timerEvents lastEventTimerId scheduler output
       set_L set_bridge set_timerEvents set_lastEventTimerId set_scheduler
       set_output
       stack heap nextObject globals registry nextRef stringMetatable
       unrefCalls set_stack set_heap set_globals set_registry
       scriptEnv scriptEnvIndex tempResults lastResultId tempItems
       engineCalls set_scriptEnv set_scriptEnvIndex set_tempItems];
  rewrite ?set_L_set_L, ?set_stack_set_stack, ?set_bridge_set_bridge.

Lemma getScriptEnv_eq (w : World) :
  0 ≤ scriptEnvIndex (bridge w) < Z.of_nat (length (scriptEnv (bridge w))) →
  getScriptEnv w = Some (Z.to_nat (scriptEnvIndex (bridge w)), w).
Proof.
  intros H. unfold getScriptEnv. step; [reflexivity |].
  by rewrite bool_decide_eq_true_2.
Qed.

Lemma onScriptEnv_eq {A} (f : ScriptEnvironment → A * ScriptEnvironment)
    (w : World) (env : ScriptEnvironment) :
  0 ≤ scriptEnvIndex (bridge w) →
  scriptEnv (bridge w) !! Z.to_nat (scriptEnvIndex (bridge w)) = Some env →
  onScriptEnv f w =
    Some ((f env).1,
          set_bridge (set_scriptEnv
                        (<[Z.to_nat (scriptEnvIndex (bridge w)) := (f env).2]>
                           (scriptEnv (bridge w))) (bridge w)) w).
Proof.
  intros Hi He. unfold onScriptEnv.
  step. { apply getScriptEnv_eq. apply lookup_lt_Some in He. lia. }
  step; [reflexivity |]. rewrite He. step; [reflexivity |].
  destruct (f env) as [a env']. step; [reflexivity |]. done.
Qed.

Lemma reserveScriptEnv_eq (w : World) :
  reserveScriptEnv w =
    Some (bool_decide (scriptEnvIndex (bridge w) + 1
                       < Z.of_nat (length (scriptEnv (bridge w)))),
          set_bridge (set_scriptEnvIndex (scriptEnvIndex (bridge w) + 1)
                        (bridge w)) w).
Proof. done. Qed.

(** * The script environment *)

(** ** The search of [addThing] *)

Lemma findUid_Some item (m : gmap Z (option addr)) uid :
  findUid item m = Some uid → m !! uid = Some item.
Proof.
  unfold findUid. intros H.
  destruct (list_find _ _) as [[i [k v]]|] eqn:Hf; simplify_eq/=.
  apply list_find_Some in Hf as (Hl & Hv & _). simpl in Hv. subst v.
  apply elem_of_map_to_list. eapply list_elem_of_lookup_2. exact Hl.
Qed.

Lemma findUid_None item (m : gmap Z (option addr)) uid :
  findUid item m = None → m !! uid ≠ Some item.
Proof.
  unfold findUid. intros H Hm.
  destruct (list_find _ _) as [[i [k v]]|] eqn:Hf; simplify_eq/=.
  apply list_find_None in Hf. rewrite Forall_forall in Hf.
  apply (Hf (uid, item)); [by apply elem_of_map_to_list | done].
Qed.

Lemma findUid_is_Some item (m : gmap Z (option addr)) uid :
  m !! uid = Some item → is_Some (findUid item m).
Proof.
  intros Hm. destruct (findUid item m) eqn:Hf; [eauto |].
  by apply (findUid_None _ _ uid) in Hf.
Qed.

Lemma addThing_item g env o i :
  thingAt g o = ItemThing i → item_removed i = false →
  item_uniqueIdAttr i = None →
  addThing g (Some o) env =
    match findUid (Some o) (localMap env) with
    | Some uid => (uid, env)
    | None =>
      let uid := wrap32 (lastUID env + 1) in
      (uid, set_localMap (<[uid := Some o]> (localMap env)) (set_lastUID uid env))
    end.
Proof.
  intros Ht Hr Hu. unfold addThing, creatureAt, uniqueIdOf, itemAt, getItem.
  rewrite Ht. simpl. rewrite Hr. unfold hasUniqueIdAttr. rewrite Hu.
  rewrite bool_decide_eq_false_2; [done | by intros [? ?]].
Qed.

(** ** C1: adding a reference and resolving it *)

(** C1, as stated, fails: after [insertItem(5, o)] on a new environment, as
    [luaItemTransform] does with the uid of the item it replaces, the item
    [o] (not removed, no creature, no unique id) is bound to uid 5;
    [addThing(o)] returns 5 and [getThingByUID(5)] asks the engine for the
    unique item 5, which is none. *)
Lemma addThing_resolve_counterexample :
  let g := gameOfItems in
  let o := 1%N in
  let env := (insertItem 5 (Some o) (newScriptEnvironment UINT16_MAX)).1 in
  isRemoved (thingAt g o) = false ∧ creatureAt g o = None
  ∧ uniqueIdOf g o = None
  ∧ (addThing g (Some o) env).1 = 5
  ∧ getThingByUID g (addThing g (Some o) env).2 (addThing g (Some o) env).1
    = Some None
  ∧ getThingByUID g (addThing g (Some o) env).2 (addThing g (Some o) env).1
    ≠ Some (Some o).
Proof. vm_compute. repeat split; congruence. Qed.

(** C1 (amended): for an item [o] that is not removed and has no unique id,
    [getThingByUID] of the uid [addThing] returns is [o] whenever that uid
    lies in the local range; a second [addThing] returns the same uid and
    leaves the environment as the first left it; the uid is bound to [o];
    and when [o] was bound under at most one uid before, it is bound under
    exactly that uid afterwards. *)
Theorem addThing_resolve (g : Game) (env : ScriptEnvironment) (o : addr) (i : Item) :
  thingAt g o = ItemThing i →
  item_removed i = false →
  item_uniqueIdAttr i = None →
  let uid := (addThing g (Some o) env).1 in
  let env' := (addThing g (Some o) env).2 in
  (UINT16_MAX < uid < CREATURE_ID_MIN →
     getThingByUID g env' uid = Some (Some o))
  ∧ addThing g (Some o) env' = (uid, env')
  ∧ localMap env' !! uid = Some (Some o)
  ∧ ((∀ k1 k2, localMap env !! k1 = Some (Some o) →
               localMap env !! k2 = Some (Some o) → k1 = k2) →
     ∀ k, localMap env' !! k = Some (Some o) ↔ k = uid).
Proof.
  intros Ht Hr Hu uid env'.
  assert (Hbound : localMap env' !! uid = Some (Some o)).
  { subst uid env'. rewrite (addThing_item _ _ _ _ Ht Hr Hu).
    destruct (findUid _ _) as [k|] eqn:Hf; simpl.
    - by apply findUid_Some.
    - by rewrite lookup_insert_eq. }
  assert (Hagain : addThing g (Some o) env' = (uid, env')).
  { subst uid env'. rewrite !(addThing_item _ _ _ _ Ht Hr Hu).
    destruct (findUid (Some o) (localMap env)) as [k|] eqn:Hf; simpl.
    - by rewrite Hf.
    - destruct (findUid _ (<[_ := _]> _)) as [k'|] eqn:Hf'.
      + apply findUid_Some in Hf'.
        destruct (decide (k' = wrap32 (lastUID env + 1))) as [->|Hne]; [done |].
        rewrite lookup_insert_ne in Hf' by done.
        by apply (findUid_None _ _ k') in Hf.
      + apply (findUid_None _ _ (wrap32 (lastUID env + 1))) in Hf'.
        by rewrite lookup_insert_eq in Hf'. }
  split_and!; [| done | done |].
  - intros [Hlo Hhi]. unfold getThingByUID.
    rewrite bool_decide_eq_false_2 by lia.
    rewrite bool_decide_eq_false_2 by lia.
    unfold localLookup. rewrite Hbound, Ht. simpl. by rewrite Hr.
  - intros Huniq k. split; [| by intros ->].
    subst uid env'. revert Hbound. rewrite (addThing_item _ _ _ _ Ht Hr Hu).
    destruct (findUid (Some o) (localMap env)) as [k0|] eqn:Hf; simpl.
    + intros Hb Hk. by apply Huniq.
    + intros _ Hk.
      destruct (decide (k = wrap32 (lastUID env + 1))) as [->|Hne]; [done |].
      rewrite lookup_insert_ne in Hk by done.
      by apply (findUid_None _ _ k) in Hf.
Qed.

Lemma addThing_resolve_witness :
  let g := gameOfItems in
  let env := newScriptEnvironment UINT16_MAX in
  let uid := (addThing g (Some 1%N) env).1 in
  let env' := (addThing g (Some 1%N) env).2 in
  uid = 65536
  ∧ getThingByUID g env' uid = Some (Some 1%N)
  ∧ addThing g (Some 1%N) env' = (uid, env')
  ∧ ∀ k, localMap env' !! k = Some (Some 1%N) ↔ k = uid.
Proof.
  intros g env uid env'.
  destruct (addThing_resolve gameOfItems (newScriptEnvironment UINT16_MAX)
              1%N plainItem eq_refl eq_refl eq_refl) as (H1 & H2 & _ & H4).
  split_and!.
  - reflexivity.
  - apply H1. vm_compute. split; reflexivity.
  - exact H2.
  - apply H4. intros k1 k2 Hk. vm_compute in Hk. discriminate.
Defined.

(** ** C7: nested callbacks *)

(** C7: on an environment that is processing a callback ([callbackId] not
    0), [setCallbackId] fails and returns the environment as it was, so the
    callback id and the interface are the old ones; on an environment with
    no callback it succeeds and stores the new id (and the interface it was
    given), leaving the other members alone. *)
Theorem setCallbackId_nested (newCallbackId : Z) (scriptInterface : option nat)
    (env : ScriptEnvironment) :
  (callbackId env ≠ 0 →
     (setCallbackId newCallbackId scriptInterface env).1.1 = false
     ∧ (setCallbackId newCallbackId scriptInterface env).1.2 = env)
  ∧ (callbackId env = 0 →
     let env' := (setCallbackId newCallbackId scriptInterface env).1.2 in
     (setCallbackId newCallbackId scriptInterface env).1.1 = true
     ∧ callbackId env' = newCallbackId
     ∧ interface env' = scriptInterface
     ∧ scriptId env' = scriptId env
     ∧ timerEvent env' = timerEvent env
     ∧ localMap env' = localMap env
     ∧ lastUID env' = lastUID env).
Proof.
  unfold setCallbackId. split; intros H.
  - by rewrite bool_decide_eq_true_2.
  - rewrite bool_decide_eq_false_2 by (intros ?; done). by simpl.
Qed.

(** Scenario 3 of the specification: callback 9 on an environment that
    processes callback 5. *)
Lemma setCallbackId_nested_witness :
  let busy := (setCallbackId 5 (Some 0%nat) (newScriptEnvironment UINT16_MAX)).1.2 in
  ((setCallbackId 9 (Some 1%nat) busy).1.1 = false
   ∧ (setCallbackId 9 (Some 1%nat) busy).1.2 = busy)
  ∧ callbackId busy = 5.
Proof.
  intros busy. split.
  - apply (proj1 (setCallbackId_nested 9 (Some 1%nat) busy)).
    vm_compute. discriminate.
  - apply (proj2 (setCallbackId_nested 5 (Some 0%nat)
                    (newScriptEnvironment UINT16_MAX))).
    reflexivity.
Defined.

(** ** C10: inserting under a uid that is taken *)

(** C10: [insertItem] on a uid that is bound in [localMap] gives the
    environment back unchanged, so the old binding is still there, and
    prints the diagnostic. *)
Theorem insertItem_taken (uid : Z) (item old : option addr)
    (env : ScriptEnvironment) :
  localMap env !! uid = Some old →
  insertItem uid item env
    = (env, ["Lua Script Error: Thing uid already taken."%string])
  ∧ localMap (insertItem uid item env).1 !! uid = Some old.
Proof.
  intros H. unfold insertItem. rewrite H. by split.
Qed.

Lemma insertItem_taken_witness :
  let env := (insertItem 70000 (Some 1%N) (newScriptEnvironment UINT16_MAX)).1 in
  insertItem 70000 (Some 2%N) env
    = (env, ["Lua Script Error: Thing uid already taken."%string])
  ∧ localMap (insertItem 70000 (Some 2%N) env).1 !! 70000 = Some (Some 1%N).
Proof.
  intros env. apply (insertItem_taken 70000 (Some 2%N) (Some 1%N) env).
  reflexivity.
Defined.

(** ** C8: the dispatch of [getThingByUID] *)

(** C8, as stated, fails at uid 0, which is neither in [1, 0xFFFF] nor at
    or above 0x10000000: the local table binds it to a live item, and
    [getThingByUID] asks the engine for the unique item 0 instead. *)
Lemma getThingByUID_dispatch_counterexample :
  let g := gameOfItems in
  let env := (insertItem 0 (Some 1%N) (newScriptEnvironment UINT16_MAX)).1 in
  ¬ (1 ≤ 0 ≤ UINT16_MAX) ∧ ¬ (CREATURE_ID_MIN ≤ 0)
  ∧ localLookup g (localMap env) 0 = Some (Some 1%N)
  ∧ getThingByUID g env 0 = Some None
  ∧ getThingByUID g env 0 ≠ localLookup g (localMap env) 0.
Proof.
  intros g env. split_and!.
  - unfold UINT16_MAX. lia.
  - unfold CREATURE_ID_MIN. lia.
  - reflexivity.
  - reflexivity.
  - vm_compute. discriminate.
Qed.

(** C8 (amended): a uid at or above 0x10000000 is answered by the creature
    lookup of the engine alone; a uid in [0, 0xFFFF], 0 included, by the
    unique-item lookup of the engine alone, with none for a removed item;
    any other uid by the local table of the environment alone, with none
    for an unbound uid and for a removed item. *)
Theorem getThingByUID_dispatch (g : Game) (env : ScriptEnvironment) (uid : Z) :
  (CREATURE_ID_MIN ≤ uid →
     getThingByUID g env uid = Some (getCreatureByID g uid))
  ∧ (uid ≤ UINT16_MAX →
     getThingByUID g env uid = uniqueItemLookup g uid
     ∧ ∀ item, getUniqueItem g uid = Some item →
               isRemoved (thingAt g item) = true →
               getThingByUID g env uid = Some None)
  ∧ (UINT16_MAX < uid < CREATURE_ID_MIN →
     getThingByUID g env uid = localLookup g (localMap env) uid
     ∧ (localMap env !! uid = None → getThingByUID g env uid = Some None)
     ∧ ∀ item, localMap env !! uid = Some (Some item) →
               isRemoved (thingAt g item) = true →
               getThingByUID g env uid = Some None).
Proof.
  unfold getThingByUID, CREATURE_ID_MIN, UINT16_MAX. split_and!.
  - intros H. by rewrite bool_decide_eq_true_2.
  - intros H. rewrite bool_decide_eq_false_2 by lia.
    rewrite bool_decide_eq_true_2 by lia. split; [done |].
    intros item Hi Hr. unfold uniqueItemLookup. by rewrite Hi, Hr.
  - intros H. rewrite bool_decide_eq_false_2 by lia.
    rewrite bool_decide_eq_false_2 by lia. split_and!; [done | |].
    + intros Hn. unfold localLookup. by rewrite Hn.
    + intros item Hi Hr. unfold localLookup. by rewrite Hi, Hr.
Qed.

Lemma getThingByUID_dispatch_witness :
  let g := gameOfItems in
  let env := (insertItem 70000 (Some 1%N) (newScriptEnvironment UINT16_MAX)).1 in
  getThingByUID g env 0x10000001 = Some None
  ∧ getThingByUID g env 0 = uniqueItemLookup g 0
  ∧ getThingByUID g env 70000 = localLookup g (localMap env) 70000.
Proof.
  intros g env. split_and!.
  - apply (proj1 (getThingByUID_dispatch g env 0x10000001)). vm_compute. discriminate.
  - apply (proj1 (proj2 (getThingByUID_dispatch g env 0))). vm_compute. discriminate.
  - apply (proj2 (proj2 (getThingByUID_dispatch g env 70000))).
    vm_compute. split; reflexivity.
Defined.

(** ** C4: the temp objects of an environment at reset *)

Lemma resetEnv_visit_nil g item : resetEnv_visit g item = [].
Proof. unfold resetEnv_visit. destruct item; [by case_bool_decide | done]. Qed.

Lemma resetEnv_engineCalls g this b :
  engineCalls (resetEnv g this b) = engineCalls b.
Proof.
  simpl. induction (equal_range this (tempItems b)) as [|item l IH]; simpl.
  - by rewrite app_nil_r.
  - by rewrite resetEnv_visit_nil.
Qed.

Lemma equal_range_filter_ne this other (l : list (nat * option addr)) :
  equal_range other (filter (λ e : nat * option addr, e.1 ≠ this) l) =
  if decide (other = this) then [] else equal_range other l.
Proof.
  unfold equal_range. rewrite list_filter_filter.
  destruct (decide (other = this)) as [->|Hne].
  - replace (filter _ l) with (@nil (nat * option addr)); [done |].
    symmetry. induction l as [|e l IH]; [done |].
    rewrite filter_cons_False; [done | tauto].
  - f_equal. apply list_filter_iff. intros e. split; [tauto |].
    intros He. split; [done | congruence].
Qed.

(** C4, as stated, fails: the environment 0 holds a temp item whose parent
    is the placeholder cylinder, and [resetEnv] makes no [ReleaseItem] call
    for it (the call is commented out in the source). *)
Lemma resetEnv_release_counterexample :
  let g := gameOfHeldItems in
  let b := addTempItem 0 (Some 1%N) newBridge in
  tempItemsOf 0 b = [Some 1%N]
  ∧ item_parent <$> itemAt g 1%N = Some (Some virtualCylinder)
  ∧ ReleaseItem 1%N ∉ engineCalls (resetEnv g 0 b).
Proof.
  intros g b. split_and!; [reflexivity | reflexivity |].
  vm_compute. apply not_elem_of_nil.
Qed.

(** C4 (amended): [resetEnv] erases every temp entry of the environment,
    whether or not the object is still held by the placeholder cylinder,
    and makes no call on the engine; afterwards the environment has no temp
    entry and an empty local table, and the temp entries of the other
    environments are as before. *)
Theorem resetEnv_tempItems (g : Game) (this : nat) (b : Bridge) :
  tempItemsOf this (resetEnv g this b) = []
  ∧ engineCalls (resetEnv g this b) = engineCalls b
  ∧ (∀ env, scriptEnv (resetEnv g this b) !! this = Some env →
            localMap env = ∅)
  ∧ (∀ other, other ≠ this →
       tempItemsOf other (resetEnv g this b) = tempItemsOf other b).
Proof.
  split_and!.
  - unfold tempItemsOf. simpl. rewrite equal_range_filter_ne.
    by rewrite decide_True.
  - apply resetEnv_engineCalls.
  - simpl. intros env. rewrite list_lookup_alter.
    rewrite decide_True by done.
    destruct (scriptEnv b !! this); simpl; intros H; by simplify_eq.
  - intros other Hne. unfold tempItemsOf. simpl.
    rewrite equal_range_filter_ne. by rewrite decide_False.
Qed.

Lemma resetEnv_tempItems_witness :
  let g := gameOfHeldItems in
  let b := addTempItem 1 (Some 2%N) (addTempItem 0 (Some 1%N) newBridge) in
  tempItemsOf 0 (resetEnv g 0 b) = []
  ∧ tempItemsOf 1 (resetEnv g 0 b) = [Some 2%N]
  ∧ ∀ env, scriptEnv (resetEnv g 0 b) !! 0%nat = Some env → localMap env = ∅.
Proof.
  intros g b.
  destruct (resetEnv_tempItems g 0 b) as (H1 & _ & H3 & H4).
  split_and!; [exact H1 | | exact H3].
  rewrite (H4 1%nat); [reflexivity | discriminate].
Defined.

(** ** C5: the result cache *)

(** C5, as stated, fails: [tempResults] is a static member, so the reset of
    environment 1 empties the cache that environment 0 reads. *)
Lemma tempResults_private_counterexample :
  let g := gameOfItems in
  let b := (addResult (Some 7%N) newBridge).2 in
  (0 ≠ 1)%nat
  ∧ getResultByID 1 b = Some 7%N
  ∧ getResultByID 1 (resetEnv g 1 b) = None
  ∧ tempResultsOf 0 (resetEnv g 1 b) ≠ tempResultsOf 0 b.
Proof.
  intros g b. split_and!; [done | reflexivity | reflexivity |].
  intros H. apply (f_equal (λ m : gmap Z (option N), m !! 1)) in H.
  vm_compute in H. discriminate.
Qed.

(** C5 (amended): the result cache is one static map that every environment
    reads: a result added is in the cache of every environment, and the
    reset of any environment empties it for all of them.  The members of
    another environment (script id, callback id, timer flag, interface,
    local table) are changed neither by [addResult] nor by the reset. *)
Theorem tempResults_static (g : Game) (this other : nat) (res : option N)
    (b : Bridge) :
  tempResultsOf other (resetEnv g this b) = ∅
  ∧ tempResultsOf other (addResult res b).2
    = <[(addResult res b).1 := res]> (tempResultsOf this b)
  ∧ scriptEnv (addResult res b).2 = scriptEnv b
  ∧ (other ≠ this →
     scriptEnv (resetEnv g this b) !! other = scriptEnv b !! other).
Proof.
  split_and!; [done | done | done |].
  intros Hne. simpl. by rewrite list_lookup_alter_ne.
Qed.

Lemma tempResults_static_witness :
  let g := gameOfItems in
  let b := (addResult (Some 7%N) newBridge).2 in
  tempResultsOf 0 (resetEnv g 1 b) = ∅
  ∧ scriptEnv (resetEnv g 1 b) !! 0%nat = scriptEnv b !! 0%nat.
Proof.
  intros g b.
  destruct (tempResults_static g 1 0 None b) as (H1 & _ & _ & H4).
  split; [exact H1 | apply H4; discriminate].
Defined.

(** * The type test *)

(** Whatever the two arguments are, as long as each has a metatable: the
    four numbers [luaIsType] compares are all read at stack index 1, the
    first argument, so no step is taken along the chain and the two hashes
    are equal. *)
Lemma luaIsType_true (str2d : string → option Z) (l : lua_State)
    (derived base : Value) (md mb : N) (od ob : Object) :
  stack l = [derived; base] →
  metatableOf l derived = Some md →
  metatableOf l base = Some mb →
  heap l !! md = Some od →
  heap l !! mb = Some ob →
  luaIsType str2d l =
    Some (1, set_stack [derived; base; Table md; Table mb;
                        default Nil (fields od !! KInt key_p);
                        default Nil (fields od !! KInt key_h);
                        default Nil (fields ob !! KInt key_p);
                        default Nil (fields ob !! KInt key_h);
                        Boolean true] l).
Proof.
  intros Hst Hmd Hmb Hod Hob. unfold luaIsType.
  step. { eapply lua_getmetatable_Some; [by rewrite Hst | exact Hmd]. }
  rewrite Hst. simpl app.
  step. { eapply lua_getmetatable_Some; [reflexivity |].
          by rewrite metatableOf_set_stack. }
  simpl stack. simpl app. rewrite set_stack_set_stack.
  step. { eapply lua_rawgeti_eq; [reflexivity | exact Hod]. }
  simpl stack. simpl app. rewrite set_stack_set_stack.
  step. { apply getNumber_eq. }
  step. { eapply lua_rawgeti_eq; [reflexivity | exact Hod]. }
  simpl stack. simpl app. rewrite set_stack_set_stack.
  step. { apply getNumber_eq. }
  step. { eapply lua_rawgeti_eq; [reflexivity | exact Hob]. }
  simpl stack. simpl app. rewrite set_stack_set_stack.
  step. { apply getNumber_eq. }
  simpl stack. change (indexValue _ 1) with (Some derived). simpl default.
  rewrite Z.sub_diag. simpl repeatM.
  step. { reflexivity. }
  step. { eapply lua_rawgeti_eq; [reflexivity | exact Hob]. }
  simpl stack. simpl app. rewrite set_stack_set_stack.
  step. { apply getNumber_eq. }
  simpl stack. change (indexValue _ 1) with (Some derived). simpl default.
  rewrite bool_decide_eq_true_2 by done.
  reflexivity.
Qed.

(** C2 (the code at the failing input): with [Item] and [Tile] registered
    as two root classes, whatever the hash function, [isType] of an
    instance of [Item] and an instance of [Tile] pushes [true]; the values
    it pushed before are the depth and the hash of [Item] and the depth and
    the hash of [Tile], none of which it compared. *)
Theorem luaIsType_unrelated (hash : string → Z) (str2d : string → option Z) :
  ∃ l : lua_State,
    isType_Item_Tile hash str2d emptyState = Some (1, l)
    ∧ stack l = [Userdata 6; Userdata 7; Table 2; Table 5;
                 Number 0; Number (hash "Item");
                 Number 0; Number (hash "Tile");
                 Boolean true].
Proof.
  eexists. split; [vm_compute; reflexivity | reflexivity].
Qed.

(** * Timer events *)

Lemma luaL_unref_eq ref l : luaL_unref ref l = Some (tt, released [ref] l).
Proof. done. Qed.

Lemma released_app refs1 refs2 l :
  released refs2 (released refs1 l) = released (refs1 ++ refs2) l.
Proof.
  unfold released. simpl. f_equal.
  - by rewrite foldl_app.
  - by rewrite app_assoc.
Qed.

Lemma released_nil l : released [] l = l.
Proof. destruct l. unfold released. simpl. by rewrite app_nil_r. Qed.

Lemma forM_unref refs w :
  forM refs (λ parameter, liftL (luaL_unref parameter)) w
    = Some (tt, set_L (released refs (L w)) w).
Proof.
  revert w. induction refs as [|r refs IH]; intros w; simpl.
  - by rewrite released_nil, set_L_L.
  - step. { apply liftL_Some. apply luaL_unref_eq. }
    rewrite IH. simpl. by rewrite released_app.
Qed.

Lemma forM_rawgeti_registry refs w :
  forM refs (λ parameter, liftL (lua_rawgeti_registry parameter)) w
    = Some (tt, set_L (set_stack
        (stack (L w) ++
         ((λ ref, default Nil (registry (L w) !! KInt ref)) <$> refs)) (L w)) w).
Proof.
  revert w. induction refs as [|r refs IH]; intros w; simpl.
  - rewrite app_nil_r. by rewrite set_stack_stack, set_L_L.
  - step. { apply liftL_Some. reflexivity. }
    rewrite IH. simpl. by rewrite <- app_assoc.
Qed.

Section Timers.

Variable g : Game.
Variable str2d : string → option Z.
Variable vm : Value → list Value → World → Z * list Value * World.
Variable this : nat.

Lemma luaStopEvent_unknown (w : World) :
  timerEvents w !! tokenOf str2d w = None →
  luaStopEvent str2d w
    = Some (1, set_L (set_stack (stack (L w) ++ [Boolean false]) (L w)) w).
Proof.
  intros H. unfold luaStopEvent.
  step. { apply liftL_Some. apply getNumber_eq. }
  rewrite set_L_L. step; [reflexivity |].
  fold (tokenOf str2d w). rewrite H.
  step. { apply liftL_Some. reflexivity. }
  done.
Qed.

Lemma luaStopEvent_known (w : World) (d : LuaTimerEventDesc) :
  timerEvents w !! tokenOf str2d w = Some d →
  luaStopEvent str2d w
    = Some (1,
        set_L (set_stack (stack (L w) ++ [Boolean true])
                 (released (desc_function d :: desc_parameters d) (L w)))
          (set_scheduler (Scheduler_stopEvent (desc_eventId d) (scheduler w))
             (set_timerEvents (delete (tokenOf str2d w) (timerEvents w)) w))).
Proof.
  intros H. unfold luaStopEvent.
  step. { apply liftL_Some. apply getNumber_eq. }
  rewrite set_L_L. step; [reflexivity |].
  fold (tokenOf str2d w). rewrite H.
  step; [reflexivity |]. step; [reflexivity |].
  step. { apply liftL_Some. apply luaL_unref_eq. }
  step. { apply forM_unref. }
  step. { apply liftL_Some. reflexivity. }
  simpl. rewrite released_app. done.
Qed.

Lemma executeTimerEvent_absent (eventIndex : Z) (w : World) :
  timerEvents w !! eventIndex = None →
  executeTimerEvent g vm this eventIndex w = Some (tt, w).
Proof.
  intros H. unfold executeTimerEvent. step; [reflexivity |]. by rewrite H.
Qed.

Lemma adjustResults_1 (results : list Value) :
  ∃ v, adjustResults 1 results = [v].
Proof.
  unfold adjustResults. destruct results as [|v rs]; simpl; eauto.
Qed.

Lemma protectedCall_eq (w : World) (S : list Value) (fv : Value)
    (pvs : list Value) :
  stack (L w) = S ++ fv :: pvs →
  ∃ v : Value,
    protectedCall vm (Z.of_nat (length pvs)) 1 w =
      let wc := set_L (set_stack
                  (S ++ CFunc (boundFunction "luaErrorHandler") :: fv :: pvs)
                  (L w)) w in
      Some ((vm fv pvs wc).1.1,
            set_L (set_stack (S ++ [v]) (L (vm fv pvs wc).2)) (vm fv pvs wc).2).
Proof.
  intros Hs. unfold protectedCall.
  set (H := CFunc (boundFunction "luaErrorHandler")).
  set (wc := set_L (set_stack (S ++ H :: fv :: pvs) (L w)) w).
  destruct (vm fv pvs wc) as [[status results] wv] eqn:Hvm.
  destruct (adjustResults_1 results) as [v Hv]. exists v. cbv zeta.
  step. { apply liftL_Some. apply lua_gettop_eq. }
  rewrite set_L_L.
  replace (Z.of_nat (length (stack (L w))) - Z.of_nat (length pvs))
    with (Z.of_nat (length S) + 1)
    by (rewrite Hs, length_app; simpl; lia).
  step. { apply liftL_Some. reflexivity. }
  step. { apply liftL_Some. norm.
          eapply (lua_insert_eq _ _ (S ++ fv :: pvs) H (length S)).
          - norm. by rewrite Hs.
          - norm. rewrite Hs.
            replace ((S ++ fv :: pvs) ++ [H]) with ((S ++ [fv]) ++ pvs ++ [H])
              by (by rewrite <- !app_assoc).
            rewrite indexSlot_bottom; rewrite ?length_app; simpl; [f_equal; lia | lia]. }
  norm. rewrite take_app_length, drop_app_length. fold wc.
  step.
  { unfold lua_pcall. step; [reflexivity |].
    change (stack (L wc)) with (S ++ H :: fv :: pvs).
    rewrite bool_decide_eq_true_2; last first.
    { rewrite length_app. simpl. lia. }
    replace (length (S ++ H :: fv :: pvs) - Z.to_nat (Z.of_nat (length pvs)) - 1)%nat
      with (length (S ++ [H])) by (rewrite !length_app; simpl; lia).
    replace (length (S ++ H :: fv :: pvs) - Z.to_nat (Z.of_nat (length pvs)))%nat
      with (length (S ++ [H; fv])) by (rewrite !length_app; simpl; lia).
    assert (E1 : (S ++ H :: fv :: pvs) !! length (S ++ [H]) = Some fv).
    { replace (S ++ H :: fv :: pvs) with ((S ++ [H]) ++ fv :: pvs)
        by (by rewrite <- app_assoc).
      rewrite lookup_app_r by lia. by rewrite Nat.sub_diag. }
    assert (E2 : drop (length (S ++ [H; fv])) (S ++ H :: fv :: pvs) = pvs).
    { replace (S ++ H :: fv :: pvs) with ((S ++ [H; fv]) ++ pvs)
        by (by rewrite <- app_assoc).
      by rewrite drop_app_length. }
    assert (E3 : take (length (S ++ [H])) (S ++ H :: fv :: pvs) = S ++ [H]).
    { replace (S ++ H :: fv :: pvs) with ((S ++ [H]) ++ fv :: pvs)
        by (by rewrite <- app_assoc).
      by rewrite take_app_length. }
    rewrite E1, E2, E3. step; [reflexivity |].
    rewrite Hvm. step; [reflexivity |]. reflexivity. }
  replace (if bool_decide (status = 0) then adjustResults 1 results
           else adjustResults 1 results) with [v] by (by destruct (bool_decide _)).
  step.
  { apply liftL_Some. norm.
    eapply (lua_remove_eq _ _ (length S)). norm.
    replace ((S ++ [H]) ++ [v]) with ((S ++ [H]) ++ [v] ++ []) by done.
    rewrite indexSlot_bottom; rewrite ?length_app; simpl; [f_equal; lia | lia]. }
  norm. rewrite <- app_assoc. simpl.
  replace (delete (length S) (S ++ [H; v])) with (S ++ [v]); [done |].
  clear. induction S; simpl; [done | by f_equal].
Qed.

End Timers.

(** ** The steps of a call *)

Section CallSteps.

Variable g : Game.
Variable vm : Value → list Value → World → Z * list Value * World.

Lemma adjustResults_1_eq (results : list Value) :
  adjustResults 1 results = [default Nil (head results)].
Proof. unfold adjustResults. by destruct results. Qed.

Lemma protectedCall_spec (w : World) (s : list Value) (fv : Value)
    (pvs : list Value) :
  stack (L w) = s ++ fv :: pvs →
  protectedCall vm (Z.of_nat (length pvs)) 1 w
  = Some ((vm fv pvs (callWorld s fv pvs w)).1.1,
          set_L (set_stack
                   (s ++ [default Nil
                            (head (vm fv pvs (callWorld s fv pvs w)).1.2)])
                   (L (vm fv pvs (callWorld s fv pvs w)).2))
            (vm fv pvs (callWorld s fv pvs w)).2).
Proof.
  intros Hs. destruct (protectedCall_eq vm w s fv pvs Hs) as [v Hv].
  cbv zeta in Hv. fold (callWorld s fv pvs w) in Hv.
  (* the value left is the first result *)
  unfold protectedCall in *.
  set (H := CFunc (boundFunction "luaErrorHandler")) in *.
  set (wc := callWorld s fv pvs w) in *.
  destruct (vm fv pvs wc) as [[status results] wv] eqn:Hvm.
  revert Hv.
  step. { apply liftL_Some. apply lua_gettop_eq. }
  rewrite set_L_L.
  replace (Z.of_nat (length (stack (L w))) - Z.of_nat (length pvs))
    with (Z.of_nat (length s) + 1)
    by (rewrite Hs, length_app; simpl; lia).
  step. { apply liftL_Some. reflexivity. }
  step. { apply liftL_Some. norm.
          eapply (lua_insert_eq _ _ (s ++ fv :: pvs) H (length s)).
          - norm. by rewrite Hs.
          - norm. rewrite Hs.
            replace ((s ++ fv :: pvs) ++ [H]) with ((s ++ [fv]) ++ pvs ++ [H])
              by (by rewrite <- !app_assoc).
            rewrite indexSlot_bottom; rewrite ?length_app; simpl;
              [f_equal; lia | lia]. }
  norm. rewrite take_app_length, drop_app_length.
  change (set_L (set_stack (s ++ H :: fv :: pvs) (L w)) w) with wc.
  step.
  { unfold lua_pcall. step; [reflexivity |].
    change (stack (L wc)) with (s ++ H :: fv :: pvs).
    rewrite bool_decide_eq_true_2; last first.
    { rewrite length_app. simpl. lia. }
    replace (length (s ++ H :: fv :: pvs) - Z.to_nat (Z.of_nat (length pvs)) - 1)%nat
      with (length (s ++ [H])) by (rewrite !length_app; simpl; lia).
    replace (length (s ++ H :: fv :: pvs) - Z.to_nat (Z.of_nat (length pvs)))%nat
      with (length (s ++ [H; fv])) by (rewrite !length_app; simpl; lia).
    assert (E1 : (s ++ H :: fv :: pvs) !! length (s ++ [H]) = Some fv).
    { replace (s ++ H :: fv :: pvs) with ((s ++ [H]) ++ fv :: pvs)
        by (by rewrite <- app_assoc).
      rewrite lookup_app_r by lia. by rewrite Nat.sub_diag. }
    assert (E2 : drop (length (s ++ [H; fv])) (s ++ H :: fv :: pvs) = pvs).
    { replace (s ++ H :: fv :: pvs) with ((s ++ [H; fv]) ++ pvs)
        by (by rewrite <- app_assoc).
      by rewrite drop_app_length. }
    assert (E3 : take (length (s ++ [H])) (s ++ H :: fv :: pvs) = s ++ [H]).
    { replace (s ++ H :: fv :: pvs) with ((s ++ [H]) ++ fv :: pvs)
        by (by rewrite <- app_assoc).
      by rewrite take_app_length. }
    rewrite E1, E2, E3. step; [reflexivity |].
    rewrite Hvm. step; [reflexivity |]. reflexivity. }
  replace (if bool_decide (status = 0) then adjustResults 1 results
           else adjustResults 1 results)
    with [default Nil (head results)]
    by (rewrite adjustResults_1_eq; by destruct (bool_decide _)).
  intros _.
  step.
  { apply liftL_Some. norm.
    eapply (lua_remove_eq _ _ (length s)). norm.
    replace ((s ++ [H]) ++ [default Nil (head results)])
      with ((s ++ [H]) ++ [default Nil (head results)] ++ []) by done.
    rewrite indexSlot_bottom; rewrite ?length_app; simpl; [f_equal; lia | lia]. }
  norm. rewrite <- app_assoc. simpl.
  replace (delete (length s) (s ++ [H; default Nil (head results)]))
    with (s ++ [default Nil (head results)]); [done |].
  clear. induction s; simpl; [done | by f_equal].
Qed.

Lemma callFunction_run (w : World) (s : list Value) (fv : Value)
    (pvs : list Value) :
  keepsPool vm →
  stack (L w) = s ++ fv :: pvs →
  0 ≤ scriptEnvIndex (bridge w) < Z.of_nat (length (scriptEnv (bridge w))) →
  ∃ w',
    callFunction g vm (Z.of_nat (length pvs)) w
    = Some (if bool_decide ((vm fv pvs (callWorld s fv pvs w)).1.1 ≠ 0)
            then false
            else truthOf (default Nil
                            (head (vm fv pvs (callWorld s fv pvs w)).1.2)),
            w')
    ∧ L w' = set_stack s (L (vm fv pvs (callWorld s fv pvs w)).2)
    ∧ output w'
      = output (vm fv pvs (callWorld s fv pvs w)).2
        ++ (if bool_decide ((vm fv pvs (callWorld s fv pvs w)).1.1 ≠ 0)
            then [stringOf (default Nil
                              (head (vm fv pvs (callWorld s fv pvs w)).1.2))]
            else [])
    ∧ timerEvents w' = timerEvents (vm fv pvs (callWorld s fv pvs w)).2
    ∧ scriptEnvIndex (bridge w') = scriptEnvIndex (bridge w) - 1
    ∧ bridge w'
      = set_scriptEnvIndex (scriptEnvIndex (bridge w) - 1)
          (resetEnv g (Z.to_nat (scriptEnvIndex (bridge w)))
             (bridge (vm fv pvs (callWorld s fv pvs w)).2)).
Proof.
  intros Hpool Hs Hidx. unfold callFunction.
  pose proof (protectedCall_spec w s fv pvs Hs) as Hpc.
  set (wc := callWorld s fv pvs w) in *.
  destruct (Hpool fv pvs wc) as [Hpi Hpl].
  destruct (vm fv pvs wc) as [[status results] wv] eqn:Hvm.
  simpl in Hpc, Hpi, Hpl. simpl.
  set (v := default Nil (head results)) in *.
  step. { apply liftL_Some. apply lua_gettop_eq. }
  rewrite set_L_L. step. { exact Hpc. }
  assert (Hres :
    (if bool_decide (status ≠ 0)
     then liftL (getString (-1)) ≫= λ message : string,
            reportError message ≫= λ _ : (), mret false
     else liftL (lua_toboolean (-1)))
      (set_L (set_stack (s ++ [v]) (L wv)) wv)
    = Some (if bool_decide (status ≠ 0) then false else truthOf v,
            set_output (output wv ++ if bool_decide (status ≠ 0)
                                     then [stringOf v] else [])
              (set_L (set_stack (s ++ [v]) (L wv)) wv))).
  { case_bool_decide.
    - step.
      { apply liftL_Some. unfold getString. step; [reflexivity |].
        unfold index2adr. norm.
        rewrite (indexValue_top s [v] (-1)) by (simpl; lia). reflexivity. }
      step; [reflexivity |]. norm. simpl. by destruct v.
    - unfold liftL, lua_toboolean. simpl. unfold index2adr. simpl.
      rewrite (indexValue_top s [v] (-1)) by (simpl; lia). simpl.
      rewrite app_nil_r. unfold set_output, set_L. simpl.
      by destruct v as [| [] | | | | | |], wv. }
  step. { exact Hres. }
  step. { apply liftL_Some. norm. by apply (lua_pop_eq 1 _ s [v]). }
  norm. step. { apply liftL_Some. apply lua_gettop_eq. }
  norm. rewrite Hs.
  rewrite (bool_decide_eq_false_2 (_ + _ + 1 ≠ _)); last first.
  { rewrite length_app. simpl. lia. }
  step; [reflexivity |].
  assert (Hin : 0 ≤ scriptEnvIndex (bridge wv)
                < Z.of_nat (length (scriptEnv (bridge wv)))).
  { unfold wc, callWorld in Hpi, Hpl. simpl in Hpi, Hpl. lia. }
  step.
  { unfold resetScriptEnv. step. { apply getScriptEnv_eq. norm. exact Hin. }
    reflexivity. }
  eexists. split; [reflexivity |]. norm.
  unfold wc, callWorld in Hpi. simpl in Hpi.
  split; [done |].
  split; [done |]. split; [done |]. split.
  - simpl. lia.
  - simpl. by rewrite Hpi.
Qed.

End CallSteps.

Section TimerRun.

Variable g : Game.
Variable vm : Value → list Value → World → Z * list Value * World.
Variable this : nat.

(** The whole of [executeTimerEvent] for a pending event.  With an
    environment free the script is called in the world [wc] and the world
    [w_mid], in which the references are then released, is the world the
    script left, with the stack as it was before the event; without one
    [w_mid] is the world before the event with the event erased, the
    function and the arguments pushed and the error reported. *)
Lemma executeTimerEvent_run (eventIndex : Z) (w : World)
    (d : LuaTimerEventDesc) :
  keepsPool vm →
  timerEvents w !! eventIndex = Some d →
  -1 ≤ scriptEnvIndex (bridge w) →
  let fv := default Nil (registry (L w) !! KInt (desc_function d)) in
  let pvs := (λ ref, default Nil (registry (L w) !! KInt ref))
               <$> reverse (desc_parameters d) in
  ∃ w_mid : World,
    executeTimerEvent g vm this eventIndex w
      = Some (tt, set_L (released (desc_function d :: desc_parameters d)
                           (L w_mid)) w_mid)
    ∧ if bool_decide (scriptEnvIndex (bridge w) + 1
                      < Z.of_nat (length (scriptEnv (bridge w))))
      then
        ∃ (wc : World) (env : ScriptEnvironment),
          L wc = set_stack
                   (stack (L w)
                    ++ CFunc (boundFunction "luaErrorHandler") :: fv :: pvs)
                   (L w)
          ∧ timerEvents wc = delete eventIndex (timerEvents w)
          ∧ scriptEnvIndex (bridge wc) = scriptEnvIndex (bridge w) + 1
          ∧ scriptEnv (bridge wc) !! Z.to_nat (scriptEnvIndex (bridge wc))
            = Some env
          ∧ scriptId env = desc_scriptId d
          ∧ timerEvent env = true
          ∧ interface env = Some this
          ∧ L w_mid = set_stack (stack (L w)) (L (vm fv pvs wc).2)
          ∧ timerEvents w_mid = timerEvents (vm fv pvs wc).2
          ∧ scriptEnvIndex (bridge w_mid) = scriptEnvIndex (bridge w)
          ∧ output w_mid
            = output (vm fv pvs wc).2
              ++ (if bool_decide ((vm fv pvs wc).1.1 ≠ 0)
                  then [stringOf (default Nil (head (vm fv pvs wc).1.2))]
                  else [])
      else
        w_mid
        = set_output
            (output w
             ++ ["[Error - LuaScriptInterface::executeTimerEvent] Call stack overflow"%string])
            (set_bridge
               (set_scriptEnvIndex (scriptEnvIndex (bridge w) + 1) (bridge w))
               (set_L (set_stack (stack (L w) ++ fv :: pvs) (L w))
                  (set_timerEvents (delete eventIndex (timerEvents w)) w))).
Proof.
  intros Hpool Hd Hidx fv pvs. unfold executeTimerEvent.
  assert (Hlen : length (desc_parameters d) = length pvs).
  { unfold pvs. by rewrite length_fmap, length_reverse. }
  case_bool_decide as Hfree.
  - set (w0 := set_L (set_stack (stack (L w) ++ fv :: pvs) (L w))
                 (set_timerEvents (delete eventIndex (timerEvents w)) w)).
    set (w1 := set_bridge
                 (set_scriptEnvIndex (scriptEnvIndex (bridge w) + 1) (bridge w))
                 w0).
    assert (Hlk : is_Some (scriptEnv (bridge w1)
                     !! Z.to_nat (scriptEnvIndex (bridge w1)))).
    { apply lookup_lt_is_Some. subst w1 w0. norm. lia. }
    destruct Hlk as [env Henv].
    pose proof (onScriptEnv_eq setTimerEvent w1 env) as H1.
    set (w2 := set_bridge _ w1) in H1.
    assert (Henv2 : scriptEnv (bridge w2)
                      !! Z.to_nat (scriptEnvIndex (bridge w2))
                    = Some (setTimerEvent env).2).
    { subst w2. norm. apply list_lookup_insert_eq.
      by apply lookup_lt_Some in Henv. }
    pose proof (onScriptEnv_eq (setScriptId (desc_scriptId d) (Some this))
                  w2 (setTimerEvent env).2) as H2.
    set (w3 := set_bridge _ w2) in H2.
    destruct (callFunction_run g vm w3 (stack (L w)) fv pvs Hpool)
      as (w4 & Hcall & HL & Hout & Ht & Hi & _).
    { subst w3 w2 w1 w0. norm. reflexivity. }
    { subst w3 w2 w1 w0. norm. rewrite !length_insert. lia. }
    exists w4. split.
    + step; [reflexivity |]. rewrite Hd.
      step; [reflexivity |].
      step. { apply liftL_Some. reflexivity. }
      step. { apply forM_rawgeti_registry. }
      norm. fold fv. fold pvs. rewrite <- app_assoc.
      change ([fv] ++ pvs) with (fv :: pvs).
      step. { apply reserveScriptEnv_eq. }
      norm. rewrite bool_decide_eq_true_2 by exact Hfree.
      fold w0. fold w1.
      step.
      { step. { apply H1; [subst w1 w0; norm; lia | exact Henv]. }
        step. { apply H2; [subst w2 w1 w0; norm; lia | exact Henv2]. }
        rewrite Hlen. step; [exact Hcall |]. reflexivity. }
      step. { apply liftL_Some. apply luaL_unref_eq. }
      rewrite forM_unref. norm. rewrite released_app. reflexivity.
    + exists (callWorld (stack (L w)) fv pvs w3),
             (setScriptId (desc_scriptId d) (Some this) (setTimerEvent env).2).2.
      split. { subst w3 w2 w1 w0. unfold callWorld. simpl.
               by rewrite set_stack_set_stack. }
      split; [done |]. split; [done |].
      split.
      { unfold callWorld. subst w3. norm. apply list_lookup_insert_eq.
        subst w2. norm. rewrite length_insert. by apply lookup_lt_Some in Henv. }
      split; [done |]. split; [done |]. split; [done |].
      split; [exact HL |]. split; [exact Ht |].
      split. { rewrite Hi. subst w3 w2 w1 w0. norm. lia. }
      exact Hout.
  - eexists. split; [| reflexivity].
    step; [reflexivity |]. rewrite Hd.
    step; [reflexivity |].
    step. { apply liftL_Some. reflexivity. }
    step. { apply forM_rawgeti_registry. }
    norm. fold fv. fold pvs. rewrite <- app_assoc.
    change ([fv] ++ pvs) with (fv :: pvs).
    step. { apply reserveScriptEnv_eq. }
    norm. rewrite bool_decide_eq_false_2 by exact Hfree.
    step; [reflexivity |].
    step. { apply liftL_Some. apply luaL_unref_eq. }
    rewrite forM_unref. norm. rewrite released_app. reflexivity.
Qed.

End TimerRun.

Section TimerClaims.

Variable g : Game.
Variable str2d : string → option Z.
Variable vm : Value → list Value → World → Z * list Value * World.
Variable this : nat.

(** C3: [stopEvent] of a token that is not pending (never issued, fired or
    stopped before) pushes [false] and changes nothing else: the timers, the
    scheduler and the registry are as before.  [stopEvent] of a pending
    token erases the descriptor, stops the task of the scheduler, gives the
    callback reference and every argument reference to [luaL_unref] once
    each, and pushes [true]; the timer function run for the token
    afterwards does nothing.  [executeTimerEvent] of a pending token ends,
    whether the call of the script succeeded, failed or could not be made,
    by giving the callback reference and every argument reference to
    [luaL_unref] once each, in the world [w_mid].  That world is the one
    the script left, with the stack as it was before the event, when an
    environment was free: the script was called on the function and the
    arguments the references hold, in a world in which the event is no
    longer pending and nothing has been released.  Without a free
    environment [w_mid] is the world before the event with the event
    erased, the function and the arguments pushed and the error reported.
    So the calls of [luaL_unref] after the event are those the script made
    followed by one for each reference.  When the script did not schedule
    under the same token again, the token is not pending afterwards, so
    that a later [stopEvent] of it fails. *)
Theorem timer_stop_and_fire (w : World) (eventIndex : Z) :
  (timerEvents w !! tokenOf str2d w = None →
     luaStopEvent str2d w
       = Some (1, set_L (set_stack (stack (L w) ++ [Boolean false]) (L w)) w))
  ∧ (∀ d : LuaTimerEventDesc,
       timerEvents w !! tokenOf str2d w = Some d →
       ∃ w' : World,
         luaStopEvent str2d w = Some (1, w')
         ∧ L w' = set_stack (stack (L w) ++ [Boolean true])
                    (released (desc_function d :: desc_parameters d) (L w))
         ∧ timerEvents w' = delete (tokenOf str2d w) (timerEvents w)
         ∧ scheduler w'
           = Scheduler_stopEvent (desc_eventId d) (scheduler w)
         ∧ bridge w' = bridge w
         ∧ executeTimerEvent g vm this (tokenOf str2d w) w' = Some (tt, w'))
  ∧ (∀ d : LuaTimerEventDesc,
       timerEvents w !! eventIndex = Some d →
       keepsPool vm →
       -1 ≤ scriptEnvIndex (bridge w) →
       let fv := default Nil (registry (L w) !! KInt (desc_function d)) in
       let pvs := (λ ref, default Nil (registry (L w) !! KInt ref))
                    <$> reverse (desc_parameters d) in
       ∃ w_mid : World,
         executeTimerEvent g vm this eventIndex w
           = Some (tt, set_L (released (desc_function d :: desc_parameters d)
                                (L w_mid)) w_mid)
         ∧ (keepsFree vm eventIndex →
            timerEvents
              (set_L (released (desc_function d :: desc_parameters d)
                        (L w_mid)) w_mid) !! eventIndex = None)
         ∧ unrefCalls
             (L (set_L (released (desc_function d :: desc_parameters d)
                          (L w_mid)) w_mid))
           = unrefCalls (L w_mid) ++ desc_function d :: desc_parameters d
         ∧ if bool_decide (scriptEnvIndex (bridge w) + 1
                           < Z.of_nat (length (scriptEnv (bridge w))))
           then
             ∃ (wc : World) (env : ScriptEnvironment),
               L wc = set_stack
                        (stack (L w)
                         ++ CFunc (boundFunction "luaErrorHandler")
                            :: fv :: pvs)
                        (L w)
               ∧ timerEvents wc = delete eventIndex (timerEvents w)
               ∧ scriptEnvIndex (bridge wc) = scriptEnvIndex (bridge w) + 1
               ∧ scriptEnv (bridge wc) !! Z.to_nat (scriptEnvIndex (bridge wc))
                 = Some env
               ∧ scriptId env = desc_scriptId d
               ∧ timerEvent env = true
               ∧ interface env = Some this
               ∧ L w_mid = set_stack (stack (L w)) (L (vm fv pvs wc).2)
               ∧ timerEvents w_mid = timerEvents (vm fv pvs wc).2
               ∧ scriptEnvIndex (bridge w_mid) = scriptEnvIndex (bridge w)
               ∧ output w_mid
                 = output (vm fv pvs wc).2
                   ++ (if bool_decide ((vm fv pvs wc).1.1 ≠ 0)
                       then [stringOf
                               (default Nil (head (vm fv pvs wc).1.2))]
                       else [])
           else
             w_mid
             = set_output
                 (output w
                  ++ ["[Error - LuaScriptInterface::executeTimerEvent] Call stack overflow"%string])
                 (set_bridge
                    (set_scriptEnvIndex (scriptEnvIndex (bridge w) + 1)
                       (bridge w))
                    (set_L (set_stack (stack (L w) ++ fv :: pvs) (L w))
                       (set_timerEvents (delete eventIndex (timerEvents w))
                          w)))).
Proof.
  split_and!.
  - apply luaStopEvent_unknown.
  - intros d Hd. eexists. split_and!.
    + by apply luaStopEvent_known.
    + done.
    + done.
    + done.
    + done.
    + apply executeTimerEvent_absent. simpl. apply lookup_delete_eq.
  - intros d Hd Hpool Hidx fv pvs.
    destruct (executeTimerEvent_run g vm this eventIndex w d Hpool Hd Hidx)
      as (w_mid & Hrun & Hmid).
    fold fv pvs in Hmid.
    exists w_mid. split; [exact Hrun |]. split; [| split; [done | exact Hmid]].
    intros Hkf. simpl. destruct (bool_decide _).
    + destruct Hmid as (wc & env & _ & Hwc & _ & _ & _ & _ & _ & _ & Ht & _).
      rewrite Ht. apply Hkf. rewrite Hwc. apply lookup_delete_eq.
    + rewrite Hmid. simpl. apply lookup_delete_eq.
Qed.

End TimerClaims.

Lemma idleScript_keepsPool : keepsPool idleScript.
Proof. intros f args w. by split. Qed.

Lemma idleScript_keepsFree eventIndex : keepsFree idleScript eventIndex.
Proof. by intros f args w H. Qed.

(** The pending timer 1 of [timerWorld]: [stopEvent(7)] fails, [stopEvent(1)]
    stops it, and it is fired, with one release of each of its two
    references. *)
Lemma timer_stop_and_fire_witness :
  luaStopEvent noNumber (set_L (set_stack [Number 7] (L timerWorld)) timerWorld)
    = Some (1, set_L (set_stack [Number 7; Boolean false] (L timerWorld))
                 timerWorld)
  ∧ (∃ w' : World,
       luaStopEvent noNumber timerWorld = Some (1, w')
       ∧ L w' = set_stack [Number 1; Boolean true]
                  (released [1; 2] (L timerWorld))
       ∧ timerEvents w' = delete 1 (timerEvents timerWorld)
       ∧ executeTimerEvent gameOfItems idleScript 0%nat 1 w' = Some (tt, w'))
  ∧ (∃ w_mid : World,
       executeTimerEvent gameOfItems idleScript 0%nat 1 timerWorld
         = Some (tt, set_L (released [1; 2] (L w_mid)) w_mid)
       ∧ timerEvents (set_L (released [1; 2] (L w_mid)) w_mid) !! 1 = None
       ∧ unrefCalls (L (set_L (released [1; 2] (L w_mid)) w_mid)) = [1; 2]).
Proof.
  pose (d := {| desc_scriptId := 0; desc_function := 1;
                desc_parameters := [2]; desc_eventId := 1 |}).
  split_and!.
  - apply (proj1 (timer_stop_and_fire gameOfItems noNumber idleScript 0%nat
                    (set_L (set_stack [Number 7] (L timerWorld)) timerWorld) 1)).
    vm_compute. reflexivity.
  - destruct (proj1 (proj2 (timer_stop_and_fire gameOfItems noNumber idleScript
                              0%nat timerWorld 1)) d)
      as (w' & H1 & H2 & H3 & _ & _ & H6); [vm_compute; reflexivity |].
    exists w'. split_and!; [exact H1 | exact H2 | exact H3 | exact H6].
  - destruct (proj2 (proj2 (timer_stop_and_fire gameOfItems noNumber idleScript
                              0%nat timerWorld 1)) d)
      as (w_mid & H1 & H2 & _ & H4);
      [vm_compute; reflexivity | exact idleScript_keepsPool
       | vm_compute; discriminate |].
    exists w_mid. split; [exact H1 |].
    split; [exact (H2 (idleScript_keepsFree 1)) |].
    rewrite bool_decide_eq_true_2 in H4 by (vm_compute; reflexivity).
    destruct H4 as (wc & env & Hwc & _ & _ & _ & _ & _ & _ & Hmid & _).
    simpl. rewrite Hmid. simpl. rewrite Hwc. reflexivity.
Defined.

(** * addEvent *)

Lemma indexValue_middle (pre rest : list Value) (a : Value) :
  indexValue (pre ++ a :: rest) (Z.of_nat (length pre) + 1) = Some a.
Proof.
  rewrite indexValue_positive by lia.
  replace (Z.to_nat (Z.of_nat (length pre) + 1 - 1)) with (length pre) by lia.
  by rewrite list_lookup_middle.
Qed.

Lemma indexSlot_middle (pre rest : list Value) (a : Value) :
  indexSlot (pre ++ a :: rest) (Z.of_nat (length pre) + 1) = Some (length pre).
Proof.
  unfold indexSlot. cbv zeta.
  rewrite (bool_decide_eq_true_2 (0 < _)) by lia.
  rewrite length_app. simpl. rewrite bool_decide_eq_true_2 by lia.
  f_equal. lia.
Qed.

Lemma getNumber_enum_eq str2d idx l :
  getNumber_enum str2d idx l
    = Some (tonumber str2d (default Nil (indexValue (stack l) idx)), l).
Proof. done. Qed.

(** ** The capture of the arguments *)

Lemma luaL_ref_nil (l : lua_State) (s : list Value) :
  stack l = s ++ [Nil] →
  luaL_ref l = Some (LUA_REFNIL, set_stack s l).
Proof.
  intros Hs. unfold luaL_ref. step; [by apply pop1_eq |]. done.
Qed.

Lemma luaL_ref_value (l : lua_State) (s : list Value) (v : Value) :
  stack l = s ++ [v] → v ≠ Nil →
  luaL_ref l =
    Some (nextRef l,
          {| stack := s; heap := heap l; nextObject := nextObject l;
             globals := globals l;
             registry := <[KInt (nextRef l) := v]> (registry l);
             nextRef := nextRef l + 1;
             stringMetatable := stringMetatable l;
             unrefCalls := unrefCalls l |}).
Proof.
  intros Hs Hv. unfold luaL_ref. step; [by apply pop1_eq |].
  rewrite bool_decide_eq_false_2 by done. done.
Qed.

Lemma holds_frame (l l' : lua_State) (ref : Z) (v : Value) :
  holds l ref v →
  nextRef l ≤ nextRef l' →
  (∀ k, k < nextRef l → registry l' !! KInt k = registry l !! KInt k) →
  holds l' ref v.
Proof.
  unfold holds, captures. intros [Hc Hn] Hle Hfr.
  case_bool_decide as Hv; [split; [done | intros Hne; by destruct Hne] |].
  specialize (Hn Hv). split; [| intros _; lia].
  by rewrite Hfr.
Qed.

Lemma refParameters_eq (vals : list Value) :
  ∀ (base : list Value) (l : lua_State),
  stack l = base ++ vals →
  ∃ (refs : list Z) (l' : lua_State),
    refParameters (length vals) l = Some (refs, l')
    ∧ stack l' = base
    ∧ heap l' = heap l ∧ globals l' = globals l
    ∧ unrefCalls l' = unrefCalls l
    ∧ nextRef l ≤ nextRef l'
    ∧ (∀ k, k < nextRef l → registry l' !! KInt k = registry l !! KInt k)
    ∧ length refs = length vals
    ∧ Forall2 (holds l') (reverse refs) vals.
Proof.
  induction vals as [|v vs IH] using rev_ind; intros base l Hs.
  - exists [], l. rewrite app_nil_r in Hs. simpl.
    split_and!; done.
  - rewrite length_app. simpl. rewrite Nat.add_1_r. simpl refParameters.
    rewrite app_assoc in Hs.
    destruct (decide (v = Nil)) as [->|Hv].
    + destruct (IH base (set_stack (base ++ vs) l)) as
        (refs & l' & Hr & Hst & Hh & Hg & Hu & Hn & Hfr & Hlen & Hf); [done |].
      exists (LUA_REFNIL :: refs), l'. split_and!; try done.
      * step. { by apply luaL_ref_nil. }
        step. { exact Hr. } done.
      * simpl. by rewrite Hlen.
      * rewrite reverse_cons. apply Forall2_app; [done |].
        constructor; [| constructor]. unfold holds, captures. simpl. done.
    + set (l1 := {| stack := base ++ vs; heap := heap l;
                    nextObject := nextObject l; globals := globals l;
                    registry := <[KInt (nextRef l) := v]> (registry l);
                    nextRef := nextRef l + 1;
                    stringMetatable := stringMetatable l;
                    unrefCalls := unrefCalls l |}).
      destruct (IH base l1) as
        (refs & l' & Hr & Hst & Hh & Hg & Hu & Hn & Hfr & Hlen & Hf); [done |].
      exists (nextRef l :: refs), l'. split_and!; try done.
      * step. { by apply luaL_ref_value. }
        step. { exact Hr. } done.
      * simpl in Hn. lia.
      * intros k Hk. rewrite Hfr by (simpl; lia). simpl.
        rewrite lookup_insert_ne; [done |]. intros [=]. lia.
      * simpl. by rewrite Hlen.
      * rewrite reverse_cons. apply Forall2_app; [done |].
        constructor; [| constructor]. unfold holds, captures.
        rewrite bool_decide_eq_false_2 by done. split.
        -- rewrite Hfr by (simpl; lia). simpl. by rewrite lookup_insert_eq.
        -- intros _. simpl in Hn. lia.
Qed.

Section AddEvent.

Variable g : Game.
Variable str2d : string → option Z.

Lemma scanParameters_eq (rest pre : list Value) (l : lua_State) :
  stack l = pre ++ rest →
  metatablesIn l rest = true →
  scanParameters str2d (seqZ (Z.of_nat (length pre) + 1) (Z.of_nat (length rest))) l
    = Some (scanFrom str2d l (Z.of_nat (length pre) + 1) rest, l).
Proof.
  revert pre. induction rest as [|a rest IH]; intros pre Hs Hm; [done |].
  rewrite seqZ_cons by (simpl; lia).
  replace (Z.pred (Z.of_nat (length (a :: rest)))) with (Z.of_nat (length rest))
    by (simpl; lia).
  replace (Z.succ (Z.of_nat (length pre) + 1))
    with (Z.of_nat (length (pre ++ [a])) + 1)
    by (rewrite length_app; simpl; lia).
  assert (Hs' : stack l = (pre ++ [a]) ++ rest) by (by rewrite <- app_assoc).
  simpl in Hm. apply andb_true_iff in Hm as [Hma0 Hm'].
  unfold metatableInHeap in Hma0.
  specialize (IH (pre ++ [a]) Hs' Hm').
  simpl scanParameters. simpl scanFrom. unfold dataTypeOf at 1 2.
  replace (Z.of_nat (length pre) + 1 + 1)
    with (Z.of_nat (length (pre ++ [a])) + 1)
    by (rewrite length_app; simpl; lia).
  destruct (metatableOf l a) as [m|] eqn:Hma.
  - apply bool_decide_eq_true in Hma0 as [o Ho]. rewrite Ho.
    step. { eapply lua_getmetatable_Some; [| exact Hma].
            rewrite Hs. apply indexValue_middle. }
    simpl. step. { eapply (lua_rawgeti_eq _ _ _ m o); [| exact Ho]. norm.
                   by rewrite (indexValue_top _ [Table m] (-1)). }
    norm. step. { apply getNumber_enum_eq. }
    norm. rewrite (indexValue_top _ [_] (-1)) by (simpl; lia). simpl default.
    step. { apply (lua_pop_eq 2 _ (stack l) [Table m; default Nil (fields o !! KInt key_t)]).
            - norm. by rewrite <- app_assoc.
            - done. }
    norm. rewrite set_stack_stack. step. { exact IH. } done.
  - step. { eapply lua_getmetatable_None; [| exact Hma].
            rewrite Hs. apply indexValue_middle. }
    simpl. rewrite IH. done.
Qed.

Lemma withScriptEnv_same env w : inUse env w → withScriptEnv env w = w.
Proof.
  intros [_ He]. unfold withScriptEnv. rewrite list_insert_id by done.
  destruct w as [? [] ? ? ? ?]. done.
Qed.

Lemma getSharedPtr_eq (l : lua_State) (v : Value) (rest : list Value) :
  stack l = v :: rest →
  getSharedPtr 1 l =
    match v with
    | Userdata r =>
      match heap l !! r with Some o => Some (payload o, l) | None => None end
    | _ => Some (None, l)
    end.
Proof.
  intros Hs. unfold getSharedPtr. step; [reflexivity |].
  unfold index2adr. rewrite Hs. simpl.
  destruct v; try done. destruct (heap l !! r); done.
Qed.

Lemma luaItemGetUniqueId_eq (w : World) (v : Value) (env env' : ScriptEnvironment)
    (res : Value) :
  stack (L w) = [v] →
  inUse env w →
  itemUid g (L w) v env = Some (res, env') →
  luaItemGetUniqueId g w
    = Some (1, withScriptEnv env' (set_L (set_stack [v; res] (L w)) w)).
Proof.
  intros Hs Hin Hid. unfold luaItemGetUniqueId.
  pose proof (getSharedPtr_eq (L w) v [] Hs) as Hp.
  assert (Hsame : ∀ l, withScriptEnv env (set_L l w) = set_L l w).
  { intros l. apply withScriptEnv_same. exact Hin. }
  unfold itemUid in Hid.
  destruct v; simplify_eq/=;
    try (step; [apply liftL_Some; exact Hp |]; rewrite set_L_L;
         step; [apply liftL_Some; reflexivity |]; norm; rewrite Hs;
         by rewrite Hsame).
  destruct (heap (L w) !! r) as [o|] eqn:Ho; simplify_eq/=.
  step. { apply liftL_Some. exact Hp. }
  rewrite set_L_L.
  destruct (payload o) as [p|]; simplify_eq/=.
  - destruct (itemAt g p) as [i|] eqn:Hi; simplify_eq/=.
    case_bool_decide as Hz; simplify_eq/=.
    + step.
      { step; [reflexivity |].
        rewrite bool_decide_eq_true_2 by done.
        step. { destruct Hin as [Hi0 He]. by apply (onScriptEnv_eq _ w env). }
        apply liftL_Some. reflexivity. }
      norm. rewrite Hs. reflexivity.
    + step.
      { step; [reflexivity |].
        rewrite bool_decide_eq_false_2 by done.
        step; [reflexivity|].
        apply liftL_Some. reflexivity. }
      norm. rewrite Hs. by rewrite Hsame.
  - step. { apply liftL_Some. reflexivity. }
    norm. rewrite Hs. by rewrite Hsame.
Qed.

Lemma luaCreatureGetId_eq (w : World) (v : Value) (env env' : ScriptEnvironment)
    (res : Value) :
  stack (L w) = [v] →
  inUse env w →
  creatureId g (L w) v env = Some (res, env') →
  luaCreatureGetId g w
    = Some (1, withScriptEnv env' (set_L (set_stack [v; res] (L w)) w)).
Proof.
  intros Hs Hin Hid. unfold luaCreatureGetId.
  pose proof (getSharedPtr_eq (L w) v [] Hs) as Hp.
  assert (Hsame : ∀ l, withScriptEnv env (set_L l w) = set_L l w).
  { intros l. apply withScriptEnv_same. exact Hin. }
  unfold creatureId in Hid.
  destruct v; simplify_eq/=;
    try (step; [apply liftL_Some; exact Hp |]; rewrite set_L_L;
         step; [apply liftL_Some; reflexivity |]; norm; rewrite Hs;
         by rewrite Hsame).
  destruct (heap (L w) !! r) as [o|] eqn:Ho; simplify_eq/=.
  step. { apply liftL_Some. exact Hp. }
  rewrite set_L_L.
  destruct (payload o) as [p|]; simplify_eq/=.
  - destruct (creatureAt g p) as [c|] eqn:Hc; simplify_eq/=.
    step. { step; [reflexivity |]. apply liftL_Some. reflexivity. }
    norm. rewrite Hs. by rewrite Hsame.
  - step. { apply liftL_Some. reflexivity. }
    norm. rewrite Hs. by rewrite Hsame.
Qed.

Lemma lua_call_1_1 (w w1 : World) (below st : list Value) (cf : CFunction)
    (arg res : Value) :
  stack (L w) = below ++ [CFunc cf; arg] →
  runCFunction g cf (set_L (set_stack [arg] (L w)) w) = Some (1, w1) →
  stack (L w1) = st ++ [res] →
  lua_call g 1 1 w = Some (tt, set_L (set_stack (below ++ [res]) (L w1)) w1).
Proof.
  intros Hs Hrun Hst. unfold lua_call. step; [reflexivity |].
  rewrite Hs. rewrite bool_decide_eq_true_2; last first.
  { rewrite length_app. simpl. lia. }
  replace (length (below ++ [CFunc cf; arg]) - Z.to_nat 1 - 1)%nat
    with (length below) by (rewrite length_app; simpl; lia).
  replace (length (below ++ [CFunc cf; arg]) - Z.to_nat 1)%nat
    with (length (below ++ [CFunc cf])) by (rewrite !length_app; simpl; lia).
  rewrite list_lookup_middle by done. step; [reflexivity |].
  replace (below ++ [CFunc cf; arg]) with ((below ++ [CFunc cf]) ++ [arg])
    by (by rewrite <- app_assoc).
  rewrite drop_app_length.
  replace ((below ++ [CFunc cf]) ++ [arg]) with (below ++ [CFunc cf; arg])
    by (by rewrite <- app_assoc).
  rewrite take_app_length.
  step. { apply liftL_Some. reflexivity. }
  norm. step. { exact Hrun. }
  step; [reflexivity |]. rewrite Hst.
  replace (length (st ++ [res]) - Z.to_nat 1)%nat with (length st)
    by (rewrite length_app; simpl; lia).
  rewrite drop_app_length. reflexivity.
Qed.

Lemma take_insert_tail (pre rest : list Value) (a a' : Value) :
  take (length (pre ++ a :: rest))
       (<[length pre := a']> ((pre ++ a :: rest) ++ [a']))
  = pre ++ a' :: rest.
Proof.
  rewrite <- app_assoc. simpl.
  rewrite insert_app_r_alt by lia. rewrite Nat.sub_diag. simpl.
  replace (pre ++ a' :: rest ++ [a']) with ((pre ++ a' :: rest) ++ [a'])
    by (by rewrite <- app_assoc).
  replace (length (pre ++ a :: rest)) with (length (pre ++ a' :: rest))
    by (rewrite !length_app; done).
  by rewrite take_app_length.
Qed.

Lemma convertEntry_eq (w : World) (pre rest : list Value) (a a' : Value)
    (t : Z) (env env' : ScriptEnvironment) :
  stack (L w) = pre ++ a :: rest →
  gettersRegistered (L w) →
  inUse env w →
  stableIdOf g (L w) t a env = Some (a', env') →
  convertEntry g (Z.of_nat (length pre) + 1, t) w
    = Some (tt, withScriptEnv env'
                  (set_L (set_stack (pre ++ a' :: rest) (L w)) w)).
Proof.
  intros Hs [HgI HgC] Hin Hid. unfold convertEntry. cbn [fst snd].
  unfold stableIdOf, isItemType, isCreatureType in Hid.
  set (S0 := pre ++ a :: rest) in *.
  assert (Hget : ∃ cf : CFunction,
    (if bool_decide (t = LuaData_Item ∨ t = LuaData_Container ∨ t = LuaData_Teleport)
     then liftL (lua_getglobal "Item") ≫= λ _ : (),
            liftL (lua_getfield (-1) "getUniqueId")
     else if bool_decide (t = LuaData_Player ∨ t = LuaData_Monster ∨ t = LuaData_Npc)
          then liftL (lua_getglobal "Creature") ≫= λ _ : (),
                 liftL (lua_getfield (-1) "getId")
          else mret ()) w
    = Some (tt, set_L (set_stack
                  (S0 ++ [default Nil (globals (L w) !!
                             (if bool_decide (t = LuaData_Item ∨ t = LuaData_Container ∨ t = LuaData_Teleport)
                              then "Item" else "Creature")%string);
                          CFunc cf]) (L w)) w)
    ∧ runCFunction g cf (set_L (set_stack [a] (L w)) w)
      = Some (1, withScriptEnv env' (set_L (set_stack [a; a'] (L w)) w))).
  { case_bool_decide as HI; [| case_bool_decide as HC; [| done]].
    - exists luaItemGetUniqueId_f. split.
      + step. { apply liftL_Some. apply lua_getglobal_eq. }
        rewrite Hs. norm.
        erewrite liftL_Some; last first.
        { eapply lua_getfield_eq.
          - norm. by rewrite (indexValue_top _ [_] (-1)).
          - norm. rewrite gettable_set_stack. exact HgI. }
        norm. by rewrite <- app_assoc.
      + simpl. erewrite (luaItemGetUniqueId_eq _ a env env' a'); [done | done | |].
        * destruct Hin as [H0 He]. split; norm; done.
        * exact Hid.
    - exists luaCreatureGetId_f. split.
      + step. { apply liftL_Some. apply lua_getglobal_eq. }
        rewrite Hs. norm.
        erewrite liftL_Some; last first.
        { eapply lua_getfield_eq.
          - norm. by rewrite (indexValue_top _ [_] (-1)).
          - norm. rewrite gettable_set_stack. exact HgC. }
        norm. by rewrite <- app_assoc.
      + simpl. erewrite (luaCreatureGetId_eq _ a env env' a'); [done | done | |].
        * destruct Hin as [H0 He]. split; norm; done.
        * exact Hid. }
  destruct Hget as (cf & Hget & Hrun).
  step. { exact Hget. }
  step. { apply liftL_Some. norm.
          eapply (lua_replace_eq _ _ (S0 ++ [_]) (CFunc cf) (length S0)).
          - norm. by rewrite <- app_assoc.
          - norm. rewrite (indexSlot_top S0 [_; _] (-2)) by (simpl; lia).
            f_equal. simpl. lia. }
  norm.
  replace (take (length (S0 ++ [_])) (<[length S0 := CFunc cf]> ((S0 ++ [_]) ++ [CFunc cf])))
    with (S0 ++ [CFunc cf]); last first.
  { rewrite insert_app_l by (rewrite length_app; simpl; lia).
    rewrite take_app_length'; last first.
    { by rewrite length_insert. }
    rewrite insert_app_r_alt by lia. rewrite Nat.sub_diag. done. }
  step. { apply liftL_Some. norm. eapply (lua_pushvalue_eq _ _ a). norm.
          unfold S0. rewrite <- app_assoc. simpl. apply indexValue_middle. }
  norm.
  step. { eapply (lua_call_1_1 _ _ S0 [a] cf a a').
          - norm. by rewrite <- app_assoc.
          - norm. exact Hrun.
          - done. }
  unfold withScriptEnv. norm.
  erewrite liftL_Some; last first.
  { norm. eapply (lua_replace_eq _ _ S0 a' (length pre)).
    - done.
    - norm. unfold S0. rewrite <- app_assoc. simpl. apply indexSlot_middle. }
  norm. unfold S0. rewrite take_insert_tail. done.
Qed.

Lemma dataTypeOf_set_stack s l v :
  dataTypeOf str2d (set_stack s l) v = dataTypeOf str2d l v.
Proof. unfold dataTypeOf. by rewrite metatableOf_set_stack. Qed.

Lemma scanFrom_set_stack s l i args :
  scanFrom str2d (set_stack s l) i args = scanFrom str2d l i args.
Proof.
  revert i. induction args as [|a args IH]; intros i; [done |].
  simpl. rewrite !dataTypeOf_set_stack, IH. done.
Qed.

Lemma stableIdOf_set_stack s l t v env :
  stableIdOf g (set_stack s l) t v env = stableIdOf g l t v env.
Proof. done. Qed.

Lemma reduceArguments_set_stack s l args env :
  reduceArguments g str2d (set_stack s l) args env
    = reduceArguments g str2d l args env.
Proof.
  revert env. induction args as [|a args IH]; intros env; [done |].
  simpl. rewrite !dataTypeOf_set_stack, stableIdOf_set_stack.
  destruct (if isUnsafeType _ then _ else _) as [r|]; [| done].
  simpl. by rewrite IH.
Qed.

Lemma gettersRegistered_set_stack s l :
  gettersRegistered l → gettersRegistered (set_stack s l).
Proof.
  intros [H1 H2]. split; rewrite gettable_set_stack; done.
Qed.

Lemma inUse_withScriptEnv env env' w :
  inUse env w → inUse env' (withScriptEnv env' w).
Proof.
  intros [H0 He]. split; [done |]. unfold withScriptEnv. norm.
  apply list_lookup_insert_eq. by apply lookup_lt_Some in He.
Qed.

Lemma inUse_set_L env l w : inUse env w → inUse env (set_L l w).
Proof. done. Qed.

Lemma withScriptEnv_withScriptEnv env env' w :
  withScriptEnv env' (withScriptEnv env w) = withScriptEnv env' w.
Proof.
  unfold withScriptEnv. norm. by rewrite list_insert_insert_eq.
Qed.

Lemma withScriptEnv_set_L env l w :
  withScriptEnv env (set_L l w) = set_L l (withScriptEnv env w).
Proof. done. Qed.

Lemma convert_loop (rest : list Value) :
  ∀ (pre : list Value) (w : World) (env : ScriptEnvironment)
    (rest' : list Value) (env' : ScriptEnvironment),
  stack (L w) = pre ++ rest →
  gettersRegistered (L w) →
  inUse env w →
  reduceArguments g str2d (L w) rest env = Some (rest', env') →
  forM (scanFrom str2d (L w) (Z.of_nat (length pre) + 1) rest) (convertEntry g) w
    = Some (tt, withScriptEnv env' (set_L (set_stack (pre ++ rest') (L w)) w)).
Proof.
  induction rest as [|a rest IH]; intros pre w env rest' env' Hs Hg Hin Hr.
  - simpl in *. simplify_eq. rewrite app_nil_r in *.
    rewrite <- Hs, set_stack_stack, set_L_L.
    by rewrite (withScriptEnv_same env').
  - simpl in Hr. simpl scanFrom.
    replace (Z.of_nat (length pre) + 1 + 1)
      with (Z.of_nat (length (pre ++ [a])) + 1)
      by (rewrite length_app; simpl; lia).
    destruct (isUnsafeType (dataTypeOf str2d (L w) a)) eqn:Hu.
    + destruct (stableIdOf g (L w) _ a env) as [[a1 env1]|] eqn:Hid;
        simpl in Hr; [| done].
      destruct (reduceArguments g str2d (L w) rest env1) as [[rest1 env2]|] eqn:Hrr;
        simpl in Hr; [| done].
      simplify_eq. simpl forM.
      step. { eapply convertEntry_eq; [exact Hs | exact Hg | exact Hin | exact Hid]. }
      set (w1 := withScriptEnv env1 _).
      replace (length (pre ++ [a])) with (length (pre ++ [a1]))
        by (rewrite !length_app; done).
      rewrite <- (scanFrom_set_stack (pre ++ a1 :: rest) (L w)).
      change (set_stack (pre ++ a1 :: rest) (L w)) with (L w1).
      rewrite (IH (pre ++ [a1]) w1 env1 rest1 env').
      * subst w1. rewrite withScriptEnv_set_L, withScriptEnv_withScriptEnv.
        unfold withScriptEnv. norm. by rewrite <- app_assoc.
      * subst w1. unfold withScriptEnv. norm. by rewrite <- app_assoc.
      * subst w1. unfold withScriptEnv. norm.
        by apply gettersRegistered_set_stack.
      * subst w1. apply (inUse_withScriptEnv env). by apply inUse_set_L.
      * subst w1. unfold withScriptEnv. norm.
        by rewrite reduceArguments_set_stack.
    + simpl in Hr.
      destruct (reduceArguments g str2d (L w) rest env) as [[rest1 env2]|] eqn:Hrr;
        simpl in Hr; [| done].
      simplify_eq.
      rewrite (IH (pre ++ [a]) w env rest1 env'); [| | done | done | done].
      * by rewrite <- app_assoc.
      * by rewrite <- app_assoc.
Qed.

Lemma reduceArguments_length l args env args' env' :
  reduceArguments g str2d l args env = Some (args', env') →
  length args' = length args.
Proof.
  revert env args' env'. induction args as [|a args IH]; intros env args' env' H.
  - simpl in H. by simplify_eq.
  - simpl in H.
    destruct (if isUnsafeType _ then _ else _) as [[a1 env1]|]; simpl in H; [| done].
    destruct (reduceArguments g str2d l args env1) as [[rs env2]|] eqn:Hr;
      simpl in H; [| done].
    simplify_eq. simpl. f_equal. by eapply IH.
Qed.

Lemma reduceArguments_unflagged l i args env :
  scanFrom str2d l i args = [] →
  reduceArguments g str2d l args env = Some (args, env).
Proof.
  revert i. induction args as [|a args IH]; intros i H; [done |].
  simpl in *. destruct (isUnsafeType _); [done |].
  simpl. by rewrite (IH _ H).
Qed.

Variable config : Config.

(** The block of [luaAddEvent] that warns about the unsafe arguments and
    converts them. *)
Lemma unsafeArguments_eq (w : World) (cb : Value) (d : Z)
    (args args1 : list Value) (env env1 : ScriptEnvironment) :
  stack (L w) = cb :: Number d :: args →
  inUse env w →
  metatablesIn (L w) args = true →
  (if CONVERT_UNSAFE_SCRIPTS config
   then gettersRegistered (L w)
        ∧ reduceArguments g str2d (L w) args env = Some (args1, env1)
   else args1 = args ∧ env1 = env) →
  ∃ out : list string,
    (if WARN_UNSAFE_SCRIPTS config || CONVERT_UNSAFE_SCRIPTS config then
       liftL (scanParameters str2d
                (seqZ 3 (Z.of_nat (length (stack (L w))) - 2))) ≫= λ indexes,
         if bool_decide (indexes ≠ []) then
           (if WARN_UNSAFE_SCRIPTS config
            then reportError (warningString indexes) else mret ()) ≫= λ _ : (),
             if CONVERT_UNSAFE_SCRIPTS config
             then forM indexes (convertEntry g) else mret ()
         else mret ()
     else mret ()) w
    = Some (tt, set_output out
                  (withScriptEnv env1
                     (set_L (set_stack (cb :: Number d :: args1) (L w)) w))).
Proof.
  intros Hs Hin Hm Hc.
  assert (Hid : ∀ out, out = output w → args1 = args → env1 = env →
     w = set_output out
           (withScriptEnv env1
              (set_L (set_stack (cb :: Number d :: args1) (L w)) w))).
  { intros out -> -> ->. rewrite <- Hs, set_stack_stack, set_L_L.
    rewrite (withScriptEnv_same env) by done. by destruct w. }
  assert (Hscan :
    liftL (scanParameters str2d (seqZ 3 (Z.of_nat (length (stack (L w))) - 2))) w
    = Some (scanFrom str2d (L w) 3 args, w)).
  { erewrite liftL_Some; last first.
    { rewrite Hs.
      replace (Z.of_nat (length (cb :: Number d :: args)) - 2)
        with (Z.of_nat (length args)) by (simpl; lia).
      apply (scanParameters_eq args [cb; Number d]); [done | done]. }
    by rewrite set_L_L. }
  destruct (CONVERT_UNSAFE_SCRIPTS config) eqn:Hconv.
  - destruct Hc as [Hg Hr]. rewrite orb_true_r.
    step. { exact Hscan. }
    set (indexes := scanFrom str2d (L w) 3 args).
    case_bool_decide as Hne.
    + set (w0 := if WARN_UNSAFE_SCRIPTS config
                 then set_output (output w ++ [warningString indexes]) w
                 else w).
      step. { instantiate (1 := w0). instantiate (1 := tt).
              subst w0. by destruct (WARN_UNSAFE_SCRIPTS config). }
      assert (HL : L w0 = L w) by (subst w0; by destruct (WARN_UNSAFE_SCRIPTS config)).
      assert (Hb : bridge w0 = bridge w)
        by (subst w0; by destruct (WARN_UNSAFE_SCRIPTS config)).
      pose proof (convert_loop args [cb; Number d] w0 env args1 env1) as Hloop.
      rewrite HL in Hloop.
      change (scanFrom _ _ _ _) with indexes in Hloop. exists (output w0).
      rewrite Hloop; [| done | done | | done].
      * do 2 f_equal. clear. subst w0.
        by destruct (WARN_UNSAFE_SCRIPTS config).
      * destruct Hin as [H0 He]. split; rewrite Hb; done.
    + exists (output w).
      rewrite (reduceArguments_unflagged _ _ _ _ Hne) in Hr. simplify_eq.
      by rewrite <- (Hid (output w)).
  - destruct Hc as [-> ->]. rewrite orb_false_r.
    destruct (WARN_UNSAFE_SCRIPTS config) eqn:Hwarn.
    + step. { exact Hscan. }
      case_bool_decide as Hne.
      * eexists. step; [reflexivity |]. simpl. do 2 f_equal.
        rewrite <- Hs, set_stack_stack, set_L_L.
        rewrite (withScriptEnv_same env) by done. reflexivity.
      * exists (output w). by rewrite <- (Hid (output w)).
    + exists (output w). by rewrite <- (Hid (output w)).
Qed.

Lemma luaAddEvent_spec (w : World) (cb : Value) (d : Z)
    (args args1 : list Value) (env env1 : ScriptEnvironment) :
  stack (L w) = cb :: Number d :: args →
  isfunction cb = true →
  inUse env w →
  metatablesIn (L w) args = true →
  (if CONVERT_UNSAFE_SCRIPTS config
   then gettersRegistered (L w)
        ∧ reduceArguments g str2d (L w) args env = Some (args1, env1)
   else args1 = args ∧ env1 = env) →
  ∃ (refs : list Z) (fref : Z) (w' : World),
    luaAddEvent g config str2d w = Some (1, w')
    ∧ stack (L w') = [Number (lastEventTimerId w)]
    ∧ scheduler w' =
        (Scheduler_addEvent {| task_delay := Z.max 100 (wrap 32 d);
                               task_timerEvent := lastEventTimerId w |}
                            (scheduler w)).2
    ∧ lastEventTimerId w' = wrap32 (lastEventTimerId w + 1)
    ∧ bridge w' = bridge (withScriptEnv env1 w)
    ∧ (timerEvents w !! lastEventTimerId w = None →
       timerEvents w' =
         <[lastEventTimerId w :=
             {| desc_scriptId := scriptId env1; desc_function := fref;
                desc_parameters := refs;
                desc_eventId :=
                  (Scheduler_addEvent
                     {| task_delay := Z.max 100 (wrap 32 d);
                        task_timerEvent := lastEventTimerId w |}
                     (scheduler w)).1 |}]> (timerEvents w))
    ∧ captures (L w') fref cb
    ∧ length refs = length args
    ∧ Forall2 (captures (L w')) (reverse refs) args1.
Proof.
  intros Hs Hcb Hin Hm Hc.
  assert (Hlen1 : length args1 = length args).
  { destruct (CONVERT_UNSAFE_SCRIPTS config).
    - destruct Hc as [_ Hr]. by eapply reduceArguments_length.
    - by destruct Hc as [-> _]. }
  destruct (unsafeArguments_eq w cb d args args1 env env1 Hs Hin Hm Hc)
    as [out Hblock].
  set (w1 := set_output out
               (withScriptEnv env1
                  (set_L (set_stack (cb :: Number d :: args1) (L w)) w)))
    in Hblock.
  destruct (refParameters_eq args1 [cb; Number d] (L w1)) as
    (refs & l2 & Hr & Hst & Hh & Hgl & Hu & Hn & Hfr & Hlen & Hf); [done |].
  assert (Hcbn : cb ≠ Nil) by (by destruct cb).
  set (l3 := {| stack := []; heap := heap l2; nextObject := nextObject l2;
                globals := globals l2;
                registry := <[KInt (nextRef l2) := cb]> (registry l2);
                nextRef := nextRef l2 + 1;
                stringMetatable := stringMetatable l2;
                unrefCalls := unrefCalls l2 |}).
  set (task := {| task_delay := Z.max 100 (wrap 32 d);
                  task_timerEvent := lastEventTimerId w |}).
  set (desc := {| desc_scriptId := scriptId env1; desc_function := nextRef l2;
                  desc_parameters := refs;
                  desc_eventId := (Scheduler_addEvent task (scheduler w)).1 |}).
  assert (Hin1 : inUse env1 (set_L l3 w1)).
  { subst w1. apply inUse_set_L. apply (inUse_withScriptEnv env).
    by apply inUse_set_L. }
  exists refs, (nextRef l2),
    (set_lastEventTimerId (wrap32 (lastEventTimerId w + 1))
       (set_L (set_stack [Number (lastEventTimerId w)] l3)
          (set_scheduler (Scheduler_addEvent task (scheduler w)).2
             (set_timerEvents
                (match timerEvents w !! lastEventTimerId w with
                 | Some _ => timerEvents w
                 | None => <[lastEventTimerId w := desc]> (timerEvents w)
                 end) (set_L l3 w1))))).
  split_and!.
  - unfold luaAddEvent.
    step. { apply liftL_Some. apply lua_gettop_eq. }
    rewrite set_L_L.
    set (parameters := Z.of_nat (length (stack (L w)))) in *.
    assert (Hp : parameters = Z.of_nat (length args) + 2).
    { subst parameters. rewrite Hs. simpl. lia. }
    rewrite bool_decide_eq_false_2 by lia.
    assert (E1 : liftL (lua_isfunction 1) w = Some (true, w)).
    { unfold liftL, lua_isfunction. simpl. unfold index2adr. rewrite Hs.
      simpl. rewrite Hcb. by rewrite set_L_L. }
    assert (E2 : liftL (lua_isnumber_type 2) w = Some (true, w)).
    { unfold liftL, lua_isnumber_type. simpl. unfold index2adr. rewrite Hs.
      simpl. by rewrite set_L_L. }
    step. { exact E1. } cbn [negb].
    step. { exact E2. } cbn [negb].
    step. { exact Hblock. }
    replace (Z.to_nat (parameters - 2)) with (length args1) by lia.
    step. { apply liftL_Some. exact Hr. }
    step. { apply liftL_Some. norm. apply getNumber_eq. }
    norm. rewrite Hst. simpl default.
    step. { apply liftL_Some. norm. by apply (lua_pop_eq 1 _ [cb] [Number d]). }
    norm.
    step. { apply liftL_Some. norm.
            apply (luaL_ref_value _ [] cb); [done | done]. }
    norm. fold l3.
    step. { destruct Hin1 as [H0 He]. by apply (onScriptEnv_eq _ _ env1). }
    simpl fst. simpl snd.
    replace (set_bridge _ (set_L l3 w1)) with (set_L l3 w1); last first.
    { symmetry. apply (withScriptEnv_same env1). exact Hin1. }
    step; [reflexivity |].
    reflexivity.
  - done.
  - done.
  - done.
  - done.
  - intros Hnone. simpl. by rewrite Hnone.
  - simpl. unfold captures. rewrite bool_decide_eq_false_2 by done.
    simpl. by rewrite lookup_insert_eq.
  - by rewrite Hlen, Hlen1.
  - eapply Forall2_impl; [exact Hf |].
    intros r v [Hcap Hlt]. unfold captures in *. simpl.
    case_bool_decide; [done |].
    rewrite lookup_insert_ne; [done |]. intros [=]. specialize (Hlt ltac:(done)). lia.
Qed.

End AddEvent.

Section Reduction.

Variable g : Game.
Variable str2d : string → option Z.

Lemma stableIdOf_total (l : lua_State) (a : Value) (env : ScriptEnvironment) :
  objectArgument g str2d l a = true →
  isUnsafeType (dataTypeOf str2d l a) = true →
  is_Some (stableIdOf g l (dataTypeOf str2d l a) a env).
Proof.
  unfold objectArgument, stableIdOf. intros Ho Hu. rewrite Hu in Ho.
  apply andb_true_iff in Ho as [Hk Ho].
  destruct (isItemType _) eqn:Hi.
  - unfold itemUid. destruct a; try by eexists.
    destruct (heap l !! r) as [o|]; [| done]. simpl.
    destruct (payload o) as [p|]; [| by eexists].
    apply bool_decide_eq_true in Ho as [i Hi']. rewrite Hi'. simpl.
    case_bool_decide; by eexists.
  - simpl in Hk. rewrite Hk. unfold creatureId. destruct a; try by eexists.
    destruct (heap l !! r) as [o|]; [| done]. simpl.
    destruct (payload o) as [p|]; [| by eexists].
    apply bool_decide_eq_true in Ho as [c Hc]. rewrite Hc. simpl. by eexists.
Qed.

Lemma reduceArguments_total (l : lua_State) (args : list Value)
    (env : ScriptEnvironment) :
  objectArguments g str2d l args = true →
  is_Some (reduceArguments g str2d l args env).
Proof.
  revert env. induction args as [|a args IH]; intros env Ho; [by eexists |].
  simpl in Ho. apply andb_true_iff in Ho as [Ha Ho]. simpl.
  destruct (isUnsafeType (dataTypeOf str2d l a)) eqn:Hu.
  - destruct (stableIdOf_total l a env Ha Hu) as [[a1 env1] Hs]. rewrite Hs.
    simpl. destruct (IH env1 Ho) as [[rs env2] Hr]. rewrite Hr. by eexists.
  - simpl. destruct (IH env Ho) as [[rs env2] Hr]. rewrite Hr. by eexists.
Qed.

(** What the reduction makes of an object: a number. *)
Lemma stableIdOf_object (l : lua_State) (t : Z) (r : N) (o : Object) (p : addr)
    (env env' : ScriptEnvironment) (a1 : Value) :
  stableIdOf g l t (Userdata r) env = Some (a1, env') →
  heap l !! r = Some o →
  payload o = Some p →
  match thingAt g p with
  | ItemThing i =>
    if bool_decide (getUniqueId i = 0)
    then a1 = Number (addThing g (Some p) env).1
    else a1 = Number (getUniqueId i)
  | CreatureThing c => a1 = Number (creature_id c)
  | TileThing _ => False
  end.
Proof.
  unfold stableIdOf, itemUid, creatureId.
  intros Hs Ho Hp. rewrite Ho in Hs. cbn [mbind option_bind] in Hs.
  rewrite Hp in Hs.
  assert (Hi : itemAt g p = match thingAt g p with ItemThing i => Some i | _ => None end)
    by done.
  assert (Hc : creatureAt g p = match thingAt g p with CreatureThing c => Some c | _ => None end)
    by done.
  rewrite Hi, Hc in Hs. clear Hi Hc.
  destruct (thingAt g p) as [i|c|b]; cbn [mbind option_bind] in Hs.
  - destruct (isItemType t); [| by destruct (isCreatureType t)].
    destruct (bool_decide (getUniqueId i = 0)); by inversion Hs.
  - destruct (isItemType t); [done |].
    destruct (isCreatureType t); by inversion Hs.
  - destruct (isItemType t); [done | by destruct (isCreatureType t)].
Qed.

(** The uid [addThing] returns for an item that is not removed and has no
    unique id is bound to the item afterwards. *)
Lemma addThing_binds (p : addr) (i : Item) (env : ScriptEnvironment) :
  thingAt g p = ItemThing i → item_removed i = false →
  item_uniqueIdAttr i = None →
  localMap (addThing g (Some p) env).2 !! (addThing g (Some p) env).1
  = Some (Some p).
Proof.
  intros Ht Hr Hu. rewrite (addThing_item g env p i Ht Hr Hu).
  destruct (findUid (Some p) (localMap env)) as [uid|] eqn:Hf; simpl.
  - by apply findUid_Some.
  - apply lookup_insert_eq.
Qed.

(** [addThing] keeps an environment whose uids are not above its counter,
    and the bindings of such an environment. *)
Lemma addThing_keeps (thing : option addr) (env : ScriptEnvironment) :
  uidsBelow env → 0 ≤ lastUID env → lastUID env + 1 < 2 ^ 32 →
  uidsBelow (addThing g thing env).2
  ∧ lastUID env ≤ lastUID (addThing g thing env).2 ≤ lastUID env + 1
  ∧ ∀ uid, is_Some (localMap env !! uid) →
      localMap (addThing g thing env).2 !! uid = localMap env !! uid.
Proof.
  intros Hinv H0 Hmax.
  assert (Hfree : localMap env !! (lastUID env + 1) = None).
  { apply eq_None_not_Some. intros Hs. apply Hinv in Hs. lia. }
  assert (Hw : wrap32 (lastUID env + 1) = lastUID env + 1).
  { unfold wrap32, wrap. apply Z.mod_small. lia. }
  assert (Hsame : uidsBelow env ∧ lastUID env ≤ lastUID env ≤ lastUID env + 1
                  ∧ ∀ uid, is_Some (localMap env !! uid) →
                      localMap env !! uid = localMap env !! uid)
    by (split; [done | split; [lia | done]]).
  unfold addThing. destruct thing as [t|]; [| exact Hsame].
  destruct (isRemoved _); [exact Hsame |].
  destruct (creatureAt g t); [exact Hsame |].
  destruct (uniqueIdOf g t); [exact Hsame |].
  destruct (findUid _ _); [exact Hsame |]. simpl. rewrite Hw.
  split; [| split; [lia |]].
  - intros u [x Hx]. simpl in Hx. simpl.
    destruct (decide (u = lastUID env + 1)) as [-> | Hne]; [lia |].
    rewrite lookup_insert_ne in Hx by done.
    assert (0 ≤ u ≤ lastUID env) by (apply Hinv; eauto). lia.
  - intros uid Hs. rewrite lookup_insert_ne; [done |]. intros <-.
    rewrite Hfree in Hs. by destruct Hs.
Qed.

(** The environment after the reduction of one argument. *)
Lemma stableIdOf_env (l : lua_State) (t : Z) (a a1 : Value)
    (env env' : ScriptEnvironment) :
  stableIdOf g l t a env = Some (a1, env') →
  env' = env ∨ ∃ p, env' = (addThing g (Some p) env).2.
Proof.
  unfold stableIdOf, itemUid, creatureId. intros H.
  destruct (isItemType t).
  - destruct a; try (left; by simplify_eq).
    destruct (heap l !! r) as [o|]; [| done]. cbn [mbind option_bind] in H.
    destruct (payload o) as [p|]; [| left; by simplify_eq].
    destruct (itemAt g p) as [i|]; [| done]. cbn [mbind option_bind] in H.
    destruct (bool_decide (getUniqueId i = 0)); simplify_eq; eauto.
  - destruct (isCreatureType t); [| done].
    destruct a; try (left; by simplify_eq).
    destruct (heap l !! r) as [o|]; [| done]. cbn [mbind option_bind] in H.
    destruct (payload o) as [p|]; [| left; by simplify_eq].
    destruct (creatureAt g p) as [c|]; [| done]. cbn [mbind option_bind] in H.
    left. by simplify_eq.
Qed.

(** The reduction of an item without unique id is the call of [addThing]
    in the environment of that moment. *)
Lemma stableIdOf_plain (l : lua_State) (t : Z) (r : N) (o : Object) (p : addr)
    (i : Item) (env env' : ScriptEnvironment) (a1 : Value) :
  stableIdOf g l t (Userdata r) env = Some (a1, env') →
  heap l !! r = Some o →
  payload o = Some p →
  thingAt g p = ItemThing i →
  getUniqueId i = 0 →
  a1 = Number (addThing g (Some p) env).1
  ∧ env' = (addThing g (Some p) env).2.
Proof.
  unfold stableIdOf, itemUid, creatureId.
  intros Hs Ho Hp Ht Hu. rewrite Ho in Hs. cbn [mbind option_bind] in Hs.
  rewrite Hp in Hs.
  assert (Hi : itemAt g p = Some i) by (unfold itemAt; by rewrite Ht).
  assert (Hc : creatureAt g p = None) by (unfold creatureAt; by rewrite Ht).
  rewrite Hi, Hc in Hs. cbn [mbind option_bind] in Hs.
  rewrite bool_decide_eq_true_2 in Hs by done.
  destruct (isItemType t); [by simplify_eq |].
  by destruct (isCreatureType t).
Qed.

(** The argument at each position of the reduced list, with the environment
    in which it was reduced: the one the arguments before it left. *)
Lemma reduceArguments_take (l : lua_State) (args : list Value) :
  ∀ (env : ScriptEnvironment) (args1 : list Value) (env1 : ScriptEnvironment)
    (j : nat) (a : Value),
  reduceArguments g str2d l args env = Some (args1, env1) →
  args !! j = Some a →
  ∃ a1 env0,
    args1 !! j = Some a1
    ∧ reduceArguments g str2d l (take j args) env = Some (take j args1, env0)
    ∧ if isUnsafeType (dataTypeOf str2d l a)
      then ∃ env0', stableIdOf g l (dataTypeOf str2d l a) a env0
                    = Some (a1, env0')
      else a1 = a.
Proof.
  induction args as [|a0 args IH]; intros env args1 env1 j a Hr Hj; [done |].
  simpl in Hr.
  destruct (if isUnsafeType (dataTypeOf str2d l a0) then _ else _)
    as [[b env2]|] eqn:Hb; simpl in Hr; [| done].
  destruct (reduceArguments g str2d l args env2) as [[rs env3]|] eqn:Hrs;
    simpl in Hr; [| done].
  simplify_eq. destruct j as [|j]; simpl in Hj.
  - simplify_eq. exists b, env. split; [done |]. split; [done |].
    destruct (isUnsafeType _); [by eexists | by simplify_eq].
  - destruct (IH env2 rs env1 j a Hrs Hj) as (a1 & env0 & Ha1 & Htake & Hkind).
    exists a1, env0. split; [done |]. split; [| done].
    simpl. rewrite Hb. simpl. rewrite Htake. reflexivity.
Qed.

(** In an environment whose uids are not above its counter, with room for
    one uid for each argument, the reduction keeps the bindings that were
    there, and the number it makes of an item that is not removed and has
    no unique id is a uid the environment binds to the item when the
    reduction is over. *)
Lemma reduceArguments_binds (l : lua_State) (args : list Value) :
  ∀ (env : ScriptEnvironment) (args1 : list Value) (env1 : ScriptEnvironment),
  uidsBelow env → 0 ≤ lastUID env →
  lastUID env + Z.of_nat (length args) < 2 ^ 32 →
  reduceArguments g str2d l args env = Some (args1, env1) →
  uidsBelow env1
  ∧ lastUID env ≤ lastUID env1 ≤ lastUID env + Z.of_nat (length args)
  ∧ (∀ uid, is_Some (localMap env !! uid) →
       localMap env1 !! uid = localMap env !! uid)
  ∧ ∀ (j : nat) (r : N) (o : Object) (p : addr) (i : Item),
      args !! j = Some (Userdata r) →
      isUnsafeType (dataTypeOf str2d l (Userdata r)) = true →
      heap l !! r = Some o → payload o = Some p →
      thingAt g p = ItemThing i → item_removed i = false →
      item_uniqueIdAttr i = None →
      ∃ uid, args1 !! j = Some (Number uid)
             ∧ localMap env1 !! uid = Some (Some p).
Proof.
  induction args as [|a0 args IH]; intros env args1 env1 Hinv H0 Hmax Hr.
  { simpl in Hr. simplify_eq. split; [done |]. split; [simpl; lia |].
    split; [done |]. intros j r o p i Hj. done. }
  simpl in Hr. simpl length in Hmax.
  destruct (if isUnsafeType (dataTypeOf str2d l a0) then _ else _)
    as [[b env2]|] eqn:Hb; simpl in Hr; [| done].
  destruct (reduceArguments g str2d l args env2) as [[rs env3]|] eqn:Hrs;
    simpl in Hr; [| done].
  simplify_eq.
  assert (Hstep : uidsBelow env2
                  ∧ lastUID env ≤ lastUID env2 ≤ lastUID env + 1
                  ∧ ∀ uid, is_Some (localMap env !! uid) →
                      localMap env2 !! uid = localMap env !! uid).
  { assert (Henv : env2 = env ∨ ∃ p, env2 = (addThing g (Some p) env).2).
    { destruct (isUnsafeType _); [by eapply stableIdOf_env | left; by simplify_eq]. }
    destruct Henv as [-> | [p ->]].
    - split; [done |]. split; [lia | done].
    - apply addThing_keeps; [done | done | lia]. }
  destruct Hstep as (Hinv2 & Hlast2 & Hkeep2).
  destruct (IH env2 rs env1 Hinv2) as (Hinv1 & Hlast1 & Hkeep1 & Hbind1);
    [lia | lia | done |].
  split; [done |]. split; [simpl length; lia |]. split.
  { intros uid Hs. rewrite <- (Hkeep2 uid Hs). apply Hkeep1.
    by rewrite (Hkeep2 uid Hs). }
  intros j r o p i Hj Hu Ho Hp Ht Hrem Hattr.
  destruct j as [|j]; simpl in Hj.
  - simplify_eq. rewrite Hu in Hb.
    destruct (stableIdOf_plain l _ r o p i env env2 b Hb Ho Hp Ht)
      as [-> ->].
    { unfold getUniqueId. by rewrite Hattr. }
    eexists. split; [reflexivity |].
    rewrite Hkeep1.
    + by apply (addThing_binds p i env).
    + rewrite (addThing_binds p i env) by done. by eexists.
  - simpl. by eapply Hbind1.
Qed.

End Reduction.


Section AddEventClaims.

Variable g : Game.
Variable config : Config.
Variable str2d : string → option Z.



(** C6: with the convert switch on, [addEvent] stores a descriptor whose
    captured arguments are the arguments of the call, in order, except that
    every argument found unsafe (its metatable carries the type of an item
    or of a creature) is captured as a number: a creature as its id, an
    item as its unique id, and an item without unique id as the uid
    [addThing] gives it in the environment in use, as the arguments before
    it have left that environment.  An argument that is not found unsafe is
    captured unchanged.  When the uids of the environment in use are not
    above its counter and the counter has room for one uid for each
    argument, the number captured for an item that is not removed and has
    no unique id is a uid that the environment in use binds to that item
    after the call, and that [getThingByUID] resolves to the item when it
    is in the local range. *)
Theorem luaAddEvent_converts (w : World) (cb : Value) (d : Z)
    (args : list Value) (env : ScriptEnvironment) :
  CONVERT_UNSAFE_SCRIPTS config = true →
  stack (L w) = cb :: Number d :: args →
  isfunction cb = true →
  inUse env w →
  metatablesIn (L w) args = true →
  gettersRegistered (L w) →
  objectArguments g str2d (L w) args = true →
  timerEvents w !! lastEventTimerId w = None →
  ∃ (w' : World) (desc : LuaTimerEventDesc) (captured : list Value)
    (env1 : ScriptEnvironment),
    luaAddEvent g config str2d w = Some (1, w')
    ∧ timerEvents w' !! lastEventTimerId w = Some desc
    ∧ Forall2 (captures (L w')) (reverse (desc_parameters desc)) captured
    ∧ length captured = length args
    ∧ inUse env1 w'
    ∧ (∀ (j : nat) (a : Value), args !! j = Some a →
        ∃ a1 : Value, captured !! j = Some a1
          ∧ (isUnsafeType (dataTypeOf str2d (L w) a) = false → a1 = a)
          ∧ (isUnsafeType (dataTypeOf str2d (L w) a) = true →
             ∀ (r : N) (o : Object) (p : addr),
               a = Userdata r → heap (L w) !! r = Some o → payload o = Some p →
               match thingAt g p with
               | ItemThing i =>
                 if bool_decide (getUniqueId i = 0)
                 then ∃ env0,
                        reduceArguments g str2d (L w) (take j args) env
                          = Some (take j captured, env0)
                        ∧ a1 = Number (addThing g (Some p) env0).1
                 else a1 = Number (getUniqueId i)
               | CreatureThing c => a1 = Number (creature_id c)
               | TileThing _ => False
               end))
    ∧ (uidsBelow env → 0 ≤ lastUID env →
       lastUID env + Z.of_nat (length args) < 2 ^ 32 →
       ∀ (j : nat) (r : N) (o : Object) (p : addr) (i : Item),
         args !! j = Some (Userdata r) →
         isUnsafeType (dataTypeOf str2d (L w) (Userdata r)) = true →
         heap (L w) !! r = Some o → payload o = Some p →
         thingAt g p = ItemThing i → item_removed i = false →
         item_uniqueIdAttr i = None →
         ∃ uid : Z,
           captured !! j = Some (Number uid)
           ∧ localMap env1 !! uid = Some (Some p)
           ∧ (UINT16_MAX < uid < CREATURE_ID_MIN →
              getThingByUID g env1 uid = Some (Some p))).
Proof.
  intros Hconv Hs Hcb Hin Hm Hg Ho Hfree.
  destruct (reduceArguments_total g str2d (L w) args env Ho) as [[args1 env1] Hr].
  assert (Hc : if CONVERT_UNSAFE_SCRIPTS config
               then gettersRegistered (L w)
                    ∧ reduceArguments g str2d (L w) args env = Some (args1, env1)
               else args1 = args ∧ env1 = env) by (by rewrite Hconv).
  destruct (luaAddEvent_spec g str2d config w cb d args args1 env env1
              Hs Hcb Hin Hm Hc)
    as (refs & fref & w' & Hrun & _ & _ & _ & Hbridge & Ht & _ & Hlen & Hcap).
  eexists w', _, args1, env1. split_and!.
  - exact Hrun.
  - rewrite (Ht Hfree). apply lookup_insert_eq.
  - exact Hcap.
  - by eapply reduceArguments_length.
  - pose proof (inUse_withScriptEnv env env1 w Hin) as [H0 He].
    unfold inUse. rewrite Hbridge. by split.
  - intros j a Hj.
    destruct (reduceArguments_take g str2d (L w) args env args1 env1 j a Hr Hj)
      as (a1 & env0 & Ha1 & Htake & Hkind).
    exists a1. split_and!; [done | |].
    + intros Hu. by rewrite Hu in Hkind.
    + intros Hu r o p -> Hor Hp. rewrite Hu in Hkind.
      destruct Hkind as (env0' & Hst).
      pose proof (stableIdOf_object g (L w) _ r o p env0 env0' a1 Hst Hor Hp) as Hobj.
      destruct (thingAt g p); [| done | done].
      case_bool_decide; [by exists env0 | done].
  - intros Hinv H0 Hmax j r o p i Hj Hu Hor Hp Hthing Hrem Hattr.
    destruct (reduceArguments_binds g str2d (L w) args env args1 env1
                Hinv H0 Hmax Hr) as (_ & _ & _ & Hbind).
    destruct (Hbind j r o p i Hj Hu Hor Hp Hthing Hrem Hattr)
      as (uid & Huid & Hlocal).
    exists uid. split; [done |]. split; [done |].
    intros Hrange. unfold getThingByUID.
    rewrite bool_decide_eq_false_2 by lia.
    rewrite bool_decide_eq_false_2 by lia.
    unfold localLookup. rewrite Hlocal. unfold isRemoved.
    by rewrite Hthing, Hrem.
Qed.

End AddEventClaims.


(** Scenario 4 of the specification: the item, the player and the item
    with a unique id are captured as numbers, the number 42 as it is.  The
    item without unique id is captured as the uid 65536, the first after
    the base of the environment, which resolves to the item afterwards. *)
Lemma luaAddEvent_converts_witness :
  ∃ (w' : World) (desc : LuaTimerEventDesc) (captured : list Value)
    (env1 : ScriptEnvironment),
    luaAddEvent exampleGame exampleConfig noNumber exampleWorld = Some (1, w')
    ∧ timerEvents w' !! 1 = Some desc
    ∧ Forall2 (captures (L w')) (reverse (desc_parameters desc)) captured
    ∧ inUse env1 w'
    ∧ captured !! 0%nat = Some (Number 65536)
    ∧ getThingByUID exampleGame env1 65536 = Some (Some 1%N)
    ∧ captured !! 1%nat = Some (Number 0x10000005)
    ∧ captured !! 2%nat = Some (Number 42)
    ∧ captured !! 3%nat = Some (Number 1234).
Proof.
  destruct (luaAddEvent_converts exampleGame exampleConfig noNumber exampleWorld
              (Closure 0) 10 [Userdata 9; Userdata 10; Number 42; Userdata 11]
              (newScriptEnvironment UINT16_MAX))
    as (w' & desc & captured & env1 & Hrun & Hdesc & Hcap & Hlen & Henv1
        & Hargs & Hbound).
  - reflexivity.
  - vm_compute. reflexivity.
  - reflexivity.
  - split; [vm_compute; discriminate | vm_compute; reflexivity].
  - vm_compute. reflexivity.
  - split; vm_compute; reflexivity.
  - vm_compute. reflexivity.
  - reflexivity.
  - assert (Hu9 : isUnsafeType (dataTypeOf noNumber (L exampleWorld) (Userdata 9))
                  = true) by (vm_compute; reflexivity).
    assert (∃ o, heap (L exampleWorld) !! 9%N = Some o ∧ payload o = Some 1%N)
      as (o9 & Ho9 & Hp9) by (eexists; split; vm_compute; reflexivity).
    assert (Hth : thingAt exampleGame 1%N = ItemThing plainItem) by reflexivity.
    assert (H0 : captured !! 0%nat = Some (Number 65536)).
    { destruct (Hargs 0%nat (Userdata 9) eq_refl) as (a1 & Ha1 & _ & Hobj).
      specialize (Hobj Hu9 9%N o9 1%N eq_refl Ho9 Hp9).
      rewrite Hth in Hobj.
      change (bool_decide (getUniqueId plainItem = 0)) with true in Hobj.
      destruct Hobj as (env0 & Henv0 & Ha).
      simpl in Henv0. injection Henv0 as <-.
      rewrite Ha1, Ha. reflexivity. }
    exists w', desc, captured, env1.
    split_and!; [done | done | done | done | done | | | |].
    + assert (Hinv : uidsBelow (newScriptEnvironment UINT16_MAX)).
      { intros uid [x Hx]. simpl in Hx. by rewrite lookup_empty in Hx. }
      assert (Hlast : 0 ≤ lastUID (newScriptEnvironment UINT16_MAX))
        by (vm_compute; discriminate).
      assert (Hroom : lastUID (newScriptEnvironment UINT16_MAX)
                      + Z.of_nat (length [Userdata 9; Userdata 10; Number 42;
                                          Userdata 11]) < 2 ^ 32)
        by (vm_compute; reflexivity).
      destruct (Hbound Hinv Hlast Hroom 0%nat 9%N o9 1%N plainItem eq_refl
                  Hu9 Ho9 Hp9 Hth eq_refl eq_refl)
        as (uid & Huid & _ & Hres).
      rewrite H0 in Huid. injection Huid as <-. apply Hres.
      split; vm_compute; reflexivity.
    + destruct (Hargs 1%nat (Userdata 10) eq_refl) as (a1 & Ha1 & _ & Hobj).
      assert (Hu : isUnsafeType (dataTypeOf noNumber (L exampleWorld) (Userdata 10)) = true)
        by (vm_compute; reflexivity).
      assert (∃ o, heap (L exampleWorld) !! 10%N = Some o ∧ payload o = Some 2%N)
        as (o & Ho & Hp) by (eexists; split; vm_compute; reflexivity).
      specialize (Hobj Hu 10%N o 2%N eq_refl Ho Hp). vm_compute in Hobj.
      rewrite Ha1. f_equal. exact Hobj.
    + destruct (Hargs 2%nat (Number 42) eq_refl) as (a1 & Ha1 & Hsame & _).
      rewrite Ha1. f_equal. apply Hsame. vm_compute. reflexivity.
    + destruct (Hargs 3%nat (Userdata 11) eq_refl) as (a1 & Ha1 & _ & Hobj).
      assert (Hu : isUnsafeType (dataTypeOf noNumber (L exampleWorld) (Userdata 11)) = true)
        by (vm_compute; reflexivity).
      assert (∃ o, heap (L exampleWorld) !! 11%N = Some o ∧ payload o = Some 3%N)
        as (o & Ho & Hp) by (eexists; split; vm_compute; reflexivity).
      specialize (Hobj Hu 11%N o 3%N eq_refl Ho Hp). vm_compute in Hobj.
      rewrite Ha1. f_equal. exact Hobj.
Defined.

(** * Further properties of the script environment *)

Lemma set_localMap_same env : set_localMap (localMap env) env = env.
Proof. by destruct env. Qed.

(** X1.  [removeItemByUID] of a uid above the range of the unique items
    makes no call on the engine and erases the binding of that uid only: a
    local uid resolves to nothing afterwards, every other uid resolves as
    before, and the counter of the uids is kept. *)
Theorem removeItemByUID_resolve (g : Game) (env : ScriptEnvironment) (uid : Z) :
  UINT16_MAX < uid →
  (removeItemByUID uid env).2 = []
  ∧ (uid < CREATURE_ID_MIN →
     getThingByUID g (removeItemByUID uid env).1 uid = Some None)
  ∧ (∀ u, u ≠ uid →
     getThingByUID g (removeItemByUID uid env).1 u = getThingByUID g env u)
  ∧ lastUID (removeItemByUID uid env).1 = lastUID env.
Proof.
  intros H. unfold removeItemByUID. rewrite bool_decide_eq_false_2 by lia.
  simpl. split; [done |]. split; [| split; [| done]].
  - intros H2. unfold getThingByUID.
    rewrite bool_decide_eq_false_2 by lia.
    rewrite bool_decide_eq_false_2 by lia.
    unfold localLookup. simpl. by rewrite lookup_delete_eq.
  - intros u Hu. unfold getThingByUID. repeat case_bool_decide; try done.
    unfold localLookup. simpl. by rewrite lookup_delete_ne.
Qed.

Lemma removeItemByUID_resolve_witness :
  (removeItemByUID 70000 (insertItem 70000 (Some 1%N)
                            (newScriptEnvironment UINT16_MAX)).1).2 = []
  ∧ getThingByUID gameOfItems
      (removeItemByUID 70000 (insertItem 70000 (Some 1%N)
                                (newScriptEnvironment UINT16_MAX)).1).1 70000
    = Some None.
Proof.
  pose proof (removeItemByUID_resolve gameOfItems
                (insertItem 70000 (Some 1%N) (newScriptEnvironment UINT16_MAX)).1
                70000) as H.
  destruct H as (H1 & H2 & _); [vm_compute; reflexivity |].
  split; [exact H1 |]. apply H2. vm_compute; reflexivity.
Defined.

(** X2.  [insertItem] of an item that is not removed, under a local uid
    that is free: the uid resolves to the item, every other uid resolves as
    before, nothing is printed, and [removeItemByUID] of the uid gives the
    environment back as it was. *)
Theorem insertItem_resolve (g : Game) (env : ScriptEnvironment) (uid : Z)
    (item : addr) :
  UINT16_MAX < uid < CREATURE_ID_MIN →
  localMap env !! uid = None →
  isRemoved (thingAt g item) = false →
  getThingByUID g (insertItem uid (Some item) env).1 uid = Some (Some item)
  ∧ (insertItem uid (Some item) env).2 = []
  ∧ (∀ u, u ≠ uid →
     getThingByUID g (insertItem uid (Some item) env).1 u
       = getThingByUID g env u)
  ∧ (removeItemByUID uid (insertItem uid (Some item) env).1).1 = env.
Proof.
  intros H Hfree Hrem. unfold insertItem. rewrite Hfree. simpl.
  split; [| split; [done | split]].
  - unfold getThingByUID.
    rewrite bool_decide_eq_false_2 by lia.
    rewrite bool_decide_eq_false_2 by lia.
    unfold localLookup. simpl. rewrite lookup_insert_eq. by rewrite Hrem.
  - intros u Hu. unfold getThingByUID. repeat case_bool_decide; try done.
    unfold localLookup. simpl. by rewrite lookup_insert_ne.
  - unfold removeItemByUID. rewrite bool_decide_eq_false_2 by lia. simpl.
    unfold set_localMap. simpl. rewrite delete_insert_eq.
    rewrite delete_id by done. by destruct env.
Qed.

Lemma insertItem_resolve_witness :
  getThingByUID gameOfItems
    (insertItem 70000 (Some 1%N) (newScriptEnvironment UINT16_MAX)).1 70000
  = Some (Some 1%N).
Proof.
  apply (insertItem_resolve gameOfItems (newScriptEnvironment UINT16_MAX)
           70000 1%N); vm_compute; try reflexivity; split; congruence.
Defined.

(** X3.  A binding that [insertItem] makes under a uid outside the local
    range is never read: [getThingByUID] answers for every uid as it did
    before the insertion. *)
Theorem insertItem_outside_local (g : Game) (env : ScriptEnvironment)
    (uid : Z) (item : option addr) :
  uid ≤ UINT16_MAX ∨ CREATURE_ID_MIN ≤ uid →
  ∀ u, getThingByUID g (insertItem uid item env).1 u = getThingByUID g env u.
Proof.
  intros H u. unfold insertItem.
  destruct (localMap env !! uid) eqn:E; [done |]. simpl.
  unfold getThingByUID. repeat case_bool_decide; try done.
  unfold localLookup. simpl. rewrite lookup_insert_ne; [done |].
  intros ->. unfold UINT16_MAX, CREATURE_ID_MIN in *. lia.
Qed.

Lemma insertItem_outside_local_witness :
  getThingByUID gameOfItems
    (insertItem 5 (Some 1%N) (newScriptEnvironment UINT16_MAX)).1 5
  = getThingByUID gameOfItems (newScriptEnvironment UINT16_MAX) 5.
Proof.
  apply (insertItem_outside_local gameOfItems (newScriptEnvironment UINT16_MAX)
           5 (Some 1%N)).
  left. vm_compute. congruence.
Defined.

(** ** The uids [addThing] hands out *)

Lemma uidsBelow_resetMembers env : 0 ≤ lastUID env → uidsBelow (resetMembers env).
Proof. intros _ uid [x Hx]. simpl in Hx. by rewrite lookup_empty in Hx. Qed.

Lemma uidsBelow_removeItemByUID uid env :
  uidsBelow env → uidsBelow (removeItemByUID uid env).1.
Proof.
  intros Hinv. unfold removeItemByUID. case_bool_decide; [done |].
  intros u [x Hx]. simpl in Hx.
  destruct (decide (u = uid)) as [-> | Hne].
  - by rewrite lookup_delete_eq in Hx.
  - rewrite lookup_delete_ne in Hx by done. simpl. apply Hinv. eauto.
Qed.

(** X4.  In an environment whose local uids all came from [addThing] (none
    is above [lastUID]) and whose counter has not reached the end of
    [uint32_t], [addThing] either leaves the environment as it is or binds
    the uid [lastUID + 1], which was free, to the item; the bindings that
    were there stay, and the counter never goes back.  [resetEnv] and
    [removeItemByUID] keep such an environment. *)
Theorem addThing_fresh (g : Game) (thing : option addr) (env : ScriptEnvironment) :
  uidsBelow env → 0 ≤ lastUID env → lastUID env + 1 < 2 ^ 32 →
  uidsBelow (addThing g thing env).2
  ∧ lastUID env ≤ lastUID (addThing g thing env).2
  ∧ ((addThing g thing env).2 = env
     ∨ ((addThing g thing env).1 = lastUID env + 1
        ∧ lastUID (addThing g thing env).2 = lastUID env + 1
        ∧ localMap env !! (lastUID env + 1) = None
        ∧ localMap (addThing g thing env).2 !! (lastUID env + 1)
          = Some (thing ≫= getItem g)))
  ∧ (∀ uid, is_Some (localMap env !! uid) →
     localMap (addThing g thing env).2 !! uid = localMap env !! uid)
  ∧ uidsBelow (resetMembers env)
  ∧ (∀ uid, uidsBelow (removeItemByUID uid env).1).
Proof.
  intros Hinv H0 Hmax.
  assert (Hfree : localMap env !! (lastUID env + 1) = None).
  { apply eq_None_not_Some. intros Hs. apply Hinv in Hs. lia. }
  assert (Hw : wrap32 (lastUID env + 1) = lastUID env + 1).
  { unfold wrap32, wrap. apply Z.mod_small. lia. }
  split; [| split; [| split; [| split; [| split]]]].
  - unfold addThing. destruct thing as [t|]; [| done].
    destruct (isRemoved _); [done |]. destruct (creatureAt g t); [done |].
    destruct (uniqueIdOf g t); [done |].
    destruct (findUid _ _); [done |]. simpl. rewrite Hw.
    intros u [x Hx]. simpl in Hx. simpl.
    destruct (decide (u = lastUID env + 1)) as [-> | Hne]; [lia |].
    rewrite lookup_insert_ne in Hx by done.
    assert (0 ≤ u ≤ lastUID env) by (apply Hinv; eauto). lia.
  - unfold addThing. destruct thing as [t|]; [| simpl; lia].
    destruct (isRemoved _); [simpl; lia |].
    destruct (creatureAt g t); [simpl; lia |].
    destruct (uniqueIdOf g t); [simpl; lia |].
    destruct (findUid _ _); [simpl; lia |]. simpl. rewrite Hw. lia.
  - unfold addThing. destruct thing as [t|]; [| by left].
    destruct (isRemoved _); [by left |].
    destruct (creatureAt g t); [by left |].
    destruct (uniqueIdOf g t); [by left |].
    destruct (findUid _ _); [by left |]. right. simpl. rewrite Hw.
    by rewrite lookup_insert_eq.
  - intros uid Hs. unfold addThing. destruct thing as [t|]; [| done].
    destruct (isRemoved _); [done |]. destruct (creatureAt g t); [done |].
    destruct (uniqueIdOf g t); [done |].
    destruct (findUid _ _); [done |]. simpl. rewrite Hw.
    rewrite lookup_insert_ne; [done |]. intros <-.
    rewrite Hfree in Hs. by destruct Hs.
  - by apply uidsBelow_resetMembers.
  - intros uid. by apply uidsBelow_removeItemByUID.
Qed.

Lemma addThing_fresh_witness :
  (addThing gameOfItems (Some 1%N) (newScriptEnvironment UINT16_MAX)).2
    = newScriptEnvironment UINT16_MAX
  ∨ (addThing gameOfItems (Some 1%N) (newScriptEnvironment UINT16_MAX)).1
    = lastUID (newScriptEnvironment UINT16_MAX) + 1.
Proof.
  destruct (addThing_fresh gameOfItems (Some 1%N)
              (newScriptEnvironment UINT16_MAX)) as (_ & _ & H & _).
  - intros uid [x Hx]. simpl in Hx. by rewrite lookup_empty in Hx.
  - vm_compute. congruence.
  - vm_compute. reflexivity.
  - destruct H as [H | (H & _)]; [by left | by right].
Defined.

(** X5.  What [getContainerByUID] returns is a container, and
    [getItemByUID] and [getThingByUID] return the same pointer for the uid;
    below the range of the creatures the container is not removed. *)
Theorem getContainerByUID_item (g : Game) (env : ScriptEnvironment) (uid : Z)
    (c : addr) :
  getContainerByUID g env uid = Some (Some c) →
  getItemByUID g env uid = Some (Some c)
  ∧ getThingByUID g env uid = Some (Some c)
  ∧ ∃ i, itemAt g c = Some i ∧ item_kind i = ContainerItem
         ∧ (uid < CREATURE_ID_MIN → item_removed i = false).
Proof.
  unfold getContainerByUID, getItemByUID. intros H.
  destruct (getThingByUID g env uid) as [[t|]|] eqn:Et; simpl in H; try done.
  unfold getItem in *. unfold getContainer, itemAt in H.
  destruct (thingAt g t) as [i| |] eqn:Eth; simpl in H; try done.
  rewrite Eth in H. destruct (item_kind i) eqn:Ek; try done.
  simplify_eq. simpl. rewrite Eth. split; [done |]. split; [done |].
  exists i. unfold itemAt. rewrite Eth. split; [done |]. split; [done |].
  intros Hlt. unfold getThingByUID in Et.
  rewrite bool_decide_eq_false_2 in Et by lia.
  case_bool_decide.
  - unfold uniqueItemLookup in Et. destruct (getUniqueItem g uid) as [p|]; [| done].
    destruct (isRemoved (thingAt g p)) eqn:Er; simpl in Et; [done |].
    simplify_eq. rewrite Eth in Er. done.
  - unfold localLookup in Et.
    destruct (localMap env !! uid) as [[p|]|]; try done.
    destruct (isRemoved (thingAt g p)) eqn:Er; simpl in Et; [done |].
    simplify_eq. rewrite Eth in Er. done.
Qed.

(** ** The result cache *)

(** X6.  [addResult] returns the next id, under which [getResultByID] finds
    the result; the results under the other ids are found as before.
    [removeResult] of the id succeeds once: afterwards the id has no result
    and a second [removeResult] fails and changes nothing. *)
Theorem addResult_roundtrip (res : option N) (b : Bridge) :
  (addResult res b).1 = wrap32 (lastResultId b + 1)
  ∧ getResultByID (addResult res b).1 (addResult res b).2 = res
  ∧ (∀ id, id ≠ (addResult res b).1 →
     getResultByID id (addResult res b).2 = getResultByID id b)
  ∧ (removeResult (addResult res b).1 (addResult res b).2).1 = true
  ∧ getResultByID (addResult res b).1
      (removeResult (addResult res b).1 (addResult res b).2).2 = None
  ∧ removeResult (addResult res b).1
      (removeResult (addResult res b).1 (addResult res b).2).2
    = (false, (removeResult (addResult res b).1 (addResult res b).2).2).
Proof.
  unfold addResult, removeResult, getResultByID. simpl.
  rewrite lookup_insert_eq. simpl. rewrite lookup_delete_eq.
  repeat split; try done.
  intros id Hne. by rewrite lookup_insert_ne.
Qed.

(** X7.  In a cache whose ids all came from [addResult] (none is above
    [lastResultId]) and whose counter has not reached the end of
    [uint32_t], the id [addResult] returns was free, so no result is
    replaced and the results of the other ids are found as before;
    [addResult], [removeResult] and [resetEnv] keep such a cache. *)
Theorem addResult_fresh (res : option N) (b : Bridge) :
  resultsBelow b → 0 ≤ lastResultId b → lastResultId b + 1 < 2 ^ 32 →
  tempResults b !! (addResult res b).1 = None
  ∧ (∀ id, is_Some (tempResults b !! id) →
     getResultByID id (addResult res b).2 = getResultByID id b)
  ∧ resultsBelow (addResult res b).2
  ∧ (∀ id, resultsBelow (removeResult id b).2)
  ∧ (∀ g this, resultsBelow (resetEnv g this b)).
Proof.
  intros Hinv H0 Hmax.
  assert (Hw : wrap32 (lastResultId b + 1) = lastResultId b + 1).
  { unfold wrap32, wrap. apply Z.mod_small. lia. }
  assert (Hfree : tempResults b !! (lastResultId b + 1) = None).
  { apply eq_None_not_Some. intros Hs. apply Hinv in Hs. lia. }
  unfold addResult. simpl. rewrite Hw.
  split; [done |]. split; [| split; [| split]].
  - intros id Hs. unfold getResultByID. simpl.
    rewrite lookup_insert_ne; [done |]. intros <-.
    rewrite Hfree in Hs. by destruct Hs.
  - intros id [x Hx]. simpl in *.
    destruct (decide (id = lastResultId b + 1)) as [-> | Hne]; [lia |].
    rewrite lookup_insert_ne in Hx by done.
    assert (0 ≤ id ≤ lastResultId b) by (apply Hinv; eauto). lia.
  - intros id. unfold removeResult.
    destruct (tempResults b !! id) eqn:E; [| done].
    intros k [x Hx]. simpl in *.
    destruct (decide (k = id)) as [-> | Hne].
    + by rewrite lookup_delete_eq in Hx.
    + rewrite lookup_delete_ne in Hx by done. apply Hinv. eauto.
  - intros g this k [x Hx]. simpl in Hx. by rewrite lookup_empty in Hx.
Qed.

Lemma addResult_fresh_witness :
  tempResults newBridge !! (addResult (Some 7%N) newBridge).1 = None.
Proof.
  apply (addResult_fresh (Some 7%N) newBridge).
  - intros id [x Hx]. simpl in Hx. by rewrite lookup_empty in Hx.
  - vm_compute. congruence.
  - vm_compute. reflexivity.
Defined.

Lemma getContainerByUID_item_witness :
  getItemByUID gameOfContainers
    (insertItem 70000 (Some 1%N) (newScriptEnvironment UINT16_MAX)).1 70000
  = Some (Some 1%N).
Proof.
  apply (getContainerByUID_item gameOfContainers
           (insertItem 70000 (Some 1%N) (newScriptEnvironment UINT16_MAX)).1
           70000 1%N).
  vm_compute. reflexivity.
Defined.

(** ** The temporary items *)

Lemma equal_range_above this (l : list (nat * option addr)) :
  forallb (λ e' : nat * option addr, bool_decide (this < e'.1)%nat) l = true →
  equal_range this l = [].
Proof.
  unfold equal_range. induction l as [|e l IH]; [done |]. simpl.
  intros [He Hl]%andb_true_iff. apply bool_decide_eq_true in He.
  rewrite filter_cons_False by lia. by apply IH.
Qed.

Lemma forallb_le_trans (a b : nat) (l : list (nat * option addr)) :
  (a ≤ b)%nat →
  forallb (λ e' : nat * option addr, bool_decide (b ≤ e'.1)%nat) l = true →
  forallb (λ e' : nat * option addr, bool_decide (a ≤ e'.1)%nat) l = true.
Proof.
  intros Hab. induction l as [|e l IH]; [done |]. simpl.
  intros [He Hl]%andb_true_iff. apply bool_decide_eq_true in He.
  rewrite bool_decide_eq_true_2 by lia. by apply IH.
Qed.

Lemma forallb_lt_le (a b : nat) (l : list (nat * option addr)) :
  (a < b)%nat →
  forallb (λ e' : nat * option addr, bool_decide (b ≤ e'.1)%nat) l = true →
  forallb (λ e' : nat * option addr, bool_decide (a < e'.1)%nat) l = true.
Proof.
  intros Hab. induction l as [|e l IH]; [done |]. simpl.
  intros [He Hl]%andb_true_iff. apply bool_decide_eq_true in He.
  rewrite bool_decide_eq_true_2 by lia. by apply IH.
Qed.

Lemma multimap_emplace_forallb (a k : nat) v (l : list (nat * option addr)) :
  (a ≤ k)%nat →
  forallb (λ e' : nat * option addr, bool_decide (a ≤ e'.1)%nat) l = true →
  forallb (λ e' : nat * option addr, bool_decide (a ≤ e'.1)%nat)
    (multimap_emplace k v l) = true.
Proof.
  intros Hak. induction l as [|e l IH]; simpl.
  - intros _. by rewrite bool_decide_eq_true_2 by done.
  - intros [He Hl]%andb_true_iff.
    destruct (bool_decide (k < e.1)%nat); simpl.
    + rewrite bool_decide_eq_true_2 by done. by rewrite He, Hl.
    + rewrite He. by apply IH.
Qed.

Lemma multimap_emplace_sorted k v (l : list (nat * option addr)) :
  sortedByKey l = true → sortedByKey (multimap_emplace k v l) = true.
Proof.
  induction l as [|e l IH]; [done |]. simpl.
  intros [He Hl]%andb_true_iff. case_bool_decide as Hk; simpl.
  - rewrite bool_decide_eq_true_2 by lia.
    rewrite (forallb_le_trans k e.1 l) by (done || lia). by rewrite He, Hl.
  - rewrite multimap_emplace_forallb by (done || lia). by apply IH.
Qed.

Lemma multimap_emplace_equal_range k v (l : list (nat * option addr)) :
  sortedByKey l = true →
  equal_range k (multimap_emplace k v l) = equal_range k l ++ [v].
Proof.
  induction l as [|e l IH]; simpl.
  - intros _. unfold equal_range. by rewrite filter_cons_True by done.
  - intros [He Hl]%andb_true_iff. case_bool_decide as Hk.
    + assert (Habove : equal_range k (e :: l) = []).
      { apply equal_range_above. simpl. rewrite bool_decide_eq_true_2 by done.
        by apply (forallb_lt_le k e.1 l). }
      rewrite Habove. unfold equal_range in *.
      rewrite filter_cons_True by done. rewrite fmap_cons. by rewrite Habove.
    + unfold equal_range in *. destruct (decide (e.1 = k)) as [Hek | Hek].
      * rewrite !filter_cons_True by done. simpl. f_equal. by apply IH.
      * rewrite !filter_cons_False by done. by apply IH.
Qed.

Lemma multimap_emplace_equal_range_ne k other v (l : list (nat * option addr)) :
  other ≠ k →
  equal_range other (multimap_emplace k v l) = equal_range other l.
Proof.
  intros Hne. unfold equal_range. induction l as [|e l IH]; simpl.
  - by rewrite filter_cons_False by (simpl; congruence).
  - case_bool_decide.
    + by rewrite (filter_cons_False _ (k, v)) by (simpl; congruence).
    + destruct (decide (e.1 = other)).
      * rewrite !filter_cons_True by done. rewrite !fmap_cons. by rewrite IH.
      * rewrite !filter_cons_False by done. by apply IH.
Qed.

Lemma forallb_erase_first (P : nat * option addr → bool) item
    (l : list (nat * option addr)) :
  forallb P l = true → forallb P (erase_first item l) = true.
Proof.
  induction l as [|e l IH]; [done |]. simpl.
  intros [He Hl]%andb_true_iff. case_bool_decide; [done |]. simpl.
  rewrite He. by apply IH.
Qed.

Lemma erase_first_sorted item (l : list (nat * option addr)) :
  sortedByKey l = true → sortedByKey (erase_first item l) = true.
Proof.
  induction l as [|e l IH]; [done |]. simpl.
  intros [He Hl]%andb_true_iff. case_bool_decide; [done |]. simpl.
  rewrite forallb_erase_first by done. by apply IH.
Qed.

Lemma forallb_filter_keys (P : nat * option addr → bool) (this : nat)
    (l : list (nat * option addr)) :
  forallb P l = true →
  forallb P (filter (λ e : nat * option addr, e.1 ≠ this) l) = true.
Proof.
  induction l as [|e l IH]; [done |]. simpl.
  intros [He Hl]%andb_true_iff.
  destruct (decide (e.1 ≠ this)).
  - rewrite filter_cons_True by done. simpl. rewrite He. by apply IH.
  - rewrite filter_cons_False by done. by apply IH.
Qed.

Lemma filter_keys_sorted (this : nat) (l : list (nat * option addr)) :
  sortedByKey l = true →
  sortedByKey (filter (λ e : nat * option addr, e.1 ≠ this) l) = true.
Proof.
  induction l as [|e l IH]; [done |]. simpl.
  intros [He Hl]%andb_true_iff.
  destruct (decide (e.1 ≠ this)).
  - rewrite filter_cons_True by done. simpl.
    rewrite forallb_filter_keys by done. by apply IH.
  - rewrite filter_cons_False by done. by apply IH.
Qed.

(** X8.  With the entries of [tempItems] in the order of their keys, as a
    multimap keeps them, [addTempItem] puts the item after the entries the
    environment has and leaves the entries of every other environment as
    they are; [addTempItem], [removeTempItem] and [resetEnv] keep the
    order. *)
Theorem addTempItem_append (this : nat) (item : option addr) (b : Bridge) :
  sortedByKey (tempItems b) = true →
  tempItemsOf this (addTempItem this item b) = tempItemsOf this b ++ [item]
  ∧ (∀ other, other ≠ this →
     tempItemsOf other (addTempItem this item b) = tempItemsOf other b)
  ∧ sortedByKey (tempItems (addTempItem this item b)) = true
  ∧ (∀ x, sortedByKey (tempItems (removeTempItem x b)) = true)
  ∧ (∀ g env, sortedByKey (tempItems (resetEnv g env b)) = true).
Proof.
  intros Hs. unfold tempItemsOf, addTempItem, removeTempItem. simpl.
  split; [by apply multimap_emplace_equal_range |].
  split; [intros other Hne; by apply multimap_emplace_equal_range_ne |].
  split; [by apply multimap_emplace_sorted |].
  split; [intros x; by apply erase_first_sorted |].
  intros g env. by apply filter_keys_sorted.
Qed.

Lemma addTempItem_append_witness :
  tempItemsOf 2 (addTempItem 2 (Some 9%N)
                   (addTempItem 3 (Some 8%N) (addTempItem 2 (Some 7%N) newBridge)))
  = tempItemsOf 2 (addTempItem 3 (Some 8%N) (addTempItem 2 (Some 7%N) newBridge))
    ++ [Some 9%N].
Proof.
  apply (addTempItem_append 2 (Some 9%N)
           (addTempItem 3 (Some 8%N) (addTempItem 2 (Some 7%N) newBridge))).
  vm_compute. reflexivity.
Defined.

Lemma multimap_emplace_items k v (l : list (nat * option addr)) :
  (multimap_emplace k v l).*2 ≡ₚ v :: l.*2.
Proof.
  induction l as [|e l IH]; [done |]. simpl. case_bool_decide; [done |].
  simpl. rewrite IH. apply Permutation_swap.
Qed.

Lemma erase_first_items item (l : list (nat * option addr)) :
  item ∈ l.*2 → item :: (erase_first item l).*2 ≡ₚ l.*2.
Proof.
  induction l as [|e l IH]; simpl.
  - intros H. by apply elem_of_nil in H.
  - intros H. case_bool_decide as He.
    + by rewrite He.
    + apply elem_of_cons in H as [H | H]; [congruence |].
      simpl. rewrite Permutation_swap. by rewrite IH.
Qed.

Lemma erase_first_absent item (l : list (nat * option addr)) :
  item ∉ l.*2 → erase_first item l = l.
Proof.
  induction l as [|e l IH]; [done |]. simpl. intros H.
  apply not_elem_of_cons in H as [H1 H2].
  rewrite bool_decide_eq_false_2 by congruence. by rewrite IH.
Qed.

Lemma erase_first_length item (l : list (nat * option addr)) :
  item ∈ l.*2 → S (length (erase_first item l)) = length l.
Proof.
  intros H. apply erase_first_items in H.
  apply Permutation_length in H. simpl in H. by rewrite !length_fmap in H.
Qed.

Lemma erase_first_split item (l : list (nat * option addr)) :
  item ∈ l.*2 →
  ∃ pre k post,
    l = pre ++ (k, item) :: post ∧ (item ∉ pre.*2)
    ∧ erase_first item l = pre ++ post.
Proof.
  induction l as [| [k v] l IH]; simpl.
  - intros H. by apply elem_of_nil in H.
  - intros H. case_bool_decide as He; simpl in He.
    + subst v. exists [], k, l. split; [done |]. split; [| done].
      apply not_elem_of_nil.
    + apply elem_of_cons in H as [H | H]; [congruence |].
      destruct (IH H) as (pre & k' & post & -> & Hpre & Herase).
      exists ((k, v) :: pre), k', post. split; [done |]. split.
      * simpl. apply not_elem_of_cons. split; [congruence | done].
      * by rewrite Herase.
Qed.

Lemma erase_first_emplace k item (l : list (nat * option addr)) :
  item ∉ l.*2 → erase_first item (multimap_emplace k item l) = l.
Proof.
  induction l as [| e l IH]; simpl.
  - intros _. by rewrite bool_decide_eq_true_2.
  - intros H. apply not_elem_of_cons in H as [H1 H2].
    case_bool_decide; simpl.
    + by rewrite bool_decide_eq_true_2.
    + rewrite bool_decide_eq_false_2 by congruence. by rewrite IH.
Qed.

(** X9.  [removeTempItem] erases one entry that holds the item, the first in
    the order of the multimap, whichever environment registered it, and
    nothing when no entry holds the item: the entries before the erased
    one do not hold the item, and every other entry stays where it was,
    with its key.  So after [addTempItem] and [removeTempItem] of the same
    item the items held are those held before, and when the item was not
    held before, [tempItems] is exactly what it was. *)
Theorem removeTempItem_one (this : nat) (item : option addr) (b : Bridge) :
  (tempItems (removeTempItem item (addTempItem this item b))).*2
    ≡ₚ (tempItems b).*2
  ∧ length (tempItems (removeTempItem item b))
    = (length (tempItems b)
       - (if bool_decide (item ∈ (tempItems b).*2) then 1 else 0))%nat
  ∧ (if bool_decide (item ∈ (tempItems b).*2)
     then item :: (tempItems (removeTempItem item b)).*2 ≡ₚ (tempItems b).*2
          ∧ ∃ pre k post,
              tempItems b = pre ++ (k, item) :: post
              ∧ (item ∉ pre.*2)
              ∧ removeTempItem item b = set_tempItems (pre ++ post) b
     else removeTempItem item b = b
          ∧ removeTempItem item (addTempItem this item b) = b).
Proof.
  unfold removeTempItem, addTempItem. simpl. split; [| split].
  - apply (Permutation_cons_inv (a := item)).
    rewrite erase_first_items.
    + apply multimap_emplace_items.
    + rewrite multimap_emplace_items. apply elem_of_cons. by left.
  - case_bool_decide as H.
    + apply erase_first_length in H. lia.
    + rewrite erase_first_absent by done. lia.
  - case_bool_decide as H.
    + split; [by apply erase_first_items |].
      destruct (erase_first_split item (tempItems b) H)
        as (pre & k & post & Hl & Hpre & Herase).
      exists pre, k, post. by rewrite Herase.
    + rewrite erase_first_absent by done.
      rewrite erase_first_emplace by done. by destruct b.
Qed.

(** * Damage modifiers *)

(** X10.  A modifier is of at most one of the three kinds that depend on
    the target (monster, race, boss), and of none of them unless its stance
    is attack or defense. *)
Theorem modifier_basis_exclusive (m : DamageModifier) :
  isMonsterBased m && isRaceBased m = false
  ∧ isMonsterBased m && isBossBased m = false
  ∧ isRaceBased m && isBossBased m = false
  ∧ (isMonsterBased m || isRaceBased m || isBossBased m)
    && negb (isAttackStance m || isDefenseStance m) = false.
Proof.
  unfold isMonsterBased, isRaceBased, isBossBased, isAttackStance,
    isDefenseStance.
  destruct (bool_decide (m_mod_stance m = ATTACK_MOD));
    destruct (bool_decide (m_mod_stance m = DEFENSE_MOD)); simpl;
    repeat case_bool_decide; simpl; try done;
    unfold ATTACK_MODIFIER_BUTCHER, ATTACK_MODIFIER_HUNTER,
      ATTACK_MODIFIER_SLAYER, ATTACK_MODIFIER_CULL,
      DEFENSE_MODIFIER_BEASTARMOR, DEFENSE_MODIFIER_AEGIS,
      DEFENSE_MODIFIER_IMMORTAL, DEFENSE_MODIFIER_SLAYER in *; lia.
Qed.

(** X11.  For a value and an amount that fit [uint16_t], [increaseValue]
    stops at 65535 and [decreaseValue] at 0, each printing its warning
    exactly when it stops short; [decreaseValue] after [increaseValue] of the
    same amount gives the value back unless the increase was cut.
    [getValue] reports the value modulo 256. *)
Theorem increaseValue_decreaseValue (amount : Z) (m : DamageModifier) :
  0 ≤ m_value m ≤ UINT16_MAX → 0 ≤ amount ≤ UINT16_MAX →
  m_value (increaseValue amount m).1 = Z.min UINT16_MAX (m_value m + amount)
  ∧ m_value (decreaseValue amount m).1 = Z.max 0 (m_value m - amount)
  ∧ ((increaseValue amount m).2 = [] ↔ m_value m + amount ≤ UINT16_MAX)
  ∧ ((decreaseValue amount m).2 = [] ↔ amount ≤ m_value m)
  ∧ decreaseValue amount (increaseValue amount m).1
    = (set_m_value (Z.min (m_value m) (UINT16_MAX - amount)) m, [])
  ∧ getValue (increaseValue amount m).1
    = Z.min UINT16_MAX (m_value m + amount) mod 256.
Proof.
  intros Hv Ha. unfold UINT16_MAX in *.
  assert (Hinc : m_value (increaseValue amount m).1
                 = Z.min 65535 (m_value m + amount)).
  { unfold increaseValue, UINT16_MAX. case_bool_decide; simpl.
    - unfold wrap. rewrite Z.mod_small by lia. lia.
    - lia. }
  split; [exact Hinc |]. split; [| split; [| split; [| split]]].
  - unfold decreaseValue. case_bool_decide; simpl.
    + unfold wrap. rewrite Z.mod_small by lia. lia.
    + lia.
  - unfold increaseValue, UINT16_MAX. case_bool_decide; simpl; split; done.
  - unfold decreaseValue. case_bool_decide; simpl; split; done.
  - unfold decreaseValue. rewrite Hinc.
    rewrite bool_decide_eq_true_2 by lia.
    unfold increaseValue, UINT16_MAX.
    case_bool_decide; simpl; unfold set_m_value; simpl; unfold wrap.
    + replace ((65535 `min` (m_value m + amount) - amount) `mod` 2 ^ 16)
        with (m_value m `min` (65535 - amount)); [done |].
      rewrite Z.mod_small by lia. lia.
    + replace ((65535 `min` (m_value m + amount) - amount) `mod` 2 ^ 16)
        with (m_value m `min` (65535 - amount)); [done |].
      rewrite Z.mod_small by lia. lia.
  - unfold getValue. rewrite Hinc. done.
Qed.

Lemma increaseValue_decreaseValue_witness :
  decreaseValue 70 (increaseValue 70 lifesteal30).1 = (lifesteal30, [])
  ∧ getValue (increaseValue 300 lifesteal30).1 = 74.
Proof.
  destruct (increaseValue_decreaseValue 70 lifesteal30)
    as (_ & _ & _ & _ & H & _); [vm_compute; split; congruence .. |].
  destruct (increaseValue_decreaseValue 300 lifesteal30)
    as (_ & _ & _ & _ & _ & H'); [vm_compute; split; congruence .. |].
  split; [rewrite H | rewrite H']; reflexivity.
Defined.

(** X12.  [conversionType] gives back the type [setTransformDamageType]
    stored, for an attack modifier of the type conversion and a defense
    modifier of the type reform; for any other modifier it is
    [COMBAT_NONE].  A modifier as [makeModifier] returns it has no target
    type: [conversionType] is [COMBAT_NONE], with the error message for a
    conversion or a reform. *)
Theorem setTransformDamageType_conversionType (damageType : CombatType_t)
    (m : DamageModifier) (stance modType amount chance : Z)
    (combatType : CombatType_t) (source : CombatOrigin)
    (flatRate onAnyDmg origin : bool) :
  conversionType (setTransformDamageType damageType m)
  = (if (isAttackStance m
         && bool_decide (m_mod_type m = ATTACK_MODIFIER_CONVERSION))
        || (isDefenseStance m
            && bool_decide (m_mod_type m = DEFENSE_MODIFIER_REFORM))
     then damageType else COMBAT_NONE, [])
  ∧ (conversionType (makeModifier stance modType amount chance combatType
                       source flatRate onAnyDmg origin)).1 = COMBAT_NONE
  ∧ ((conversionType (makeModifier stance modType amount chance combatType
                        source flatRate onAnyDmg origin)).2 = []
     ↔ ¬ ((stance = ATTACK_MOD ∧ modType = ATTACK_MODIFIER_CONVERSION)
          ∨ (stance = DEFENSE_MOD ∧ modType = DEFENSE_MODIFIER_REFORM))).
Proof.
  split; [| split].
  - unfold conversionType, setTransformDamageType, isAttackStance,
      isDefenseStance. simpl. by destruct (_ || _).
  - unfold conversionType. simpl. by destruct (_ || _).
  - unfold conversionType, isAttackStance, isDefenseStance. simpl.
    repeat case_bool_decide; simpl; split; intros; try done; try tauto.
Qed.

Lemma addModifier_Some (store : N → DamageModifier) (p : N)
    (l : ModifierList) :
  ∃ l' q, addModifier store (Some p) l = Some (l', q).
Proof. unfold addModifier. simpl. repeat case_bool_decide; eauto. Qed.

(** X13.  [ModifierList::addModifier] takes a modifier by its stance: an
    attack modifier goes to the end of the attack modifiers, a defense
    modifier to the end of the defense modifiers, and the pointer of the
    caller is then null; a modifier of another stance is not taken and the
    list stays as it is.  [getAttackModifiers] and [getDefenseModifiers]
    afterwards give, for every type, what they gave before, followed by the
    new modifier when it is of that stance and type. *)
Theorem addModifier_lookup (store : N → DamageModifier) (p : N)
    (l : ModifierList) :
  ∃ l' q,
    addModifier store (Some p) l = Some (l', q)
    ∧ q = (if bool_decide (getStance (store p) = ATTACK_MOD
                           ∨ getStance (store p) = DEFENSE_MOD)
           then None else Some p)
    ∧ (∀ t, getAttackModifiers store t l'
            = getAttackModifiers store t l
              ++ (if bool_decide (getStance (store p) = ATTACK_MOD
                                  ∧ getType (store p) = t)
                  then [p] else []))
    ∧ (∀ t, getDefenseModifiers store t l'
            = getDefenseModifiers store t l
              ++ (if bool_decide (getStance (store p) = DEFENSE_MOD
                                  ∧ getType (store p) = t)
                  then [p] else [])).
Proof.
  unfold addModifier. simpl.
  destruct (decide (getStance (store p) = ATTACK_MOD)) as [Ha | Ha].
  - rewrite bool_decide_eq_true_2 by done. eexists _, _. split; [done |].
    split; [by rewrite bool_decide_eq_true_2 by (by left) |]. split.
    + intros t. unfold getAttackModifiers. simpl. rewrite filter_app.
      f_equal. destruct (decide (getType (store p) = t)).
      * rewrite bool_decide_eq_true_2 by done.
        by rewrite filter_cons_True by done.
      * rewrite bool_decide_eq_false_2 by tauto.
        by rewrite filter_cons_False by done.
    + intros t. unfold getDefenseModifiers. simpl.
      rewrite bool_decide_eq_false_2; [by rewrite app_nil_r |].
      unfold ATTACK_MOD, DEFENSE_MOD in *. lia.
  - rewrite bool_decide_eq_false_2 by done.
    destruct (decide (getStance (store p) = DEFENSE_MOD)) as [Hd | Hd].
    + rewrite bool_decide_eq_true_2 by done. eexists _, _. split; [done |].
      split; [by rewrite bool_decide_eq_true_2 by (by right) |]. split.
      * intros t. unfold getAttackModifiers. simpl.
        rewrite bool_decide_eq_false_2 by tauto. by rewrite app_nil_r.
      * intros t. unfold getDefenseModifiers. simpl. rewrite filter_app.
        f_equal. destruct (decide (getType (store p) = t)).
        -- rewrite bool_decide_eq_true_2 by done.
           by rewrite filter_cons_True by done.
        -- rewrite bool_decide_eq_false_2 by tauto.
           by rewrite filter_cons_False by done.
    + rewrite bool_decide_eq_false_2 by done. eexists _, _. split; [done |].
      split; [by rewrite bool_decide_eq_false_2 by tauto |]. split.
      * intros t. rewrite bool_decide_eq_false_2 by tauto.
        by rewrite app_nil_r.
      * intros t. rewrite bool_decide_eq_false_2 by tauto.
        by rewrite app_nil_r.
Qed.

Lemma filter_ne_absent (p : N) (l : list N) :
  p ∉ l → filter (λ q, q ≠ p) l = l.
Proof.
  induction l as [|x l IH]; [done |]. intros H.
  apply not_elem_of_cons in H as [H1 H2].
  rewrite filter_cons_True by done. by rewrite IH.
Qed.

Lemma filter_ne_app_same (p : N) (l : list N) :
  filter (λ q, q ≠ p) (l ++ [p]) = filter (λ q, q ≠ p) l.
Proof.
  rewrite filter_app. rewrite (filter_cons_False _ p) by (intros H; by apply H).
  by rewrite app_nil_r.
Qed.

(** X14.  [ModifierList::removeModifier] erases every copy of the pointer
    from the vector of its stance and nothing else: for a list that does
    not hold the modifier, adding it once or twice and then removing it
    gives the list back; after a removal from any list the modifier is not
    in the vector of its stance, and every other modifier is where it
    was. *)
Theorem removeModifier_addModifier (store : N → DamageModifier) (p : N)
    (l l1 l2 : ModifierList) (q1 q2 : option N) :
  p ∉ m_attack_modifiers l → p ∉ m_defense_modifiers l →
  addModifier store (Some p) l = Some (l1, q1) →
  addModifier store (Some p) l1 = Some (l2, q2) →
  removeModifier store (Some p) l1 = Some l
  ∧ removeModifier store (Some p) l2 = Some l
  ∧ ∀ l0, ∃ l0',
      removeModifier store (Some p) l0 = Some l0'
      ∧ (getStance (store p) = ATTACK_MOD → p ∉ m_attack_modifiers l0')
      ∧ (getStance (store p) = DEFENSE_MOD → p ∉ m_defense_modifiers l0')
      ∧ ∀ q, q ≠ p →
          (q ∈ m_attack_modifiers l0' ↔ q ∈ m_attack_modifiers l0)
          ∧ (q ∈ m_defense_modifiers l0' ↔ q ∈ m_defense_modifiers l0).
Proof.
  intros Ha Hd H1 H2. unfold addModifier, removeModifier in *. simpl in *.
  split; [| split].
  - repeat case_bool_decide; simplify_eq; simpl.
    + rewrite filter_ne_app_same, filter_ne_absent by done. by destruct l.
    + rewrite filter_ne_app_same, filter_ne_absent by done. by destruct l.
    + done.
  - repeat case_bool_decide; simplify_eq; simpl.
    + rewrite !filter_ne_app_same, filter_ne_absent by done. by destruct l.
    + rewrite !filter_ne_app_same, filter_ne_absent by done. by destruct l.
    + done.
  - intros l0.
    destruct (decide (getStance (store p) = ATTACK_MOD)) as [Hs | Hs].
    + rewrite bool_decide_eq_true_2 by done. eexists. split; [done |]. simpl.
      split; [| split].
      * intros _ [H _]%list_elem_of_filter. done.
      * intros Hd'. unfold ATTACK_MOD, DEFENSE_MOD in *. lia.
      * intros q Hq. split; [| done]. rewrite list_elem_of_filter. tauto.
    + rewrite bool_decide_eq_false_2 by done.
      destruct (decide (getStance (store p) = DEFENSE_MOD)) as [Hs' | Hs'].
      * rewrite bool_decide_eq_true_2 by done. eexists. split; [done |]. simpl.
        split; [done |]. split.
        -- intros _ [H _]%list_elem_of_filter. done.
        -- intros q Hq. split; [done |]. rewrite list_elem_of_filter. tauto.
      * rewrite bool_decide_eq_false_2 by done. eexists. split; [done |].
        split; [done |]. split; [done |]. done.
Qed.

Lemma removeModifier_addModifier_witness :
  removeModifier (λ _, lifesteal30) (Some 1%N)
    {| m_attack_modifiers := [1%N]; m_defense_modifiers := [] |}
  = Some {| m_attack_modifiers := []; m_defense_modifiers := [] |}.
Proof.
  refine (proj1 (removeModifier_addModifier (λ _, lifesteal30) 1%N
            {| m_attack_modifiers := []; m_defense_modifiers := [] |}
            {| m_attack_modifiers := [1%N]; m_defense_modifiers := [] |}
            {| m_attack_modifiers := [1%N; 1%N]; m_defense_modifiers := [] |}
            None None _ _ _ _)).
  - simpl. apply not_elem_of_nil.
  - simpl. apply not_elem_of_nil.
  - vm_compute. reflexivity.
  - vm_compute. reflexivity.
Defined.

(** X15.  The modifier the loader makes from the names of a table has the
    stance attack or defense and is never of a kind that depends on the
    target: the names of the types butcher, hunter, slayer, cull, beast
    armor, aegis and immortal are not in the tables of [GetAttackModifier]
    and [GetDefenseModifier].  Its conversion type is the target read from
    the table for an attack modifier named conversion and a defense
    modifier named reform, and [COMBAT_NONE] for every other, without an
    error message. *)
Theorem modifierOfTable_kinds (stance modType : string) (chance amount : Z)
    (damageType originType : string) (useOnAll flatRate useOnOrigin : bool)
    (toDamageType : CombatType_t) (m : DamageModifier) :
  modifierOfTable stance modType chance amount damageType originType
    useOnAll flatRate useOnOrigin toDamageType = Some m →
  isAttackStance m || isDefenseStance m = true
  ∧ isMonsterBased m = false ∧ isRaceBased m = false ∧ isBossBased m = false
  ∧ conversionType m
    = (if (isAttackStance m && bool_decide (modType = "conversion"))
          || (isDefenseStance m && bool_decide (modType = "reform"))
       then toDamageType else COMBAT_NONE, []).
Proof.
  unfold modifierOfTable, GetStance.
  destruct (decide (stance = "attack")) as [-> | Hs1].
  - simpl. intros [= <-].
    unfold GetAttackModifier, static_map_find.
    repeat case_bool_decide; simplify_eq; vm_compute; done.
  - rewrite (bool_decide_eq_false_2 (stance = "attack")) by done.
    destruct (decide (stance = "defense")) as [-> | Hs2].
    + simpl. intros [= <-].
      unfold GetDefenseModifier, static_map_find.
      repeat case_bool_decide; simplify_eq; vm_compute; done.
    + rewrite (bool_decide_eq_false_2 (stance = "defense")) by done.
      simpl. done.
Qed.

Lemma modifierOfTable_kinds_witness :
  isBossBased
    (default lifesteal30
       (modifierOfTable "attack" "slayer" 100 50 "fire" "melee"
          false false false COMBAT_NONE)) = false.
Proof.
  refine (proj1 (proj2 (proj2 (proj2
    (modifierOfTable_kinds "attack" "slayer" 100 50 "fire" "melee"
       false false false COMBAT_NONE _ _))))).
  vm_compute. reflexivity.
Defined.

(** ** Augments *)

#[local] Arguments addModifier : simpl never.
#[local] Arguments getAttackModifiers : simpl never.
#[local] Arguments getDefenseModifiers : simpl never.

(** Unfold the monad of a short sequence of calls. *)
Ltac mrun :=
  repeat (cbn; unfold mbind, M_bind, mret, M_ret, get, put, modify, orFail).



(** X16.  The augment [Augments::MakeAugment] returns for a name of the
    collection is a new object with the name of the registered augment and
    with the same modifier list, not a copy of it: a modifier added to the
    new augment is found through the registered one. *)
Theorem Augments_MakeAugment_shares (store : N → DamageModifier)
    (s : AugmentStore) (name : string) (a : N) (original : Augment)
    (l : ModifierList) (p : N) :
  global_augments s !! name = Some a →
  augmentObjects s !! a = Some original →
  modifierLists s !! m_mod_list original = Some l →
  augmentObjects s !! nextAugment s = None →
  ∃ s1 s2 l' q,
    Augments_MakeAugment name s = Some (Some (nextAugment s), s1)
    ∧ nextAugment s ≠ a
    ∧ Augment_getName (nextAugment s) s1 = Some (m_name original, s1)
    ∧ addModifier store (Some p) l = Some (l', q)
    ∧ Augment_addModifier store (nextAugment s) (Some p) s1 = Some (tt, s2)
    ∧ ∀ t,
        Augment_getAttackModifiers store a t s2
          = Some (getAttackModifiers store t l', s2)
        ∧ Augment_getDefenseModifiers store a t s2
          = Some (getDefenseModifiers store t l', s2).
Proof.
  intros Hg Ha Hl Hfresh.
  destruct (addModifier_Some store p l) as (l' & q & Hadd).
  assert (Hne : nextAugment s ≠ a) by (intros E; rewrite E in Hfresh; congruence).
  eexists _, _, l', q. split.
  { unfold Augments_MakeAugment, Augment_MakeAugment_of, newAugment.
    mrun. rewrite Hg. mrun. rewrite Ha. mrun. reflexivity. }
  split; [done |]. split.
  { unfold Augment_getName. mrun. rewrite lookup_insert_eq. reflexivity. }
  split; [done |]. split.
  { unfold Augment_addModifier. mrun. rewrite lookup_insert_eq. mrun.
    rewrite Hl. mrun. rewrite Hadd. mrun. reflexivity. }
  intros t. split.
  - unfold Augment_getAttackModifiers. mrun.
    rewrite lookup_insert_ne by done. rewrite Ha. mrun.
    rewrite lookup_insert_eq. reflexivity.
  - unfold Augment_getDefenseModifiers. mrun.
    rewrite lookup_insert_ne by done. rewrite Ha. mrun.
    rewrite lookup_insert_eq. reflexivity.
Qed.

Lemma Augments_MakeAugment_shares_witness :
  ∃ s1, Augments_MakeAugment "vampire" (registeredAugment "vampire")
        = Some (Some 1%N, s1).
Proof.
  destruct (Augments_MakeAugment_shares (λ _, lifesteal30)
              (registeredAugment "vampire") "vampire" 0%N
              {| m_mod_list := 0%N; m_name := "vampire" |}
              {| m_attack_modifiers := []; m_defense_modifiers := [] |} 5%N)
    as (s1 & _ & _ & _ & H & _); [vm_compute; reflexivity .. |].
  exists s1. exact H.
Defined.

(** X17.  [Augments::AddAugment] never replaces an augment of the
    collection: under a name that is taken it prints the warning and leaves
    the collection as it is, so [Augments::MakeAugment] of the name still
    copies the first augment.  After [RemoveAugment] of the name,
    [Augments::MakeAugment] returns a null pointer and prints that the name
    was not found. *)
Theorem AddAugment_keeps (s : AugmentStore) (a b : N) (first second : Augment) :
  augmentObjects s !! a = Some first →
  augmentObjects s !! b = Some second →
  m_name second = m_name first →
  global_augments s !! m_name first = Some a →
  ∃ s1 s2,
    AddAugment b s = Some (tt, s1)
    ∧ global_augments s1 = global_augments s
    ∧ printed s1 = printed s
        ++ [String.append "[Warning][Augments] "
              (String.append (m_name first) " already exists! ")]
    ∧ (Augments_MakeAugment (m_name first) s1
       ≫= λ r, Some (r.1)) = Some (Some (nextAugment s))
    ∧ RemoveAugment_named (m_name first) s1 = Some (tt, s2)
    ∧ RemoveAugment b s1 = Some (tt, s2)
    ∧ (Augments_MakeAugment (m_name first) s2 ≫= λ r, Some (r.1)) = Some None
    ∧ (Augments_MakeAugment (m_name first) s2
       ≫= λ r, Some (printed r.2))
      = Some (printed s1
              ++ [String.append "Failed to find augment named : " (m_name first)]).
Proof.
  intros Ha Hb Hn Hg. eexists _, _. split.
  { unfold AddAugment, Augment_getName, cout. mrun. rewrite Hb. mrun.
    rewrite Hn, Hg. reflexivity. }
  split; [done |]. split; [done |]. split.
  { unfold Augments_MakeAugment, Augment_MakeAugment_of, newAugment. mrun.
    rewrite Hg. mrun. rewrite Ha. reflexivity. }
  split; [reflexivity |]. split.
  { unfold RemoveAugment, Augment_getName. mrun. rewrite Hb. mrun.
    rewrite Hn. reflexivity. }
  split.
  - unfold Augments_MakeAugment, cout. mrun. rewrite lookup_delete_eq.
    reflexivity.
  - unfold Augments_MakeAugment, cout. mrun. rewrite lookup_delete_eq.
    reflexivity.
Qed.

Lemma AddAugment_keeps_witness :
  ∃ s1, AddAugment 1%N (secondAugment "vampire") = Some (tt, s1)
        ∧ global_augments s1 = global_augments (secondAugment "vampire").
Proof.
  destruct (AddAugment_keeps (secondAugment "vampire") 0%N 1%N
              {| m_mod_list := 0%N; m_name := "vampire" |}
              {| m_mod_list := 1%N; m_name := "vampire" |})
    as (s1 & _ & H1 & H2 & _); [vm_compute; reflexivity .. |].
  exists s1. by split.
Defined.

(** * The table of the events *)

Lemma lua_rawgeti_registry_eq ref l :
  lua_rawgeti_registry ref l
    = Some (tt, set_stack (stack l ++ [default Nil (registry l !! KInt ref)]) l).
Proof. done. Qed.

Lemma lua_istable_eq idx l :
  lua_istable idx l
    = Some (match default Nil (indexValue (stack l) idx) with
            | Table _ => true
            | _ => false
            end, l).
Proof. done. Qed.

Lemma lua_isfunction_eq idx l :
  lua_isfunction idx l
    = Some (isfunction (default Nil (indexValue (stack l) idx)), l).
Proof. done. Qed.

Lemma rawset_eq r k v l o :
  heap l !! r = Some o →
  rawset r k v l
    = Some (tt, set_heap (<[r := {| fields := if bool_decide (v = Nil)
                                              then delete k (fields o)
                                              else <[k := v]> (fields o);
                                    metatable := metatable o;
                                    payload := payload o |}]> (heap l)) l).
Proof.
  intros Ho. unfold rawset. step; [reflexivity |]. rewrite Ho.
  step; [reflexivity |]. done.
Qed.

Lemma lua_rawseti_eq idx n l s v r o :
  stack l = s ++ [v] →
  indexValue (stack l) idx = Some (Table r) →
  heap l !! r = Some o →
  lua_rawseti idx n l
    = Some (tt, set_heap (<[r := {| fields := if bool_decide (v = Nil)
                                              then delete (KInt n) (fields o)
                                              else <[KInt n := v]> (fields o);
                                    metatable := metatable o;
                                    payload := payload o |}]> (heap l))
                  (set_stack s l)).
Proof.
  intros Hs Hv Ho. unfold lua_rawseti, tableAt.
  step. { step; [by apply valueAt_eq |]. reflexivity. }
  step; [by apply pop1_eq |].
  by rewrite (rawset_eq r (KInt n) v (set_stack s l) o).
Qed.

Lemma lua_setglobal_eq name l s v :
  stack l = s ++ [v] →
  lua_setglobal name l
    = Some (tt, set_globals (if bool_decide (v = Nil)
                             then delete name (globals l)
                             else <[name := v]> (globals l))
                  (set_stack s l)).
Proof.
  intros Hs. unfold lua_setglobal. step; [by apply pop1_eq |]. done.
Qed.

Lemma set_heap_set_stack h s l :
  set_heap h (set_stack s l) = set_stack s (set_heap h l).
Proof. done. Qed.

Lemma isfunction_not_Nil f : isfunction f = true → f ≠ Nil.
Proof. by destruct f. Qed.

Lemma replace_under_top (s : list Value) (a v : Value) :
  take (length (s ++ [a])) (<[(length s + 0)%nat := v]> ((s ++ [a]) ++ [v]))
  = s ++ [v].
Proof.
  rewrite <- app_assoc. rewrite insert_app_r. simpl.
  change (s ++ [v; v]) with (s ++ [v] ++ [v]).
  rewrite (app_assoc s [v] [v]). apply take_app_length'.
  rewrite !length_app. simpl. lia.
Qed.

Lemma pushFunction_eq (i : LuaScriptInterface) (l : lua_State) (t : N)
    (o : Object) (id : Z) :
  luaState i = true →
  registry l !! KInt (eventTableRef i) = Some (Table t) →
  heap l !! t = Some o →
  pushFunction id i l
    = Some (isfunction (default Nil (fields o !! KInt id)),
            set_stack (stack l ++ [default Nil (fields o !! KInt id)]) l).
Proof.
  intros Hi Hr Ho. unfold pushFunction, attached. rewrite Hi.
  step; [reflexivity |].
  step; [apply lua_rawgeti_registry_eq |]. rewrite Hr. simpl default.
  step; [apply lua_istable_eq |]. norm.
  rewrite (indexValue_top (stack l) [Table t] (-1)) by (simpl; lia).
  simpl. step.
  { eapply lua_rawgeti_eq; norm.
    - by rewrite (indexValue_top (stack l) [Table t] (-1)) by (simpl; lia).
    - exact Ho. }
  norm. rewrite <- app_assoc. simpl app.
  step.
  { eapply (lua_replace_eq (-2) _ (stack l ++ [Table t])); norm.
    - by rewrite <- app_assoc.
    - rewrite (indexSlot_top (stack l) [Table t; _] (-2)) by (simpl; lia).
      simpl. reflexivity. }
  norm. rewrite lua_isfunction_eq. norm.
  rewrite replace_under_top.
  by rewrite (indexValue_top (stack l) [_] (-1)) by (simpl; lia).
Qed.

Lemma pushFunction_no_table (i : LuaScriptInterface) (l : lua_State) (id : Z) :
  luaState i = true →
  (∀ t, registry l !! KInt (eventTableRef i) ≠ Some (Table t)) →
  pushFunction id i l
    = Some (false,
            set_stack (stack l
                       ++ [default Nil (registry l !! KInt (eventTableRef i))]) l).
Proof.
  intros Hi Hr. unfold pushFunction, attached. rewrite Hi.
  step; [reflexivity |].
  step; [apply lua_rawgeti_registry_eq |].
  step; [apply lua_istable_eq |]. norm.
  rewrite (indexValue_top (stack l) [_] (-1)) by (simpl; lia). simpl.
  destruct (registry l !! KInt (eventTableRef i)) as [[]|] eqn:E; simpl;
    try done.
  by destruct (Hr r).
Qed.

(** X18.  [pushFunction] leaves exactly one more value on the stack,
    whether it succeeds or not, and changes nothing else; when it returns
    true the value is a function.  With the table of the events in place the
    value is the entry of the table under the id. *)
Theorem pushFunction_one_value (i : LuaScriptInterface) (l : lua_State)
    (id : Z) :
  luaState i = true →
  (∀ t, registry l !! KInt (eventTableRef i) = Some (Table t) →
        is_Some (heap l !! t)) →
  ∃ b v,
    pushFunction id i l = Some (b, set_stack (stack l ++ [v]) l)
    ∧ (b = true → isfunction v = true)
    ∧ (∀ t o, registry l !! KInt (eventTableRef i) = Some (Table t) →
              heap l !! t = Some o →
              v = default Nil (fields o !! KInt id) ∧ b = isfunction v).
Proof.
  intros Hi Hheap.
  destruct (registry l !! KInt (eventTableRef i)) as [v0|] eqn:Hr.
  - assert (Hdec : (∃ t, v0 = Table t) ∨ ¬ (∃ t, v0 = Table t)).
    { destruct v0; try (by right; intros [t [=]]). left. by eexists. }
    destruct Hdec as [[t ->] | Hnt].
    + destruct (Hheap t eq_refl) as [o Ho].
      eexists _, _. split; [by apply (pushFunction_eq i l t o) |].
      split; [done |]. intros t' o' [= <-] Ho'. rewrite Ho in Ho'.
      by simplify_eq.
    + eexists _, _. split.
      { apply pushFunction_no_table; [done |]. rewrite Hr.
        intros t [= ->]. apply Hnt. by exists t. }
      split; [done |]. intros t o [= ->]. destruct Hnt. by exists t.
  - eexists _, _. split.
    { apply pushFunction_no_table; [done |]. by rewrite Hr. }
    split; [done |]. intros t o [=].
Qed.

Section EventIds.

Variable EVENT_ID_LOADING : Z.

(** X19.  With the table of the events in place and a function on the top
    of the stack, [getEvent()] takes the function from the stack, stores it
    in the table under the running id, which it returns and then
    increments, and records the file of the event; globals and registry
    stay as they are.  [pushFunction] of the returned id then pushes that
    function and succeeds, on any stack. *)
Theorem getEvent_top_pushFunction (i : LuaScriptInterface) (l : lua_State)
    (s : list Value) (f : Value) (t : N) (o : Object) :
  luaState i = true →
  registry l !! KInt (eventTableRef i) = Some (Table t) →
  heap l !! t = Some o →
  stack l = s ++ [f] →
  isfunction f = true →
  runningEventId i < INT32_MAX →
  ∃ i',
    getEvent_top i l
      = Some ((runningEventId i, i'), withEvent t o (runningEventId i) f s l)
    ∧ runningEventId i' = runningEventId i + 1
    ∧ eventTableRef i' = eventTableRef i
    ∧ (runningEventId i ≠ EVENT_ID_LOADING →
       getFileById EVENT_ID_LOADING (runningEventId i) i'
         = String.append (loadingFile i) ":callback")
    ∧ (∀ id, id ≠ runningEventId i →
       getFileById EVENT_ID_LOADING id i' = getFileById EVENT_ID_LOADING id i)
    ∧ ∀ s',
        pushFunction (runningEventId i) i'
          (set_stack s' (withEvent t o (runningEventId i) f s l))
        = Some (true,
                set_stack (s' ++ [f]) (withEvent t o (runningEventId i) f s l)).
Proof.
  intros Hi Hr Ho Hs Hf Hmax. eexists. split.
  { unfold getEvent_top, attached. rewrite Hi. step; [reflexivity |].
    step; [apply lua_isfunction_eq |]. rewrite Hs.
    rewrite (indexValue_top s [f] (-1)) by (simpl; lia). simpl. rewrite Hf.
    simpl.
    step; [apply lua_rawgeti_registry_eq |]. rewrite Hr, Hs. simpl default.
    step; [apply lua_istable_eq |]. norm.
    rewrite (indexValue_top (s ++ [f]) [Table t] (-1)) by (simpl; lia). simpl.
    step.
    { apply (lua_pushvalue_eq (-2) _ f). norm. rewrite <- app_assoc.
      by rewrite (indexValue_top s ([f] ++ [Table t]) (-2)) by (simpl; lia). }
    norm.
    step.
    { eapply (lua_rawseti_eq (-2) _ _ ((s ++ [f]) ++ [Table t]) f t o); norm.
      - done.
      - rewrite <- !app_assoc.
        by rewrite (indexValue_top s ([f] ++ [Table t] ++ [f]) (-2))
          by (simpl; lia).
      - done. }
    rewrite (bool_decide_eq_false_2 (f = Nil)) by (by apply isfunction_not_Nil).
    step.
    { apply (lua_pop_eq 2 _ s [f; Table t]); norm.
      - by rewrite <- app_assoc.
      - done. }
    unfold cacheEvent. rewrite bool_decide_eq_true_2 by done.
    reflexivity. }
  simpl. split; [done |]. split; [done |]. split.
  { intros Hne. unfold getFileById. simpl.
    rewrite bool_decide_eq_false_2 by done. by rewrite lookup_insert_eq. }
  split.
  { intros id Hne. unfold getFileById. simpl.
    case_bool_decide; [done |]. by rewrite lookup_insert_ne. }
  intros s'.
  rewrite (pushFunction_eq _ _ t
             {| fields := <[KInt (runningEventId i) := f]> (fields o);
                metatable := metatable o; payload := payload o |}).
  - simpl. rewrite lookup_insert_eq. simpl. by rewrite Hf.
  - done.
  - done.
  - unfold withEvent. simpl. by rewrite lookup_insert_eq.
Qed.

End EventIds.

(** X20.  [getEvent(eventName)] moves the function the global [eventName]
    holds into the table of the events: it returns the running id, under
    which [pushFunction] then pushes the function, resets the global to nil
    and leaves the stack as it was.  A second [getEvent] of the same name
    therefore finds no function: it returns -1 and changes nothing. *)
Theorem getEvent_pushFunction (eventName : string) (i : LuaScriptInterface)
    (l : lua_State) (f : Value) (t : N) (o : Object) :
  luaState i = true →
  registry l !! KInt (eventTableRef i) = Some (Table t) →
  heap l !! t = Some o →
  globals l !! eventName = Some f →
  isfunction f = true →
  runningEventId i < INT32_MAX →
  ∃ i' l',
    getEvent eventName i l = Some ((runningEventId i, i'), l')
    ∧ l' = set_globals (delete eventName (globals l))
             (withEvent t o (runningEventId i) f (stack l) l)
    ∧ runningEventId i' = runningEventId i + 1
    ∧ cacheFiles i' !! runningEventId i
      = Some (String.append (loadingFile i) (String.append ":" eventName))
    ∧ (∀ s', pushFunction (runningEventId i) i' (set_stack s' l')
             = Some (true, set_stack (s' ++ [f]) l'))
    ∧ getEvent eventName i' l' = Some ((-1, i'), l').
Proof.
  intros Hi Hr Ho Hg Hf Hmax.
  assert (Hnil : f ≠ Nil) by (by apply isfunction_not_Nil).
  eexists _, _. split; [| split; [reflexivity |]].
  { unfold getEvent, attached. rewrite Hi. step; [reflexivity |].
    step; [apply lua_rawgeti_registry_eq |]. rewrite Hr. simpl default.
    step; [apply lua_istable_eq |]. norm.
    rewrite (indexValue_top (stack l) [Table t] (-1)) by (simpl; lia). simpl.
    step; [apply lua_getglobal_eq |]. norm. rewrite Hg. simpl default.
    step; [apply lua_isfunction_eq |]. norm.
    rewrite (indexValue_top (stack l ++ [Table t]) [f] (-1)) by (simpl; lia).
    simpl. rewrite Hf. simpl.
    step.
    { apply (lua_pushvalue_eq (-1) _ f). norm.
      by rewrite (indexValue_top (stack l ++ [Table t]) [f] (-1))
        by (simpl; lia). }
    norm.
    step.
    { eapply (lua_rawseti_eq (-3) _ _ ((stack l ++ [Table t]) ++ [f]) f t o);
        norm.
      - done.
      - rewrite <- !app_assoc.
        by rewrite (indexValue_top (stack l) ([Table t] ++ [f] ++ [f]) (-3))
          by (simpl; lia).
      - done. }
    rewrite (bool_decide_eq_false_2 (f = Nil)) by done.
    step.
    { apply (lua_pop_eq 2 _ (stack l) [Table t; f]); norm.
      - by rewrite <- app_assoc.
      - done. }
    step; [apply push_eq |]. norm.
    step. { by apply (lua_setglobal_eq eventName _ (stack l) Nil). }
    norm. rewrite bool_decide_eq_true_2 by done.
    unfold cacheEvent. rewrite bool_decide_eq_true_2 by done.
    reflexivity. }
  simpl. split; [done |]. split; [by rewrite lookup_insert_eq |]. split.
  - intros s'.
    rewrite (pushFunction_eq _ _ t
               {| fields := <[KInt (runningEventId i) := f]> (fields o);
                  metatable := metatable o; payload := payload o |}).
    + simpl. rewrite lookup_insert_eq. simpl. by rewrite Hf.
    + done.
    + done.
    + simpl. by rewrite lookup_insert_eq.
  - unfold getEvent, attached, withEvent. simpl. rewrite Hi.
    step; [reflexivity |].
    step; [apply lua_rawgeti_registry_eq |]. norm. rewrite Hr. simpl default.
    step; [apply lua_istable_eq |]. norm.
    rewrite (indexValue_top (stack l) [Table t] (-1)) by (simpl; lia). simpl.
    step; [apply lua_getglobal_eq |]. norm. rewrite lookup_delete_eq.
    simpl default.
    step; [apply lua_isfunction_eq |]. norm.
    rewrite (indexValue_top (stack l ++ [Table t]) [Nil] (-1)) by (simpl; lia).
    simpl.
    step.
    { apply (lua_pop_eq 2 _ (stack l) [Table t; Nil]); norm.
      - by rewrite <- app_assoc.
      - done. }
    norm. reflexivity.
Qed.

(** X21.  [getEvent(eventName)] and [getEvent()] return -1 and leave the
    Lua state and the interface as they were when there is no function to
    take (the global, or the top of the stack, is not a function) and when
    the table of the events is not in the registry. *)
Theorem getEvent_rejects (eventName : string) (i : LuaScriptInterface)
    (l : lua_State) :
  luaState i = true →
  (isfunction (default Nil (globals l !! eventName)) = false
   ∨ ∀ t, registry l !! KInt (eventTableRef i) ≠ Some (Table t)) →
  (isfunction (default Nil (indexValue (stack l) (-1))) = false
   ∨ ∀ t, registry l !! KInt (eventTableRef i) ≠ Some (Table t)) →
  getEvent eventName i l = Some ((-1, i), l)
  ∧ getEvent_top i l = Some ((-1, i), l).
Proof.
  intros Hi Hnamed Htop.
  assert (Hdec : (∃ t, registry l !! KInt (eventTableRef i) = Some (Table t))
                 ∨ ∀ t, registry l !! KInt (eventTableRef i) ≠ Some (Table t)).
  { destruct (registry l !! KInt (eventTableRef i)) as [[]|];
      try (by right; intros t [=]). left. by eexists. }
  split.
  - unfold getEvent, attached. rewrite Hi. step; [reflexivity |].
    step; [apply lua_rawgeti_registry_eq |].
    step; [apply lua_istable_eq |]. norm.
    rewrite (indexValue_top (stack l) [_] (-1)) by (simpl; lia). simpl.
    destruct Hdec as [[t Ht] | Hno].
    + rewrite Ht. simpl.
      destruct Hnamed as [Hnf | Hno]; [| by destruct (Hno t)].
      step; [apply lua_getglobal_eq |]. norm.
      step; [apply lua_isfunction_eq |]. norm.
      rewrite (indexValue_top (stack l ++ [Table t]) [_] (-1)) by (simpl; lia).
      simpl. rewrite Hnf. simpl.
      step.
      { apply (lua_pop_eq 2 _ (stack l)
                 [Table t; default Nil (globals l !! eventName)]); norm.
        - by rewrite <- app_assoc.
        - done. }
      norm. unfold mret, M_ret. by rewrite set_stack_stack.
    + assert (E : match default Nil (registry l !! KInt (eventTableRef i)) with
                  | Table _ => true
                  | _ => false
                  end = false).
      { destruct (registry l !! KInt (eventTableRef i)) as [[]|] eqn:E;
          try done. by destruct (Hno r). }
      rewrite E. simpl.
      step.
      { by apply (lua_pop_eq 1 _ (stack l)
                    [default Nil (registry l !! KInt (eventTableRef i))]);
          norm. }
      norm. unfold mret, M_ret. by rewrite set_stack_stack.
  - unfold getEvent_top, attached. rewrite Hi. step; [reflexivity |].
    step; [apply lua_isfunction_eq |].
    destruct (isfunction (default Nil (indexValue (stack l) (-1)))) eqn:Hf;
      [| done].
    destruct Htop as [Hnf | Hno]; [done |]. simpl.
    step; [apply lua_rawgeti_registry_eq |].
    step; [apply lua_istable_eq |]. norm.
    rewrite (indexValue_top (stack l) [_] (-1)) by (simpl; lia). simpl.
    assert (E : match default Nil (registry l !! KInt (eventTableRef i)) with
                | Table _ => true
                | _ => false
                end = false).
    { destruct (registry l !! KInt (eventTableRef i)) as [[]|] eqn:E;
        try done. by destruct (Hno r). }
    rewrite E. simpl.
    step.
      { by apply (lua_pop_eq 1 _ (stack l)
                    [default Nil (registry l !! KInt (eventTableRef i))]);
          norm. }
    norm. unfold mret, M_ret. by rewrite set_stack_stack.
Qed.

Lemma pushFunction_one_value_witness :
  ∃ b v, pushFunction 1000 exampleInterface.1 exampleInterface.2
         = Some (b, set_stack (stack exampleInterface.2 ++ [v])
                      exampleInterface.2).
Proof.
  destruct (pushFunction_one_value exampleInterface.1 exampleInterface.2 1000)
    as (b & v & H & _).
  - vm_compute. reflexivity.
  - intros t Ht. vm_compute in Ht. injection Ht as <-.
    vm_compute. by eexists.
  - by exists b, v.
Defined.

Lemma getEvent_top_pushFunction_witness :
  ∃ i', getEvent_top exampleInterface.1
          (set_stack [Closure 0] exampleInterface.2)
        = Some ((1000, i'),
                withEvent 0 emptyTable 1000 (Closure 0) []
                  (set_stack [Closure 0] exampleInterface.2)).
Proof.
  destruct (getEvent_top_pushFunction 1 exampleInterface.1
              (set_stack [Closure 0] exampleInterface.2) [] (Closure 0)
              0%N emptyTable) as (i' & H & _);
    [vm_compute; reflexivity .. |].
  exists i'. exact H.
Defined.

Lemma getEvent_pushFunction_witness :
  ∃ i' l', getEvent "onLogin" exampleInterface.1
             (set_globals {["onLogin"%string := Closure 0]} exampleInterface.2)
           = Some ((1000, i'), l').
Proof.
  destruct (getEvent_pushFunction "onLogin" exampleInterface.1
              (set_globals {["onLogin"%string := Closure 0]} exampleInterface.2)
              (Closure 0) 0%N emptyTable) as (i' & l' & H & _);
    [vm_compute; reflexivity .. |].
  by exists i', l'.
Defined.

Lemma getEvent_rejects_witness :
  getEvent "onLogin" exampleInterface.1 exampleInterface.2
    = Some ((-1, exampleInterface.1), exampleInterface.2)
  ∧ getEvent_top exampleInterface.1 exampleInterface.2
    = Some ((-1, exampleInterface.1), exampleInterface.2).
Proof.
  apply (getEvent_rejects "onLogin" exampleInterface.1 exampleInterface.2).
  - vm_compute. reflexivity.
  - left. vm_compute. reflexivity.
  - left. vm_compute. reflexivity.
Defined.

Lemma lua_newtable_eq l :
  lua_newtable l
    = Some (tt, {| stack := stack l ++ [Table (nextObject l)];
                   heap := <[nextObject l := emptyTable]> (heap l);
                   nextObject := N.succ (nextObject l);
                   globals := globals l; registry := registry l;
                   nextRef := nextRef l;
                   stringMetatable := stringMetatable l;
                   unrefCalls := unrefCalls l |}).
Proof. reflexivity. Qed.

Section Lifecycle.

Variable EVENT_ID_USER : Z.

(** X22.  [initState] on the Lua state of the environment makes a new table
    for the events and keeps it under a new reference of the registry,
    without changing the stack; [closeState] then releases that reference
    with one call of [luaL_unref], forgets the files of the events and
    detaches the interface, and a second [closeState] returns false and
    changes nothing.  Without a Lua state [initState] returns false. *)
Theorem initState_closeState (i : LuaScriptInterface) (l : lua_State) :
  0 < nextRef l →
  ∃ i1 l1 i2 l2,
    initState EVENT_ID_USER i (Some l) = Some (true, i1, Some l1)
    ∧ stack l1 = stack l
    ∧ luaState i1 = true
    ∧ runningEventId i1 = EVENT_ID_USER
    ∧ eventTableRef i1 = nextRef l
    ∧ registry l1 !! KInt (eventTableRef i1) = Some (Table (nextObject l))
    ∧ heap l1 !! nextObject l = Some emptyTable
    ∧ closeState i1 (Some l1) = Some (true, i2, Some l2)
    ∧ unrefCalls l2 = unrefCalls l ++ [nextRef l]
    ∧ registry l2 !! KInt (nextRef l) = None
    ∧ luaState i2 = false ∧ eventTableRef i2 = -1 ∧ cacheFiles i2 = ∅
    ∧ closeState i2 (Some l2) = Some (false, i2, Some l2)
    ∧ (initState EVENT_ID_USER i None ≫= λ r, Some r.1.1) = Some false.
Proof.
  intros Href. eexists _, _, _, _. split.
  { unfold initState.
    assert (E : (lua_newtable;; luaL_ref) l
                = Some (nextRef l,
                        {| stack := stack l;
                           heap := <[nextObject l := emptyTable]> (heap l);
                           nextObject := N.succ (nextObject l);
                           globals := globals l;
                           registry := <[KInt (nextRef l) := Table (nextObject l)]>
                                         (registry l);
                           nextRef := nextRef l + 1;
                           stringMetatable := stringMetatable l;
                           unrefCalls := unrefCalls l |})).
    { step; [apply lua_newtable_eq |].
      unfold luaL_ref.
      step. { by apply (pop1_eq _ (stack l) (Table (nextObject l))). }
      simpl. reflexivity. }
    rewrite E. reflexivity. }
  simpl. split; [done |]. split; [done |]. split; [done |]. split; [done |].
  split; [by rewrite lookup_insert_eq |].
  split; [by rewrite lookup_insert_eq |].
  split.
  { unfold closeState. simpl. rewrite bool_decide_eq_true_2 by lia.
    reflexivity. }
  simpl. split; [done |]. split.
  { rewrite bool_decide_eq_true_2 by lia. by rewrite lookup_delete_eq. }
  done.
Qed.

End Lifecycle.

Lemma initState_closeState_witness :
  ∃ i1 l1, initState 1000 newInterface (Some emptyState)
           = Some (true, i1, Some l1).
Proof.
  destruct (initState_closeState 1000 newInterface emptyState)
    as (i1 & l1 & _ & _ & H & _); [vm_compute; reflexivity |].
  by exists i1, l1.
Defined.

(** * The registration of classes and methods *)

Lemma settable_eq r k v l o :
  heap l !! r = Some o → metatable o = None →
  settable (Table r) k v l = rawset r k v l.
Proof.
  intros Ho Hm. unfold settable. step; [reflexivity |].
  unfold rawget. rewrite Ho. simpl.
  step; [reflexivity |]. case_bool_decide; [done |].
  unfold metamethod, metatableOf. rewrite Ho. simpl. by rewrite Hm.
Qed.

Lemma lua_setfield_eq idx k l s v r o :
  stack l = s ++ [v] →
  indexValue (stack l) idx = Some (Table r) →
  heap l !! r = Some o → metatable o = None →
  lua_setfield idx k l
    = Some (tt, set_heap (<[r := {| fields := if bool_decide (v = Nil)
                                              then delete (KStr k) (fields o)
                                              else <[KStr k := v]> (fields o);
                                    metatable := metatable o;
                                    payload := payload o |}]> (heap l))
                  (set_stack s l)).
Proof.
  intros Hs Hv Ho Hm. unfold lua_setfield.
  step; [by apply valueAt_eq |].
  step; [by apply pop1_eq |].
  rewrite (settable_eq r (KStr k) v (set_stack s l) o) by done.
  by rewrite (rawset_eq r (KStr k) v (set_stack s l) o).
Qed.

Lemma lua_setmetatable_eq idx l s r o m :
  stack l = s ++ [Table m] →
  indexValue (stack l) idx = Some (Table r) →
  heap l !! r = Some o →
  lua_setmetatable idx l
    = Some (tt, set_heap (<[r := {| fields := fields o; metatable := Some m;
                                    payload := payload o |}]> (heap l))
                  (set_stack s l)).
Proof.
  intros Hs Hv Ho. unfold lua_setmetatable.
  step; [by apply valueAt_eq |].
  step; [by apply pop1_eq |].
  step; [reflexivity |]. step; [reflexivity |]. norm. rewrite Ho.
  step; [reflexivity |]. done.
Qed.

Lemma luaL_newmetatable_eq name l :
  registry l !! KStr name = None →
  luaL_newmetatable name l
    = Some (1, {| stack := stack l ++ [Table (nextObject l)];
                  heap := <[nextObject l := emptyTable]> (heap l);
                  nextObject := N.succ (nextObject l);
                  globals := globals l;
                  registry := <[KStr name := Table (nextObject l)]> (registry l);
                  nextRef := nextRef l;
                  stringMetatable := stringMetatable l;
                  unrefCalls := unrefCalls l |}).
Proof.
  intros Hr. unfold luaL_newmetatable. step; [reflexivity |]. rewrite Hr.
  step; [apply lua_newtable_eq |].
  step. { apply valueAt_eq. norm.
          by rewrite (indexValue_top (stack l) [_] (-1)) by (simpl; lia). }
  reflexivity.
Qed.

Lemma length_snoc_Z (s : list Value) (a : Value) :
  Z.of_nat (length (s ++ [a])) = Z.of_nat (length s) + 1.
Proof. rewrite length_app. simpl. lia. Qed.

Section Registration.

Variable hash : string → Z.
Variable str2d : string → option Z.

(** The calls of [registerClass] from [lua_setmetatable] on. *)
Lemma registerClass_tail (className : string) (parents : Z) (l : lua_State)
    (s : list Value) (c mt : N) (oc : Object) :
  stack l = s ++ [Table c; Table mt] →
  heap l !! c = Some oc →
  registry l !! KStr className = None →
  nextObject l ≠ c →
  (lua_setmetatable (Z.of_nat (length s) + 1);;
   luaL_newmetatable className;;
   metatable ← lua_gettop;
   lua_pushvalue (Z.of_nat (length s) + 1);;
   lua_setfield metatable "__metatable";;
   lua_pushvalue (Z.of_nat (length s) + 1);;
   lua_setfield metatable "__index";;
   lua_pushinteger (hash className);;
   lua_rawseti metatable key_h;;
   lua_pushinteger parents;;
   lua_rawseti metatable key_p;;
   lua_pushinteger (typeTagOf className);;
   lua_rawseti metatable key_t;;
   lua_pop 2) l
  = Some (tt,
          {| stack := s;
             heap := <[nextObject l := metatableObject hash className c parents]>
                       (<[c := {| fields := fields oc; metatable := Some mt;
                                  payload := payload oc |}]> (heap l));
             nextObject := N.succ (nextObject l);
             globals := globals l;
             registry := <[KStr className := Table (nextObject l)]> (registry l);
             nextRef := nextRef l;
             stringMetatable := stringMetatable l;
             unrefCalls := unrefCalls l |}).
Proof.
  intros Hs Hc Hr Hne.
  set (m := nextObject l) in *.
  step.
  { apply (lua_setmetatable_eq _ _ (s ++ [Table c]) c oc mt).
    - rewrite Hs. by rewrite <- app_assoc.
    - rewrite Hs. apply (indexValue_middle s [Table mt] (Table c)).
    - done. }
  step. { apply luaL_newmetatable_eq. by norm. }
  step; [apply lua_gettop_eq |]. norm.
  rewrite length_snoc_Z, length_snoc_Z.
  replace (Z.of_nat (length s) + 1 + 1) with (Z.of_nat (length (s ++ [Table c])) + 1)
    by (rewrite length_snoc_Z; lia).
  fold m.
  (* __metatable *)
  step.
  { apply (lua_pushvalue_eq _ _ (Table c)). norm. rewrite <- app_assoc.
    apply (indexValue_middle s [Table m] (Table c)). }
  norm.
  step.
  { eapply (lua_setfield_eq _ _ _ ((s ++ [Table c]) ++ [Table m]) (Table c) m
              emptyTable); norm.
    - done.
    - rewrite <- (app_assoc (s ++ [Table c])).
      apply (indexValue_middle (s ++ [Table c]) [Table c] (Table m)).
    - by rewrite lookup_insert_eq.
    - done. }
  norm. rewrite insert_insert_eq.
  rewrite (bool_decide_eq_false_2 (Table c = Nil)) by done.
  (* __index *)
  step.
  { apply (lua_pushvalue_eq _ _ (Table c)). norm. rewrite <- app_assoc.
    apply (indexValue_middle s [Table m] (Table c)). }
  norm.
  step.
  { eapply (lua_setfield_eq _ _ _ ((s ++ [Table c]) ++ [Table m]) (Table c) m);
      norm.
    - done.
    - rewrite <- (app_assoc (s ++ [Table c])).
      apply (indexValue_middle (s ++ [Table c]) [Table c] (Table m)).
    - by rewrite lookup_insert_eq.
    - done. }
  norm. rewrite insert_insert_eq.
  rewrite (bool_decide_eq_false_2 (Table c = Nil)) by done.
  (* 'h' *)
  step; [apply push_eq |]. norm.
  step.
  { eapply (lua_rawseti_eq _ _ _ ((s ++ [Table c]) ++ [Table m])
              (Number (hash className)) m); norm.
    - done.
    - rewrite <- (app_assoc (s ++ [Table c])).
      apply (indexValue_middle (s ++ [Table c]) [Number _] (Table m)).
    - by rewrite lookup_insert_eq. }
  norm. rewrite insert_insert_eq.
  rewrite (bool_decide_eq_false_2 (Number _ = Nil)) by done.
  (* 'p' *)
  step; [apply push_eq |]. norm.
  step.
  { eapply (lua_rawseti_eq _ _ _ ((s ++ [Table c]) ++ [Table m])
              (Number parents) m); norm.
    - done.
    - rewrite <- (app_assoc (s ++ [Table c])).
      apply (indexValue_middle (s ++ [Table c]) [Number _] (Table m)).
    - by rewrite lookup_insert_eq. }
  norm. rewrite insert_insert_eq.
  rewrite (bool_decide_eq_false_2 (Number _ = Nil)) by done.
  (* 't' *)
  step; [apply push_eq |]. norm.
  step.
  { eapply (lua_rawseti_eq _ _ _ ((s ++ [Table c]) ++ [Table m])
              (Number (typeTagOf className)) m); norm.
    - done.
    - rewrite <- (app_assoc (s ++ [Table c])).
      apply (indexValue_middle (s ++ [Table c]) [Number _] (Table m)).
    - by rewrite lookup_insert_eq. }
  norm. rewrite insert_insert_eq.
  rewrite (bool_decide_eq_false_2 (Number _ = Nil)) by done.
  rewrite (lua_pop_eq 2 _ s [Table c; Table m]); [| by rewrite <- app_assoc | done].
  reflexivity.
Qed.

Lemma registerClass_eq (className baseClass : string)
    (newFunction : option CFunction) (base : option (N * Object))
    (l : lua_State) :
  heapBelow l →
  registry l !! KStr className = None →
  match base with
  | Some (b, ob) =>
    baseClass ≠ "" ∧ baseClass ≠ className
    ∧ globals l !! baseClass = Some (Table b) ∧ heap l !! b = Some ob
  | None => baseClass = ""
  end →
  registerClass hash str2d className baseClass newFunction l
  = Some (tt, withClass hash className newFunction (fst <$> base)
                (parentsOf str2d base) l).
Proof.
  intros Hbelow Hreg Hbase. unfold registerClass.
  set (c := nextObject l).
  assert (Hc : heap l !! c = None).
  { apply eq_None_not_Some. intros H. apply Hbelow in H. unfold c in H. lia. }
  step; [apply lua_newtable_eq |]. fold c.
  step.
  { apply (lua_pushvalue_eq (-1) _ (Table c)). norm.
    by rewrite (indexValue_top (stack l) [Table c] (-1)) by (simpl; lia). }
  norm.
  step. { by apply (lua_setglobal_eq className _ (stack l ++ [Table c]) (Table c)). }
  norm. rewrite (bool_decide_eq_false_2 (Table c = Nil)) by done.
  step; [apply lua_gettop_eq |]. norm. rewrite length_snoc_Z.
  step; [apply lua_newtable_eq |]. norm.
  step; [apply lua_gettop_eq |]. norm. rewrite !length_snoc_Z.
  assert (Hmt : indexValue ((stack l ++ [Table c]) ++ [Table (N.succ c)])
                  (Z.of_nat (length (stack l)) + 1 + 1)
                = Some (Table (N.succ c))).
  { replace (Z.of_nat (length (stack l)) + 1 + 1)
      with (Z.of_nat (length (stack l ++ [Table c])) + 1)
      by (rewrite length_snoc_Z; lia).
    apply (indexValue_middle (stack l ++ [Table c]) [] (Table (N.succ c))). }
  assert (Hmt' : ∀ v, indexValue (((stack l ++ [Table c]) ++ [Table (N.succ c)])
                                  ++ [v])
                        (Z.of_nat (length (stack l)) + 1 + 1)
                      = Some (Table (N.succ c))).
  { intros v. replace (Z.of_nat (length (stack l)) + 1 + 1)
      with (Z.of_nat (length (stack l ++ [Table c])) + 1)
      by (rewrite length_snoc_Z; lia).
    rewrite <- (app_assoc (stack l ++ [Table c])).
    apply (indexValue_middle (stack l ++ [Table c]) [v] (Table (N.succ c))). }
  (* the state before the base class is read *)
  set (l1 := {| stack := (stack l ++ [Table c]) ++ [Table (N.succ c)];
                heap := <[N.succ c := methodsTableObject newFunction None]>
                          (<[c := emptyTable]> (heap l));
                nextObject := N.succ (N.succ c);
                globals := <[className := Table c]> (globals l);
                registry := registry l;
                nextRef := nextRef l;
                stringMetatable := stringMetatable l;
                unrefCalls := unrefCalls l |}).
  step.
  { instantiate (1 := l1). instantiate (1 := tt).
    destruct newFunction as [f|].
    - step; [apply push_eq |]. norm.
      rewrite (lua_setfield_eq _ _ _ ((stack l ++ [Table c]) ++ [Table (N.succ c)])
                 (CFunc f) (N.succ c) emptyTable); norm.
      + rewrite insert_insert_eq.
        rewrite (bool_decide_eq_false_2 (CFunc f = Nil)) by done.
        unfold l1, methodsTableObject. simpl. by rewrite insert_empty.
      + done.
      + apply Hmt'.
      + by rewrite lookup_insert_eq.
      + done.
    - reflexivity. }
  destruct base as [[b ob]|]; simpl in Hbase.
  - destruct Hbase as (Hb1 & Hb2 & Hgb & Hhb).
    assert (Hbc : b ≠ c ∧ b ≠ N.succ c ∧ b ≠ N.succ (N.succ c)).
    { assert (b < c)%N by (apply Hbelow; eauto). lia. }
    destruct Hbc as (Hbc1 & Hbc2 & Hbc3).
    step.
    { rewrite bool_decide_eq_true_2 by done.
      step; [apply lua_getglobal_eq |]. unfold l1. norm.
      rewrite lookup_insert_ne by done. rewrite Hgb. simpl default.
      step.
      { eapply (lua_rawgeti_eq (-1) key_p _ b ob); norm.
        - by rewrite (indexValue_top _ [Table b] (-1)) by (simpl; lia).
        - by rewrite !lookup_insert_ne by done. }
      norm.
      step; [apply getNumber_eq |]. norm.
      rewrite (indexValue_top _ [default Nil (fields ob !! KInt key_p)] (-1))
        by (simpl; lia).
      simpl lookup. simpl default.
      step.
      { apply (lua_pop_eq 1 _ (((stack l ++ [Table c]) ++ [Table (N.succ c)])
                               ++ [Table b])
                 [default Nil (fields ob !! KInt key_p)]); by norm. }
      norm.
      step.
      { eapply (lua_setfield_eq _ _ _ ((stack l ++ [Table c]) ++ [Table (N.succ c)])
                  (Table b) (N.succ c)); norm.
        - done.
        - apply Hmt'.
        - by rewrite lookup_insert_eq.
        - done. }
      norm. rewrite insert_insert_eq.
      rewrite (bool_decide_eq_false_2 (Table b = Nil)) by done.
      reflexivity. }
    rewrite <- (app_assoc (stack l)). simpl app.
    rewrite (registerClass_tail className _ _ (stack l) c (N.succ c) emptyTable);
      norm.
    + unfold withClass, parentsOf. fold c. simpl. do 3 f_equal.
      rewrite (insert_insert_ne _ c (N.succ c)) by lia.
      rewrite insert_insert_eq. done.
    + done.
    + rewrite lookup_insert_ne by lia. by rewrite lookup_insert_eq.
    + done.
    + lia.
  - subst baseClass.
    step. { rewrite bool_decide_eq_false_2 by (intros H; by apply H). reflexivity. }
    unfold l1. rewrite <- (app_assoc (stack l)). simpl app.
    rewrite (registerClass_tail className _ _ (stack l) c (N.succ c) emptyTable);
      norm.
    + unfold withClass, parentsOf. fold c. simpl. do 3 f_equal.
      rewrite (insert_insert_ne _ c (N.succ c)) by lia.
      rewrite insert_insert_eq. done.
    + done.
    + rewrite lookup_insert_ne by lia. by rewrite lookup_insert_eq.
    + done.
    + lia.
Qed.

Lemma heapBelow_withClass className newFunction base parents l :
  heapBelow l → heapBelow (withClass hash className newFunction base parents l).
Proof.
  intros Hb r [x Hx]. unfold withClass in *. simpl in *.
  destruct (decide (r = N.succ (N.succ (nextObject l)))) as [-> | H1]; [lia |].
  rewrite lookup_insert_ne in Hx by done.
  destruct (decide (r = N.succ (nextObject l))) as [-> | H2]; [lia |].
  rewrite lookup_insert_ne in Hx by done.
  destruct (decide (r = nextObject l)) as [-> | H3]; [lia |].
  rewrite lookup_insert_ne in Hx by done.
  assert (r < nextObject l)%N by (apply Hb; eauto). lia.
Qed.

(** X23.  [registerClass] of a name that has no metatable yet leaves the
    stack as it was and makes three tables: the table of the class, which
    the global of the name holds; its metatable, whose [__index] is the
    table of the base class; and the metatable of the instances, which the
    registry holds under the name and whose [__index] and [__metatable] are
    the table of the class, ['h'] the hash of the name, ['t'] the type of
    the name and ['p'] the depth.  The depth is 0 without a base class; with
    one it is one more than the number under ['p'] in the table of the base
    class, so 1 when that table has no such field.  The other globals, the
    other entries of the registry and the objects of the heap are as
    before. *)
Theorem registerClass_descriptor (className baseClass : string)
    (newFunction : option CFunction) (base : option (N * Object))
    (l : lua_State) :
  heapBelow l →
  registry l !! KStr className = None →
  match base with
  | Some (b, ob) =>
    baseClass ≠ "" ∧ baseClass ≠ className
    ∧ globals l !! baseClass = Some (Table b) ∧ heap l !! b = Some ob
  | None => baseClass = ""
  end →
  ∃ l' c mt m om,
    registerClass hash str2d className baseClass newFunction l = Some (tt, l')
    ∧ stack l' = stack l
    ∧ globals l' !! className = Some (Table c)
    ∧ heap l' !! c = Some (classObject mt)
    ∧ heap l' !! mt = Some (methodsTableObject newFunction (fst <$> base))
    ∧ registry l' !! KStr className = Some (Table m)
    ∧ heap l' !! m = Some om
    ∧ fields om !! KStr "__index" = Some (Table c)
    ∧ fields om !! KStr "__metatable" = Some (Table c)
    ∧ fields om !! KInt key_h = Some (Number (hash className))
    ∧ fields om !! KInt key_t = Some (Number (typeTagOf className))
    ∧ fields om !! KInt key_p = Some (Number (parentsOf str2d base))
    ∧ (match base with
       | Some (b, ob) =>
         fields ob !! KInt key_p = None → parentsOf str2d base = 1
       | None => parentsOf str2d base = 0
       end)
    ∧ (∀ name, name ≠ className → globals l' !! name = globals l !! name)
    ∧ (∀ k, k ≠ KStr className → registry l' !! k = registry l !! k)
    ∧ (∀ r o, heap l !! r = Some o → heap l' !! r = Some o)
    ∧ heapBelow l'.
Proof.
  intros Hbelow Hreg Hbase.
  eexists _, (nextObject l), (N.succ (nextObject l)),
    (N.succ (N.succ (nextObject l))), _.
  split; [by apply (registerClass_eq className baseClass newFunction base) |].
  unfold withClass. simpl.
  split; [done |]. split; [by rewrite lookup_insert_eq |].
  split. { rewrite !lookup_insert_ne by lia. by rewrite lookup_insert_eq. }
  split. { rewrite lookup_insert_ne by lia. by rewrite lookup_insert_eq. }
  split; [by rewrite lookup_insert_eq |].
  split; [by rewrite lookup_insert_eq |].
  simpl. split; [done |]. split; [done |]. split; [done |].
  split; [done |]. split; [done |]. split.
  { destruct base as [[b ob]|]; [| done]. intros Hp. unfold parentsOf.
    rewrite Hp. done. }
  split; [intros name Hne; by rewrite lookup_insert_ne |].
  split; [intros k Hne; by rewrite lookup_insert_ne |].
  split.
  { intros r o Ho. assert (r < nextObject l)%N by (apply Hbelow; eauto).
    by rewrite !lookup_insert_ne by lia. }
  by apply (heapBelow_withClass className newFunction (fst <$> base)
              (parentsOf str2d base)).
Qed.

End Registration.

Lemma settable_plain r k v l o :
  heap l !! r = Some o →
  metamethod l (metatable o) "__newindex" = None →
  settable (Table r) k v l = rawset r k v l.
Proof.
  intros Ho Hm. unfold settable. step; [reflexivity |].
  unfold rawget. rewrite Ho. simpl.
  step; [reflexivity |]. case_bool_decide; [done |].
  unfold metatableOf. rewrite Ho. simpl. by rewrite Hm.
Qed.

Lemma metamethod_set_stack s l mt event :
  metamethod (set_stack s l) mt event = metamethod l mt event.
Proof. done. Qed.

Lemma registerMethod_eq (globalName methodName : string) (func : CFunction)
    (l : lua_State) (c : N) (oc : Object) :
  globals l !! globalName = Some (Table c) →
  heap l !! c = Some oc →
  metamethod l (metatable oc) "__newindex" = None →
  registerMethod globalName methodName func l
  = Some (tt, set_heap (<[c := {| fields := <[KStr methodName := CFunc func]>
                                              (fields oc);
                                  metatable := metatable oc;
                                  payload := payload oc |}]> (heap l)) l).
Proof.
  intros Hg Hc Hm. unfold registerMethod.
  step; [apply lua_getglobal_eq |]. rewrite Hg. simpl default.
  step; [apply push_eq |]. norm.
  step.
  { unfold lua_setfield.
    step.
    { apply valueAt_eq. norm. rewrite <- app_assoc.
      by rewrite (indexValue_top (stack l) ([Table c] ++ [CFunc func]) (-2))
        by (simpl; lia). }
    step. { by apply (pop1_eq _ (stack l ++ [Table c]) (CFunc func)). }
    rewrite (settable_plain c _ _ _ oc) by done.
    by rewrite (rawset_eq c _ _ _ oc). }
  norm. rewrite (bool_decide_eq_false_2 (CFunc func = Nil)) by done.
  rewrite (lua_pop_eq 1 _ (stack l) [Table c]) by done.
  by destruct l.
Qed.

Lemma newUserdata_eq (p : option addr) (l : lua_State) :
  newUserdata p l
  = Some (tt, {| stack := stack l ++ [Userdata (nextObject l)];
                 heap := <[nextObject l := {| fields := ∅; metatable := None;
                                              payload := p |}]> (heap l);
                 nextObject := N.succ (nextObject l);
                 globals := globals l; registry := registry l;
                 nextRef := nextRef l;
                 stringMetatable := stringMetatable l;
                 unrefCalls := unrefCalls l |}).
Proof. reflexivity. Qed.

Lemma pushInstance_eq (p : addr) (className : string) (l : lua_State) (m : N) :
  registry l !! KStr className = Some (Table m) →
  pushInstance p className l
  = Some (tt, {| stack := stack l ++ [Userdata (nextObject l)];
                 heap := <[nextObject l := {| fields := ∅; metatable := Some m;
                                              payload := Some p |}]> (heap l);
                 nextObject := N.succ (nextObject l);
                 globals := globals l; registry := registry l;
                 nextRef := nextRef l;
                 stringMetatable := stringMetatable l;
                 unrefCalls := unrefCalls l |}).
Proof.
  intros Hr. unfold pushInstance, pushSharedPtr, newUserdata, setMetatable.
  step; [apply newUserdata_eq |].
  step; [reflexivity |]. norm. rewrite Hr. simpl default.
  unfold lua_setmetatable.
  step.
  { apply valueAt_eq. norm. rewrite <- app_assoc.
    by rewrite (indexValue_top (stack l) ([Userdata _] ++ [Table m]) (-1 - 1))
      by (simpl; lia). }
  step. { by apply (pop1_eq _ (stack l ++ [Userdata (nextObject l)]) (Table m)). }
  step; [reflexivity |]. step; [reflexivity |]. norm.
  rewrite lookup_insert_eq. step; [reflexivity |].
  unfold put, set_heap. norm. by rewrite insert_insert_eq.
Qed.

Section Methods.

Variable hash : string → Z.
Variable str2d : string → option Z.

(** Look an address up in a heap that was extended at other addresses. *)
Ltac heap_lookup :=
  repeat (rewrite lookup_insert_eq || (rewrite lookup_insert_ne by lia)).

(** X24.  With a class, a class derived from it and a method registered for
    each, an instance of the derived class finds its own method and the
    method of the base class by indexing, the own method first when the two
    have the same name; any other name gives nil.  The base class does not
    find the method of the derived class. *)
Theorem derivedInstance_methods (baseClass derivedClass : string)
    (baseMethod : string) (baseFunc : CFunction)
    (derivedMethod : string) (derivedFunc : CFunction) (p : addr)
    (l : lua_State) :
  heapBelow l →
  registry l !! KStr baseClass = None →
  registry l !! KStr derivedClass = None →
  baseClass ≠ "" → baseClass ≠ derivedClass →
  ∃ l' u,
    derivedInstance hash str2d baseClass derivedClass baseMethod baseFunc
      derivedMethod derivedFunc p l = Some (tt, l')
    ∧ stack l' = stack l ++ [Userdata u]
    ∧ (heap l' !! u ≫= payload) = Some p
    ∧ dataTypeOf str2d l' (Userdata u) = typeTagOf derivedClass
    ∧ gettable MAXTAGLOOP l' (Userdata u) (KStr derivedMethod)
      = Some (CFunc derivedFunc)
    ∧ gettable MAXTAGLOOP l' (Userdata u) (KStr baseMethod)
      = Some (CFunc (if bool_decide (baseMethod = derivedMethod)
                     then derivedFunc else baseFunc))
    ∧ (∀ name, name ≠ baseMethod → name ≠ derivedMethod →
       gettable MAXTAGLOOP l' (Userdata u) (KStr name) = Some Nil)
    ∧ (derivedMethod ≠ baseMethod →
       gettable MAXTAGLOOP l' (default Nil (globals l' !! baseClass))
         (KStr derivedMethod) = Some Nil).
Proof.
  intros Hbelow HrB HrD HB HBD.
  set (c0 := nextObject l).
  unfold derivedInstance.
  step. { by apply (registerClass_eq hash str2d baseClass "" None None). }
  simpl fmap. simpl parentsOf.
  step.
  { apply (registerClass_eq hash str2d derivedClass baseClass None
             (Some (c0, classObject (N.succ c0)))).
    - by apply heapBelow_withClass.
    - unfold withClass. simpl. by rewrite lookup_insert_ne by congruence.
    - unfold withClass. simpl. split; [done |]. split; [done |].
      split; [by rewrite lookup_insert_eq |]. fold c0. by heap_lookup. }
  simpl fmap.
  assert (Hp : parentsOf str2d (Some (c0, classObject (N.succ c0))) = 1) by done.
  rewrite Hp.
  step.
  { apply (registerMethod_eq baseClass baseMethod baseFunc _ c0
             (classObject (N.succ c0))).
    - unfold withClass. simpl. rewrite lookup_insert_ne by done.
      by rewrite lookup_insert_eq.
    - unfold withClass. simpl. fold c0. by heap_lookup.
    - unfold withClass, metamethod, rawget. simpl. fold c0. by heap_lookup. }
  step.
  { apply (registerMethod_eq derivedClass derivedMethod derivedFunc _
             (N.succ (N.succ (N.succ c0)))
             (classObject (N.succ (N.succ (N.succ (N.succ c0)))))).
    - unfold withClass. simpl. by rewrite lookup_insert_eq.
    - unfold withClass. simpl. fold c0. by heap_lookup.
    - unfold withClass, metamethod, rawget. simpl. fold c0. by heap_lookup. }
  set (c1 := N.succ (N.succ (N.succ c0))).
  set (u := N.succ (N.succ (N.succ c1))).
  match goal with
  | |- ∃ l' u', pushInstance _ _ ?st = _ ∧ _ => set (l4 := st)
  end.
  assert (Hr4 : registry l4 !! KStr derivedClass = Some (Table (N.succ (N.succ c1)))).
  { unfold l4, withClass. simpl. by rewrite lookup_insert_eq. }
  assert (Hn4 : nextObject l4 = u) by done.
  pose proof (pushInstance_eq p derivedClass l4 _ Hr4) as Hpush.
  rewrite Hn4 in Hpush.
  match type of Hpush with _ = Some (tt, ?st) => set (l5 := st) in * end.
  assert (Hu : heap l5 !! u
               = Some {| fields := ∅; metatable := Some (N.succ (N.succ c1));
                         payload := Some p |}).
  { unfold l5. simpl. by rewrite lookup_insert_eq. }
  assert (Hm1 : heap l5 !! N.succ (N.succ c1)
                = Some (metatableObject hash derivedClass c1 1)).
  { unfold l5, l4, withClass, u, c1. simpl. fold c0. by heap_lookup. }
  assert (Hc1 : heap l5 !! c1
                = Some {| fields := {[KStr derivedMethod := CFunc derivedFunc]};
                          metatable := Some (N.succ c1); payload := None |}).
  { unfold l5, l4, withClass, u, c1. simpl. fold c0. heap_lookup.
    by rewrite insert_empty. }
  assert (Hmt1 : heap l5 !! N.succ c1
                 = Some (methodsTableObject None (Some c0))).
  { unfold l5, l4, withClass, u, c1. simpl. fold c0. by heap_lookup. }
  assert (Hc0 : heap l5 !! c0
                = Some {| fields := {[KStr baseMethod := CFunc baseFunc]};
                          metatable := Some (N.succ c0); payload := None |}).
  { unfold l5, l4, withClass, u, c1. simpl. fold c0. heap_lookup.
    by rewrite insert_empty. }
  assert (Hmt0 : heap l5 !! N.succ c0 = Some (methodsTableObject None None)).
  { unfold l5, l4, withClass, u, c1. simpl. fold c0. by heap_lookup. }
  assert (Hg : globals l5 !! baseClass = Some (Table c0)).
  { unfold l5, l4, withClass. simpl. rewrite lookup_insert_ne by done.
    by rewrite lookup_insert_eq. }
  assert (Hs : stack l5 = stack l ++ [Userdata u]) by done.
  clearbody l5. clear Hr4 Hn4. clearbody l4.
  exists l5, u. split; [exact Hpush |]. split; [exact Hs |].
  split; [by rewrite Hu |]. split.
  { unfold dataTypeOf, metatableOf. rewrite Hu. simpl. by rewrite Hm1. }
  assert (Hbase : ∀ n name,
            gettable (S n) l5 (Table c0) (KStr name)
            = Some (if bool_decide (name = baseMethod)
                    then CFunc baseFunc else Nil)).
  { intros n name. cbn [gettable]. unfold rawget. rewrite Hc0. simpl.
    destruct (decide (name = baseMethod)) as [-> | E].
    - rewrite lookup_singleton_eq. simpl.
      by rewrite !bool_decide_eq_true_2 by done.
    - rewrite lookup_singleton_ne by congruence. simpl.
      rewrite (bool_decide_eq_false_2 (name = baseMethod)) by done.
      rewrite Hc0. simpl.
      unfold metamethod, rawget. simpl. rewrite Hmt0. simpl. done. }
  assert (Hderived : ∀ n name,
            gettable (S (S n)) l5 (Table c1) (KStr name)
            = Some (if bool_decide (name = derivedMethod)
                    then CFunc derivedFunc
                    else if bool_decide (name = baseMethod)
                         then CFunc baseFunc else Nil)).
  { intros n name. pose proof (Hbase n name) as Hb.
    set (n' := S n) in *. clearbody n'.
    cbn [gettable]. unfold rawget at 1. rewrite Hc1.
    cbn [mbind option_bind fields metatable].
    destruct (decide (name = derivedMethod)) as [-> | E].
    - rewrite lookup_singleton_eq. cbn [default].
      by rewrite !bool_decide_eq_true_2 by done.
    - rewrite lookup_singleton_ne by congruence. cbn [default].
      rewrite (bool_decide_eq_false_2 (Nil ≠ Nil)) by (intros H; by apply H).
      rewrite (bool_decide_eq_false_2 (name = derivedMethod)) by done.
      cbn -[gettable]. rewrite Hc1. cbn -[gettable].
      unfold metamethod, rawget. rewrite Hmt1. cbn -[gettable].
      exact Hb. }
  assert (Hinstance : ∀ n name,
            gettable (S (S (S n))) l5 (Userdata u) (KStr name)
            = Some (if bool_decide (name = derivedMethod)
                    then CFunc derivedFunc
                    else if bool_decide (name = baseMethod)
                         then CFunc baseFunc else Nil)).
  { intros n name. pose proof (Hderived n name) as Hd.
    set (n' := S (S n)) in *. clearbody n'.
    cbn [gettable].
    unfold metamethod, metatableOf, rawget.
    rewrite Hu. cbn -[gettable]. rewrite Hm1.
    cbn -[gettable].
    exact Hd. }
  unfold MAXTAGLOOP.
  split; [| split; [| split]].
  - rewrite Hinstance. by rewrite bool_decide_eq_true_2.
  - rewrite Hinstance. case_bool_decide; [done |].
    by rewrite bool_decide_eq_true_2.
  - intros name H1 H2. rewrite Hinstance.
    by rewrite !bool_decide_eq_false_2 by done.
  - intros Hne. rewrite Hg. simpl default. rewrite Hbase.
    by rewrite bool_decide_eq_false_2.
Qed.

End Methods.

Lemma heapBelow_emptyState : heapBelow emptyState.
Proof. intros r [x Hx]. simpl in Hx. by rewrite lookup_empty in Hx. Qed.

Lemma registerClass_descriptor_witness :
  ∃ l', registerClass exampleHash noNumber "Item" "" None emptyState
        = Some (tt, l')
        ∧ stack l' = [].
Proof.
  destruct (registerClass_descriptor exampleHash noNumber "Item" "" None None
              emptyState)
    as (l' & c & mt & m & om & H1 & H2 & _).
  - apply heapBelow_emptyState.
  - vm_compute. reflexivity.
  - reflexivity.
  - exists l'. by split.
Defined.

Lemma derivedInstance_methods_witness :
  ∃ l' u,
    derivedInstance exampleHash noNumber "Creature" "Player"
      "getId" luaCreatureGetId_f "getName" (boundFunction "luaPlayerGetName")
      2%N emptyState = Some (tt, l')
    ∧ gettable MAXTAGLOOP l' (Userdata u) (KStr "getId")
      = Some (CFunc luaCreatureGetId_f).
Proof.
  destruct (derivedInstance_methods exampleHash noNumber "Creature" "Player"
              "getId" luaCreatureGetId_f "getName"
              (boundFunction "luaPlayerGetName") 2%N emptyState)
    as (l' & u & H1 & _ & _ & _ & _ & H2 & _).
  - apply heapBelow_emptyState.
  - vm_compute. reflexivity.
  - vm_compute. reflexivity.
  - vm_compute. congruence.
  - vm_compute. congruence.
  - exists l', u. split; [exact H1 |].
    rewrite H2. by rewrite bool_decide_eq_false_2 by (vm_compute; congruence).
Defined.

(** * Calls into scripts *)

Section Calls.

Variable g : Game.
Variable vm : Value → list Value → World → Z * list Value * World.

(** X25.  [callFunction] on a stack that holds a function and its
    arguments, with an environment in use and a script that gives the pool
    of environments back as it found it: the function and the arguments
    are taken from the stack and nothing else; the result is the truth of
    the first value the script returned, or false when the script raised
    an error, whose message is then the only thing reported, so
    "Stack size changed!" never is; and the environment in use is reset
    and given back to the pool. *)
Theorem callFunction_balanced (w : World) (s : list Value) (fv : Value)
    (pvs : list Value) :
  keepsPool vm →
  stack (L w) = s ++ fv :: pvs →
  0 ≤ scriptEnvIndex (bridge w) < Z.of_nat (length (scriptEnv (bridge w))) →
  ∃ w',
    callFunction g vm (Z.of_nat (length pvs)) w
    = Some (if bool_decide ((vm fv pvs (callWorld s fv pvs w)).1.1 ≠ 0)
            then false
            else truthOf (default Nil
                            (head (vm fv pvs (callWorld s fv pvs w)).1.2)),
            w')
    ∧ stack (L w') = s
    ∧ output w'
      = output (vm fv pvs (callWorld s fv pvs w)).2
        ++ (if bool_decide ((vm fv pvs (callWorld s fv pvs w)).1.1 ≠ 0)
            then [stringOf (default Nil
                              (head (vm fv pvs (callWorld s fv pvs w)).1.2))]
            else [])
    ∧ timerEvents w' = timerEvents (vm fv pvs (callWorld s fv pvs w)).2
    ∧ scriptEnvIndex (bridge w') = scriptEnvIndex (bridge w) - 1
    ∧ bridge w'
      = set_scriptEnvIndex (scriptEnvIndex (bridge w) - 1)
          (resetEnv g (Z.to_nat (scriptEnvIndex (bridge w)))
             (bridge (vm fv pvs (callWorld s fv pvs w)).2)).
Proof.
  intros Hpool Hs Hidx.
  destruct (callFunction_run g vm w s fv pvs Hpool Hs Hidx)
    as (w' & Hrun & HL & Hout & Ht & Hi & Hb).
  exists w'. split; [exact Hrun |]. split; [by rewrite HL |]. done.
Qed.

End Calls.

Lemma callFunction_balanced_witness :
  ∃ w', callFunction gameOfItems idleScript 1 scriptCall = Some (true, w')
        ∧ stack (L w') = [].
Proof.
  destruct (callFunction_balanced gameOfItems idleScript scriptCall []
              (Closure 0) [Number 5]) as (w' & H1 & H2 & _).
  - apply idleScript_keepsPool.
  - reflexivity.
  - vm_compute. split; congruence.
  - exists w'. split; [exact H1 | exact H2].
Defined.

Section AddEventErrors.

Variable g : Game.
Variable config : Config.
Variable str2d : string → option Z.

(** X26.  [addEvent] with fewer than two arguments, with a first argument
    that is not a function or with a second argument that is not a number
    reports one error and pushes [false]: no timer is made, nothing is
    given to the scheduler, no reference is taken and the arguments stay on
    the stack. *)
Theorem luaAddEvent_rejects (w : World) :
  (length (stack (L w)) < 2)%nat
  ∨ isfunction (default Nil (indexValue (stack (L w)) 1)) = false
  ∨ (∀ n, default Nil (indexValue (stack (L w)) 2) ≠ Number n) →
  ∃ message,
    luaAddEvent g config str2d w
    = Some (1, set_L (set_stack (stack (L w) ++ [Boolean false]) (L w))
                 (set_output (output w ++ [message]) w))
    ∧ message
      = (if bool_decide (length (stack (L w)) < 2)%nat then
           String.append "Not enough parameters: "
             (String.append (pretty (Z.of_nat (length (stack (L w))))) ".")
         else if negb (isfunction (default Nil (indexValue (stack (L w)) 1)))
              then "callback parameter should be a function."
              else "delay parameter should be a number.")%string.
Proof.
  intros Hbad. eexists. split; [| reflexivity]. unfold luaAddEvent.
  step. { apply liftL_Some. apply lua_gettop_eq. }
  rewrite set_L_L.
  destruct (decide (length (stack (L w)) < 2)%nat) as [Hlt | Hge].
  - rewrite bool_decide_eq_true_2 by lia.
    rewrite (bool_decide_eq_true_2 (_ < _)%nat) by done.
    step; [reflexivity |].
    step. { apply liftL_Some. reflexivity. }
    reflexivity.
  - rewrite bool_decide_eq_false_2 by lia.
    rewrite (bool_decide_eq_false_2 (_ < _)%nat) by done.
    step. { apply liftL_Some. apply lua_isfunction_eq. }
    rewrite set_L_L.
    destruct (isfunction (default Nil (indexValue (stack (L w)) 1))) eqn:Hf;
      simpl.
    + destruct Hbad as [Hbad | [Hbad | Hbad]]; [lia | done |].
      step. { apply liftL_Some. reflexivity. }
      rewrite set_L_L. unfold index2adr.
      destruct (default Nil (indexValue (stack (L w)) 2)) eqn:Hn;
        try (simpl; step; [reflexivity |];
             (step; [apply liftL_Some; reflexivity |]); reflexivity).
      by destruct (Hbad n).
    + step; [reflexivity |].
      step. { apply liftL_Some. reflexivity. }
      reflexivity.
Qed.

End AddEventErrors.

Lemma luaAddEvent_rejects_witness :
  ∃ message w',
    luaAddEvent gameOfItems exampleConfig noNumber
      (set_L (set_stack [Number 5; Number 100] emptyState) scriptCall)
    = Some (1, w')
    ∧ output w' = [message] ∧ timerEvents w' = ∅.
Proof.
  destruct (luaAddEvent_rejects gameOfItems exampleConfig noNumber
              (set_L (set_stack [Number 5; Number 100] emptyState) scriptCall))
    as (message & H & _).
  - right. left. reflexivity.
  - eexists _, _. split; [exact H |]. split; reflexivity.
Defined.

(** * Things on the stack *)

Section Things.

Variable g : Game.
Variable str2d : string → option Z.

Lemma classTagged_lookup (l : lua_State) (name : string) :
  classTagged l name = true →
  ∃ m om, registry l !! KStr name = Some (Table m)
          ∧ heap l !! m = Some om
          ∧ fields om !! KInt key_t = Some (Number (typeTagOf name)).
Proof.
  unfold classTagged. intros H.
  destruct (registry l !! KStr name) as [[]|]; try done.
  destruct (heap l !! r) as [om|] eqn:E; [| done].
  apply bool_decide_eq_true in H. eauto.
Qed.

Lemma getSharedPtr_userdata (idx : Z) (l : lua_State) (r : N) (o : Object) :
  indexValue (stack l) idx = Some (Userdata r) →
  heap l !! r = Some o →
  getSharedPtr idx l = Some (payload o, l).
Proof.
  intros Hv Ho. unfold getSharedPtr. step; [reflexivity |].
  unfold index2adr. rewrite Hv. simpl. rewrite Ho. reflexivity.
Qed.

(** The state after an instance of a class with the metatable [m] was
    pushed. *)
Lemma instance_getThing (w : World) (t : addr) (m : N) (om : Object)
    (tag : Z) :
  heapBelow (L w) →
  heap (L w) !! m = Some om →
  fields om !! KInt key_t = Some (Number tag) →
  let l' := {| stack := stack (L w) ++ [Userdata (nextObject (L w))];
               heap := <[nextObject (L w)
                         := {| fields := ∅; metatable := Some m;
                               payload := Some t |}]> (heap (L w));
               nextObject := N.succ (nextObject (L w));
               globals := globals (L w); registry := registry (L w);
               nextRef := nextRef (L w);
               stringMetatable := stringMetatable (L w);
               unrefCalls := unrefCalls (L w) |} in
  getUserdataType str2d (Z.of_nat (length (stack l'))) l' = Some (tag, l')
  ∧ getThing g str2d (Z.of_nat (length (stack l'))) (set_L l' w)
    = Some (if isThingType (wrap 32 tag) then Some t else None, set_L l' w).
Proof.
  intros Hbelow Hm Ht l'.
  set (u := nextObject (L w)) in *.
  assert (Hmu : m ≠ u).
  { assert (m < u)%N by (apply Hbelow; eauto). lia. }
  assert (Hidx : Z.of_nat (length (stack l')) = Z.of_nat (length (stack (L w))) + 1).
  { unfold l'. simpl. by rewrite length_snoc_Z. }
  rewrite Hidx.
  assert (Hv : ∀ rest, indexValue (stack (L w) ++ Userdata u :: rest)
                         (Z.of_nat (length (stack (L w))) + 1)
                       = Some (Userdata u)).
  { intros rest. apply indexValue_middle. }
  assert (Hmeta : lua_getmetatable (Z.of_nat (length (stack (L w))) + 1) l'
                  = Some (1, set_stack (stack l' ++ [Table m]) l')).
  { apply (lua_getmetatable_Some _ _ (Userdata u)).
    - apply (Hv []).
    - unfold metatableOf, l'. simpl. by rewrite lookup_insert_eq. }
  assert (Hraw : lua_rawgeti (-1) key_t (set_stack (stack l' ++ [Table m]) l')
                 = Some (tt, set_stack ((stack l' ++ [Table m]) ++ [Number tag]) l')).
  { rewrite (lua_rawgeti_eq (-1) key_t _ m om); norm.
    - by rewrite Ht.
    - by rewrite (indexValue_top _ [Table m] (-1)) by (simpl; lia).
    - unfold l'. simpl. by rewrite lookup_insert_ne. }
  assert (Hpop : lua_pop 2 (set_stack ((stack l' ++ [Table m]) ++ [Number tag]) l')
                 = Some (tt, l')).
  { rewrite (lua_pop_eq 2 _ (stack l') [Table m; Number tag]); norm.
    - by rewrite set_stack_stack.
    - by rewrite <- app_assoc.
    - done. }
  split.
  - unfold getUserdataType. step; [exact Hmeta |].
    rewrite bool_decide_eq_false_2 by done.
    step; [exact Hraw |].
    step; [apply getNumber_enum_eq |]. norm.
    rewrite (indexValue_top _ [Number tag] (-1)) by (simpl; lia). simpl.
    step; [exact Hpop |]. reflexivity.
  - unfold getThing.
    step. { apply liftL_Some. exact Hmeta. }
    rewrite bool_decide_eq_true_2 by done.
    step. { apply liftL_Some. norm. exact Hraw. }
    step. { apply liftL_Some. apply getNumber_eq. }
    norm.
    rewrite (indexValue_top _ [Number tag] (-1)) by (simpl; lia). simpl.
    set (w2 := set_L _ w).
    assert (Hthing :
      (if isThingType (wrap 32 tag)
       then liftL (getSharedPtr (Z.of_nat (length (stack (L w))) + 1))
       else mret None) w2
      = Some (if isThingType (wrap 32 tag) then Some t else None, w2)).
    { destruct (isThingType (wrap 32 tag)); [| reflexivity].
      erewrite liftL_Some; [by rewrite set_L_L |].
      unfold w2. norm.
      apply (getSharedPtr_userdata _ _ u
               {| fields := ∅; metatable := Some m; payload := Some t |}).
      - norm. unfold l'. norm. rewrite <- !app_assoc. apply Hv.
      - unfold l'. norm. by rewrite lookup_insert_eq. }
    step; [exact Hthing |].
    step. { apply liftL_Some. unfold w2. norm. exact Hpop. }
    unfold w2. norm. reflexivity.
Qed.

Lemma pushThing_instance (t : addr) (l : lua_State) :
  (∃ r, thingAt g t = TileThing r) ∨
  pushThing g (Some t) l = pushInstance t (classOfThing (thingAt g t)) l.
Proof.
  unfold pushThing, itemAt, creatureAt, pushInstance, setMetatable,
    setItemMetatable, setCreatureMetatable, classOfThing.
  destruct (thingAt g t) as [i | c | r].
  - right. by destruct (item_kind i).
  - right. by destruct (creature_kind c).
  - left. by exists r.
Qed.

Lemma classOfThing_tagged (l : lua_State) (th : Thing) :
  forallb (classTagged l) thingClasses = true →
  (∃ r, th = TileThing r)
  ∨ (classTagged l (classOfThing th) = true
     ∧ isThingType (wrap 32 (typeTagOf (classOfThing th))) = true).
Proof.
  intros H. unfold thingClasses in H. simpl in H.
  repeat (apply andb_true_iff in H as [? H]).
  destruct th as [i | c | r].
  - right. simpl. by destruct (item_kind i).
  - right. simpl. by destruct (creature_kind c).
  - left. by exists r.
Qed.

(** X27.  With the six classes of items and creatures registered,
    [pushThing] of an item or a creature pushes one userdata, tagged with
    the metatable of the class of the thing, and changes neither the
    globals nor the registry; at the index of that userdata
    [getUserdataType] reads the type of the class and [getThing] gives the
    pointer back, both leaving the stack as it is.  For a tile [pushThing]
    pushes nil. *)
Theorem pushThing_getThing (w : World) (t : addr) :
  heapBelow (L w) →
  forallb (classTagged (L w)) thingClasses = true →
  match thingAt g t with
  | TileThing _ =>
    pushThing g (Some t) (L w)
    = Some (tt, set_stack (stack (L w) ++ [Nil]) (L w))
  | thing =>
    ∃ l',
      pushThing g (Some t) (L w) = Some (tt, l')
      ∧ stack l' = stack (L w) ++ [Userdata (nextObject (L w))]
      ∧ globals l' = globals (L w) ∧ registry l' = registry (L w)
      ∧ getUserdataType str2d (Z.of_nat (length (stack l'))) l'
        = Some (typeTagOf (classOfThing thing), l')
      ∧ getThing g str2d (Z.of_nat (length (stack l'))) (set_L l' w)
        = Some (Some t, set_L l' w)
  end.
Proof.
  intros Hbelow Hclasses.
  destruct (pushThing_instance t (L w)) as [[r Hr] | Hpush].
  { rewrite Hr. unfold pushThing, itemAt, creatureAt. rewrite Hr. reflexivity. }
  destruct (classOfThing_tagged (L w) (thingAt g t) Hclasses)
    as [[r Hr] | [Htag Htype]].
  { rewrite Hr. unfold pushThing, itemAt, creatureAt. rewrite Hr. reflexivity. }
  destruct (classTagged_lookup _ _ Htag) as (m & om & Hreg & Hm & Ht).
  pose proof (pushInstance_eq t _ (L w) m Hreg) as Hinst.
  pose proof (instance_getThing w t m om _ Hbelow Hm Ht) as Hget.
  cbv zeta in Hget. rewrite Htype in Hget. destruct Hget as [Hget1 Hget2].
  rewrite <- Hpush in Hinst.
  destruct (thingAt g t) as [i | c | r] eqn:Hth.
  - eexists. split; [exact Hinst |]. split; [done |]. split; [done |].
    split; [done |]. split; [exact Hget1 | exact Hget2].
  - eexists. split; [exact Hinst |]. split; [done |]. split; [done |].
    split; [done |]. split; [exact Hget1 | exact Hget2].
  - by destruct (classOfThing_tagged (L w) (TileThing r) Hclasses)
      as [_ | [_ H]].
Qed.

End Things.

Lemma heapBelow_forallb (l : lua_State) :
  forallb (λ p : N * Object, (p.1 <? nextObject l)%N) (map_to_list (heap l))
  = true →
  heapBelow l.
Proof.
  intros H r [o Ho]. rewrite forallb_forall in H.
  apply N.ltb_lt, (H (r, o)), list_elem_of_In, elem_of_map_to_list, Ho.
Qed.

Lemma pushThing_getThing_witness :
  let w := set_L thingClassesState scriptCall in
  ∃ l',
    pushThing exampleGame (Some 2%N) (L w) = Some (tt, l')
    ∧ stack l' = stack (L w) ++ [Userdata (nextObject (L w))]
    ∧ globals l' = globals (L w) ∧ registry l' = registry (L w)
    ∧ getUserdataType noNumber (Z.of_nat (length (stack l'))) l'
      = Some (typeTagOf "Player", l')
    ∧ getThing exampleGame noNumber (Z.of_nat (length (stack l')))
        (set_L l' w)
      = Some (Some 2%N, set_L l' w).
Proof.
  intros w.
  apply (pushThing_getThing exampleGame noNumber w 2%N).
  - apply heapBelow_forallb. vm_compute. reflexivity.
  - vm_compute. reflexivity.
Defined.

(** * The call a timer makes *)

Lemma captures_lookup (l : lua_State) (ref : Z) (v : Value) :
  registry l !! KInt LUA_REFNIL = None →
  captures l ref v →
  default Nil (registry l !! KInt ref) = v.
Proof.
  intros Hnil. unfold captures. case_bool_decide as Hv.
  - intros ->. by rewrite Hnil.
  - by intros ->.
Qed.

Lemma captures_lookups (l : lua_State) (refs : list Z) (vs : list Value) :
  registry l !! KInt LUA_REFNIL = None →
  Forall2 (captures l) refs vs →
  (λ ref, default Nil (registry l !! KInt ref)) <$> refs = vs.
Proof.
  intros Hnil. induction 1 as [| ref v refs vs Hc _ IH]; [done |].
  rewrite fmap_cons, IH. f_equal. by apply captures_lookup.
Qed.

Section TimerCall.

Variable g : Game.
Variable vm : Value → list Value → World → Z * list Value * World.
Variable this : nat.

(** X28.  A timer that fires while an environment is free calls the
    function its descriptor refers to on the values its parameter
    references hold, taken in the reverse of the order in which the
    descriptor stores them, which is the order [addEvent] received them in.
    The script runs in a world [wc] whose stack holds the error handler,
    the function and the arguments on top of what was there, in which the
    event is no longer pending, and whose environment in use carries the
    script id of the descriptor, the timer flag and this interface.  After
    the call the stack is what it was, the environment is given back, an
    error message of the script is the only thing reported, and every
    reference of the descriptor is released once. *)
Theorem executeTimerEvent_call (eventIndex : Z) (w : World)
    (d : LuaTimerEventDesc) (fv : Value) (pvs : list Value) :
  keepsPool vm →
  timerEvents w !! eventIndex = Some d →
  -1 ≤ scriptEnvIndex (bridge w) →
  scriptEnvIndex (bridge w) + 1 < Z.of_nat (length (scriptEnv (bridge w))) →
  registry (L w) !! KInt LUA_REFNIL = None →
  captures (L w) (desc_function d) fv →
  Forall2 (captures (L w)) (reverse (desc_parameters d)) pvs →
  ∃ (wc w' : World) (env : ScriptEnvironment),
    executeTimerEvent g vm this eventIndex w = Some (tt, w')
    ∧ L wc = set_stack (stack (L w)
                        ++ CFunc (boundFunction "luaErrorHandler") :: fv :: pvs)
               (L w)
    ∧ timerEvents wc = delete eventIndex (timerEvents w)
    ∧ scriptEnvIndex (bridge wc) = scriptEnvIndex (bridge w) + 1
    ∧ scriptEnv (bridge wc) !! Z.to_nat (scriptEnvIndex (bridge wc)) = Some env
    ∧ scriptId env = desc_scriptId d
    ∧ timerEvent env = true
    ∧ interface env = Some this
    ∧ L w' = released (desc_function d :: desc_parameters d)
               (set_stack (stack (L w)) (L (vm fv pvs wc).2))
    ∧ timerEvents w' = timerEvents (vm fv pvs wc).2
    ∧ scriptEnvIndex (bridge w') = scriptEnvIndex (bridge w)
    ∧ output w'
      = output (vm fv pvs wc).2
        ++ (if bool_decide ((vm fv pvs wc).1.1 ≠ 0)
            then [stringOf (default Nil (head (vm fv pvs wc).1.2))]
            else []).
Proof.
  intros Hpool Hd Hidx Hfree Hnil Hfv Hpvs. unfold executeTimerEvent.
  step; [reflexivity |]. rewrite Hd.
  step; [reflexivity |].
  step. { apply liftL_Some. reflexivity. }
  step. { apply forM_rawgeti_registry. }
  norm.
  rewrite (captures_lookup _ _ _ Hnil Hfv).
  rewrite (captures_lookups _ _ _ Hnil Hpvs).
  assert (Hlen : length (desc_parameters d) = length pvs).
  { apply Forall2_length in Hpvs. by rewrite length_reverse in Hpvs. }
  step. { apply reserveScriptEnv_eq. }
  norm. rewrite bool_decide_eq_true_2 by exact Hfree.
  set (w1 := set_bridge _ _).
  assert (Hlk : is_Some (scriptEnv (bridge w1)
                   !! Z.to_nat (scriptEnvIndex (bridge w1)))).
  { apply lookup_lt_is_Some. subst w1. norm. lia. }
  destruct Hlk as [env Henv].
  pose proof (onScriptEnv_eq setTimerEvent w1 env) as H1.
  set (w2 := set_bridge _ w1) in H1.
  assert (Henv2 : scriptEnv (bridge w2) !! Z.to_nat (scriptEnvIndex (bridge w2))
                  = Some (setTimerEvent env).2).
  { subst w2. norm. apply list_lookup_insert_eq.
    by apply lookup_lt_Some in Henv. }
  pose proof (onScriptEnv_eq (setScriptId (desc_scriptId d) (Some this))
                w2 (setTimerEvent env).2) as H2.
  set (w3 := set_bridge _ w2) in H2.
  destruct (callFunction_run g vm w3 (stack (L w)) fv pvs Hpool)
    as (w4 & Hcall & HL & Hout & Ht & Hi & _).
  { subst w3 w2 w1. norm. by rewrite <- app_assoc. }
  { subst w3 w2 w1. norm. rewrite !length_insert. lia. }
  exists (callWorld (stack (L w)) fv pvs w3). eexists.
  exists (setScriptId (desc_scriptId d) (Some this) (setTimerEvent env).2).2.
  split.
  { step.
    { step. { apply H1; [subst w1; norm; lia | exact Henv]. }
      step. { apply H2; [subst w2 w1; norm; lia | exact Henv2]. }
      rewrite Hlen. step; [exact Hcall |]. reflexivity. }
    step. { apply liftL_Some. apply luaL_unref_eq. }
    rewrite forM_unref. norm. rewrite released_app. reflexivity. }
  split. { subst w3 w2 w1. unfold callWorld. simpl.
           by rewrite set_stack_set_stack. }
  split; [done |]. split; [done |].
  split.
  { unfold callWorld. subst w3. norm. apply list_lookup_insert_eq.
    subst w2. norm. rewrite length_insert. by apply lookup_lt_Some in Henv. }
  split; [done |]. split; [done |]. split; [done |].
  split. { norm. by rewrite HL. }
  split. { norm. exact Ht. }
  split. { norm. rewrite Hi. subst w3 w2 w1. norm. lia. }
  norm. exact Hout.
Qed.

End TimerCall.

(** The pending timer of [timerWorld] calls its function on the number it
    was given. *)
Lemma executeTimerEvent_call_witness :
  ∃ (wc w' : World),
    executeTimerEvent gameOfItems idleScript 0%nat 1 timerWorld = Some (tt, w')
    ∧ stack (L wc)
      = [Number 1; CFunc (boundFunction "luaErrorHandler"); Closure 0; Number 5]
    ∧ stack (L w') = [Number 1]
    ∧ unrefCalls (L w') = [1; 2].
Proof.
  destruct (executeTimerEvent_call gameOfItems idleScript 0%nat 1 timerWorld
              {| desc_scriptId := 0; desc_function := 1;
                 desc_parameters := [2]; desc_eventId := 1 |}
              (Closure 0) [Number 5])
    as (wc & w' & env & Hrun & Hwc & _ & _ & _ & _ & _ & _ & Hw' & _).
  - exact idleScript_keepsPool.
  - vm_compute. reflexivity.
  - vm_compute. discriminate.
  - vm_compute. reflexivity.
  - vm_compute. reflexivity.
  - vm_compute. reflexivity.
  - repeat constructor.
  - exists wc, w'. split; [exact Hrun |]. split; [by rewrite Hwc |].
    rewrite Hw'. simpl. rewrite Hwc. split; reflexivity.
Defined.

(** * The bit library *)

Lemma wrap_32_ones (z : Z) : wrap 32 z = Z.land z (Z.ones 32).
Proof. unfold wrap. by rewrite Z.land_ones. Qed.

Lemma wrap_32_range (z : Z) : 0 ≤ wrap 32 z < 2 ^ 32.
Proof. unfold wrap. apply Z.mod_pos_bound. lia. Qed.

Lemma wrap_32_small (z : Z) : 0 ≤ z < 2 ^ 32 → wrap 32 z = z.
Proof. unfold wrap. apply Z.mod_small. Qed.

Lemma range_land_ones (z : Z) : 0 ≤ z < 2 ^ 32 ↔ Z.land z (Z.ones 32) = z.
Proof.
  rewrite <- wrap_32_ones. split; [apply wrap_32_small |].
  intros <-. apply wrap_32_range.
Qed.

Ltac bitwise :=
  apply Z.bits_inj'; intros i Hi;
  repeat (rewrite Z.land_spec || rewrite Z.lor_spec || rewrite Z.lxor_spec);
  repeat match goal with
         | |- context [Z.testbit ?x i] => destruct (Z.testbit x i)
         end; reflexivity.

Lemma land_range (a b : Z) :
  0 ≤ a < 2 ^ 32 → 0 ≤ b < 2 ^ 32 → 0 ≤ Z.land a b < 2 ^ 32.
Proof.
  rewrite !range_land_ones. intros Ha Hb.
  assert (E : Z.land (Z.land (Z.land a (Z.ones 32)) (Z.land b (Z.ones 32)))
                (Z.ones 32)
              = Z.land (Z.land a (Z.ones 32)) (Z.land b (Z.ones 32)))
    by bitwise.
  by rewrite Ha, Hb in E.
Qed.

Lemma lor_range (a b : Z) :
  0 ≤ a < 2 ^ 32 → 0 ≤ b < 2 ^ 32 → 0 ≤ Z.lor a b < 2 ^ 32.
Proof.
  rewrite !range_land_ones. intros Ha Hb.
  assert (E : Z.land (Z.lor (Z.land a (Z.ones 32)) (Z.land b (Z.ones 32)))
                (Z.ones 32)
              = Z.lor (Z.land a (Z.ones 32)) (Z.land b (Z.ones 32)))
    by bitwise.
  by rewrite Ha, Hb in E.
Qed.

Lemma lxor_range (a b : Z) :
  0 ≤ a < 2 ^ 32 → 0 ≤ b < 2 ^ 32 → 0 ≤ Z.lxor a b < 2 ^ 32.
Proof.
  rewrite !range_land_ones. intros Ha Hb.
  assert (E : Z.land (Z.lxor (Z.land a (Z.ones 32)) (Z.land b (Z.ones 32)))
                (Z.ones 32)
              = Z.lxor (Z.land a (Z.ones 32)) (Z.land b (Z.ones 32)))
    by bitwise.
  by rewrite Ha, Hb in E.
Qed.

Lemma land_UINT32_MAX (a : Z) : 0 ≤ a < 2 ^ 32 → Z.land a UINT32_MAX = a.
Proof. intros Ha. by apply range_land_ones. Qed.

Lemma foldr_op_acc (op : Z → Z → Z) (x y : Z) (xs : list Z) :
  (∀ x y z, op x (op y z) = op (op x y) z) →
  (∀ x y, op x y = op y x) →
  foldr op (op x y) xs = op x (foldr op y xs).
Proof.
  intros Hassoc Hcomm. induction xs as [| a xs IH]; [done |].
  simpl. rewrite IH, !Hassoc. f_equal. apply Hcomm.
Qed.

Lemma foldr_snoc_unit (op : Z → Z → Z) (e y : Z) (xs : list Z) :
  (∀ x y z, op x (op y z) = op (op x y) z) →
  (∀ x y, op x y = op y x) →
  op y e = y →
  foldl op y xs = foldr op e (xs ++ [y]).
Proof.
  intros Hassoc Hcomm He.
  rewrite foldr_app. simpl. rewrite He. clear He.
  revert y. induction xs as [| a xs IH]; intros y; [done |].
  simpl. rewrite IH, (Hcomm y a). by apply foldr_op_acc.
Qed.

Lemma foldr_operand_range (str2d : string → option Z) (op : Z → Z → Z) (e : Z)
    (vs : list Value) :
  (∀ a b, 0 ≤ a < 2 ^ 32 → 0 ≤ b < 2 ^ 32 → 0 ≤ op a b < 2 ^ 32) →
  0 ≤ e < 2 ^ 32 →
  0 ≤ foldr op e (operand str2d <$> vs) < 2 ^ 32.
Proof.
  intros Hop He. induction vs as [| v vs IH]; [exact He |].
  rewrite fmap_cons. simpl foldr. apply Hop; [apply wrap_32_range | exact IH].
Qed.

Section BitLibrary.

Variable str2d : string → option Z.

Lemma MULTIOP_loop (op : Z → Z → Z) (l : lua_State) (rest pre post : list Value)
    (w : Z) :
  stack l = pre ++ rest ++ post →
  foldlM (λ w i, x ← getNumber str2d 32 i; mret (op w x))
    (seqZ (1 + Z.of_nat (length pre)) (Z.of_nat (length rest))) w l
  = Some (foldl op w (operand str2d <$> rest), l).
Proof.
  revert pre w. induction rest as [| a rest IH]; intros pre w Hs; [done |].
  rewrite seqZ_cons by (simpl; lia). simpl foldlM.
  step.
  { step; [apply getNumber_eq |]. reflexivity. }
  assert (Ha : indexValue (stack l) (1 + Z.of_nat (length pre)) = Some a).
  { unfold indexValue. rewrite bool_decide_eq_true_2 by lia.
    replace (Z.to_nat (1 + Z.of_nat (length pre) - 1)) with (length pre) by lia.
    rewrite Hs, lookup_app_r by lia. by rewrite Nat.sub_diag. }
  rewrite Ha. simpl default.
  replace (Z.succ (1 + Z.of_nat (length pre)))
    with (1 + Z.of_nat (length (pre ++ [a])))
    by (rewrite length_app; simpl; lia).
  replace (Z.pred (Z.of_nat (S (length rest))))
    with (Z.of_nat (length rest)) by lia.
  rewrite (IH (pre ++ [a])); [done |].
  by rewrite Hs, <- app_assoc.
Qed.

Lemma MULTIOP_eq (op : Z → Z → Z) (l : lua_State) (init : list Value)
    (last : Value) :
  stack l = init ++ [last] →
  MULTIOP str2d op l
  = Some (1, set_stack
               (stack l ++ [Number (foldl op (operand str2d last)
                                      (operand str2d <$> init))]) l).
Proof.
  intros Hs. unfold MULTIOP.
  step; [apply lua_gettop_eq |].
  step; [apply getNumber_eq |].
  assert (Hlast : indexValue (stack l) (-1) = Some last).
  { rewrite Hs. by rewrite (indexValue_top init [last] (-1)) by (simpl; lia). }
  rewrite Hlast. simpl default. fold (operand str2d last).
  replace (Z.of_nat (length (stack l)) - 1) with (Z.of_nat (length init))
    by (rewrite Hs, length_app; simpl; lia).
  step. { apply (MULTIOP_loop op l init [] [last]). exact Hs. }
  step; [apply push_eq |]. reflexivity.
Qed.

(** X29.  [bit.band], [bit.bor] and [bit.bxor] called with at least one
    argument push one number and leave the arguments in place: the AND, OR
    or XOR of all the arguments, each taken as [uint32_t], whatever their
    number and although the last one is read first; the result fits
    [uint32_t]. *)
Theorem luaBit_multiop (l : lua_State) :
  stack l ≠ [] →
  luaBitAnd str2d l
  = Some (1, set_stack (stack l
              ++ [Number (foldr Z.land UINT32_MAX (operand str2d <$> stack l))])
               l)
  ∧ luaBitOr str2d l
    = Some (1, set_stack (stack l
                ++ [Number (foldr Z.lor 0 (operand str2d <$> stack l))]) l)
  ∧ luaBitXor str2d l
    = Some (1, set_stack (stack l
                ++ [Number (foldr Z.lxor 0 (operand str2d <$> stack l))]) l)
  ∧ 0 ≤ foldr Z.land UINT32_MAX (operand str2d <$> stack l) < 2 ^ 32
  ∧ 0 ≤ foldr Z.lor 0 (operand str2d <$> stack l) < 2 ^ 32
  ∧ 0 ≤ foldr Z.lxor 0 (operand str2d <$> stack l) < 2 ^ 32.
Proof.
  intros Hne.
  assert (Hmax : 0 ≤ UINT32_MAX < 2 ^ 32) by (unfold UINT32_MAX; lia).
  assert (Hzero : 0 ≤ 0 < 2 ^ 32) by lia.
  repeat split;
    try (apply foldr_operand_range;
         [apply land_range || apply lor_range || apply lxor_range | assumption]).
  all: assert (∃ init last, stack l = init ++ [last]) as (init & last & Hs)
         by (destruct (stack l) using rev_ind; [done | eauto]).
  all: unfold luaBitAnd, luaBitOr, luaBitXor.
  all: rewrite (MULTIOP_eq _ l init last Hs), Hs, fmap_app; simpl fmap.
  all: do 6 f_equal; apply foldr_snoc_unit.
  - intros. apply Z.land_assoc.
  - intros. apply Z.land_comm.
  - apply land_UINT32_MAX, wrap_32_range.
  - intros. apply Z.lor_assoc.
  - intros. apply Z.lor_comm.
  - apply Z.lor_0_r.
  - intros. symmetry. apply Z.lxor_assoc.
  - intros. apply Z.lxor_comm.
  - apply Z.lxor_0_r.
Qed.

(** X30.  [bit.lshift(a, b)] with [b] below 32 pushes [a * 2^b] reduced
    to [uint32_t], and [bit.rshift] of that number by the same [b] pushes
    [a] without its [b] highest bits: a left shift followed by the right
    shift gives back [a mod 2^(32 - b)].  The other values of the stack are
    not touched. *)
Theorem luaBitShift_round_trip (l : lua_State) (a b : Value)
    (rest : list Value) :
  stack l = a :: b :: rest →
  operand str2d b < 32 →
  luaBitLeftShift str2d l
  = Some (1, set_stack
               (stack l ++ [Number (operand str2d a * 2 ^ operand str2d b
                                    mod 2 ^ 32)]) l)
  ∧ luaBitRightShift str2d
      (set_stack [Number (operand str2d a * 2 ^ operand str2d b mod 2 ^ 32); b]
         l)
    = Some (1, set_stack
                 [Number (operand str2d a * 2 ^ operand str2d b mod 2 ^ 32); b;
                  Number (operand str2d a mod 2 ^ (32 - operand str2d b))] l).
Proof.
  intros Hs Hb.
  pose proof (wrap_32_range (tonumber str2d a)) as Ha.
  pose proof (wrap_32_range (tonumber str2d b)) as Hb0.
  fold (operand str2d a) in Ha. fold (operand str2d b) in Hb0.
  split.
  - unfold luaBitLeftShift, SHIFTOP.
    step; [apply getNumber_eq |]. step; [apply getNumber_eq |].
    rewrite Hs.
    change (default Nil (indexValue (a :: b :: rest) 1)) with a.
    change (default Nil (indexValue (a :: b :: rest) 2)) with b.
    fold (operand str2d a) (operand str2d b).
    rewrite bool_decide_eq_true_2 by exact Hb.
    step; [apply push_eq |]. unfold mret, M_ret. rewrite Hs.
    unfold wrap at 1. rewrite Z.shiftl_mul_pow2 by lia. reflexivity.
  - unfold luaBitRightShift, SHIFTOP.
    step; [apply getNumber_eq |]. step; [apply getNumber_eq |].
    set (r := operand str2d a * 2 ^ operand str2d b mod 2 ^ 32).
    change (stack (set_stack [Number r; b] l)) with [Number r; b].
    change (default Nil (indexValue [Number r; b] 1)) with (Number r).
    change (default Nil (indexValue [Number r; b] 2)) with b.
    change (tonumber str2d (Number r)) with r. fold (operand str2d b).
    rewrite bool_decide_eq_true_2 by exact Hb.
    step; [apply push_eq |]. unfold mret, M_ret.
    change (stack (set_stack [Number r; b] l)) with [Number r; b].
    rewrite set_stack_set_stack.
    change ([Number r; b] ++ [Number (wrap 32 (wrap 32 r ≫ operand str2d b))])
      with [Number r; b; Number (wrap 32 (wrap 32 r ≫ operand str2d b))].
    do 6 f_equal.
    assert (Hr : 0 ≤ r < 2 ^ 32) by (apply Z.mod_pos_bound; lia).
    rewrite (wrap_32_small r Hr).
    rewrite Z.shiftr_div_pow2 by lia.
    set (n1 := operand str2d a) in *. set (n2 := operand str2d b) in *.
    assert (Hpow : 2 ^ 32 = 2 ^ (32 - n2) * 2 ^ n2).
    { rewrite <- Z.pow_add_r by lia. f_equal. lia. }
    assert (Hdiv : r / 2 ^ n2 = n1 mod 2 ^ (32 - n2)).
    { unfold r. rewrite Hpow.
      rewrite Z.mul_mod_distr_r by lia.
      apply Z.div_mul. lia. }
    rewrite Hdiv. f_equal. apply wrap_32_small.
    assert (0 ≤ n1 mod 2 ^ (32 - n2) < 2 ^ (32 - n2))
      by (apply Z.mod_pos_bound; lia).
    assert (2 ^ (32 - n2) ≤ 2 ^ 32) by (apply Z.pow_le_mono_r; lia).
    lia.
Qed.

End BitLibrary.

Lemma luaBit_multiop_witness :
  luaBitAnd noNumber (set_stack [Number 12; Number 10; Number 6] emptyState)
  = Some (1, set_stack [Number 12; Number 10; Number 6; Number 0] emptyState)
  ∧ luaBitXor noNumber (set_stack [Number 12; Number 10; Number 6] emptyState)
    = Some (1, set_stack [Number 12; Number 10; Number 6; Number 0] emptyState)
  ∧ luaBitOr noNumber (set_stack [Number 12; Number 10; Number 6] emptyState)
    = Some (1, set_stack [Number 12; Number 10; Number 6; Number 14] emptyState).
Proof.
  destruct (luaBit_multiop noNumber
              (set_stack [Number 12; Number 10; Number 6] emptyState))
    as (Hand & Hor & Hxor & _); [done |].
  split; [exact Hand |]. split; [exact Hxor | exact Hor].
Defined.

Lemma luaBitShift_round_trip_witness :
  luaBitLeftShift noNumber (set_stack [Number 0xC0000001; Number 4] emptyState)
  = Some (1, set_stack [Number 0xC0000001; Number 4; Number 16] emptyState)
  ∧ luaBitRightShift noNumber (set_stack [Number 16; Number 4] emptyState)
    = Some (1, set_stack [Number 16; Number 4; Number 1] emptyState).
Proof.
  apply (luaBitShift_round_trip noNumber
           (set_stack [Number 0xC0000001; Number 4] emptyState)
           (Number 0xC0000001) (Number 4) []).
  - reflexivity.
  - vm_compute. reflexivity.
Defined.
